(** * Brake-tilt / hold-tilt controller of the Refloat package

  Shallow embedding of [src/brake_tilt.c] and [src/brake_tilt.h].

  The C code computes on [float], the IEEE 754 binary32 format.  The model
  uses the executable specification of IEEE arithmetic of the standard
  library ([SpecFloat]) at precision 24 and maximal exponent 128, so every
  operation below rounds exactly as the target FPU does (round to nearest,
  ties to even) and every definition can be evaluated on concrete inputs.

  The controller state is a record that is threaded through the calls; the
  C functions mutate the struct behind [bt], the model returns the new
  record. *)

From Stdlib Require Import ZArith Bool List Lia QArith Qpower.
From Stdlib Require Import SpecFloat.
Import ListNotations.

Local Open Scope Z_scope.

(** ** binary32 arithmetic *)

Module F32.

Definition prec : Z := 24.
Definition emax : Z := 128.

Definition float := spec_float.

Definition add : float -> float -> float := SFadd prec emax.
Definition sub : float -> float -> float := SFsub prec emax.
Definition mul : float -> float -> float := SFmul prec emax.
Definition div : float -> float -> float := SFdiv prec emax.
Definition opp : float -> float := SFopp.
Definition abs : float -> float := SFabs.

(** C comparisons; each is false as soon as one operand is a NaN. *)
Definition eqb : float -> float -> bool := SFeqb.
Definition ltb : float -> float -> bool := SFltb.
Definition leb : float -> float -> bool := SFleb.
Definition gtb (x y : float) : bool := SFltb y x.

(** Conversion of an integer constant to [float]. *)
Definition of_Z (z : Z) : float := binary_normalize prec emax z 0 false.

(** A well-formed binary32 datum. *)
Definition valid (x : float) : bool := valid_binary prec emax x.

Definition is_nan (x : float) : bool :=
  match x with S754_nan => true | _ => false end.

Definition zero : float := S754_zero false.
Definition one : float := of_Z 1.
Definition two : float := of_Z 2.
Definition five : float := of_Z 5.
Definition twenty : float := of_Z 20.
Definition c500 : float := of_Z 500.
Definition c800 : float := of_Z 800.
Definition c1000 : float := of_Z 1000.
Definition c2000 : float := of_Z 2000.
(** [0.5f] and [1.5f] are exact. *)
Definition half : float := S754_finite false 8388608 (-24).
Definition one_half : float := S754_finite false 12582912 (-23).
(** [0.995f] is 0x3F7EB852 and [0.99f] is 0x3F7D70A4: the binary32 numbers
    nearest to the decimal literals. *)
Definition c0_995 : float := S754_finite false 16693330 (-24).
Definition c0_99 : float := S754_finite false 16609444 (-24).

End F32.

Definition float : Type := F32.float.

(** ** C [int] *)

Definition INT_MIN : Z := - 2 ^ 31.
Definition INT_MAX : Z := 2 ^ 31 - 1.

(** Result of an [int] operation, reduced to 32 bits in two's complement. *)
Definition int_wrap (z : Z) : Z := (z + 2 ^ 31) mod 2 ^ 32 - 2 ^ 31.

(** ** Data model *)

(** [BrakeTilt] of [brake_tilt.h]. *)
Record BrakeTilt := mkBrakeTilt {
  factor : float;
  target : float;
  setpoint : float;
  hold_tilt_active : bool;
  hold_tilt_value : float;
  hold_counter : Z;
  pitch_timer : float;
  pitch_at_trigger : float;
  hold_tilt_pitch_drop_detected : Z
}.

(** Modelled from the spec: [MotorData] is declared in [motor_data.h], which
    is not among the sources.  The fields read by the controller are the ones
    of the motor snapshot: a braking flag, the absolute and the signed ERPM,
    and the integer direction sign. *)
Record MotorData := mkMotorData {
  braking : bool;
  abs_erpm : float;
  erpm : float;
  erpm_sign : Z
}.

(** Modelled from the spec: [ATR] is declared in [atr.h], which is not among
    the sources.  The three fields read here are floats. *)
Record ATR := mkATR {
  accel_diff : float;
  off_step_size : float;
  on_step_size : float
}.

(** Modelled from the spec: [IMU] is declared in [imu.h], which is not among
    the sources. *)
Record IMU := mkIMU {
  pitch : float;
  balance_pitch : float
}.

(** Modelled from the spec: [RefloatConfig] is declared in
    [conf/datatypes.h], which is not among the sources.  The fields read by
    the controller are numeric; the hold-tilt timeout is a number of ticks
    that is stored into the [int] counter, the others are floats. *)
Record RefloatConfig := mkRefloatConfig {
  braketilt_strength : float;
  braketilt_lingering : float;
  incline_threshold_default : float;
  hold_tilt_min_target : float;
  hold_tilt_time_window : float;
  hold_tilt_pitch_delta_threshold : float;
  hold_tilt_angle : float;
  hold_tilt_timeout : Z
}.

(** Field assignments [bt->f = v]. *)
Definition set_factor (v : float) (bt : BrakeTilt) : BrakeTilt :=
  mkBrakeTilt v (target bt) (setpoint bt) (hold_tilt_active bt)
    (hold_tilt_value bt) (hold_counter bt) (pitch_timer bt)
    (pitch_at_trigger bt) (hold_tilt_pitch_drop_detected bt).

Definition set_target (v : float) (bt : BrakeTilt) : BrakeTilt :=
  mkBrakeTilt (factor bt) v (setpoint bt) (hold_tilt_active bt)
    (hold_tilt_value bt) (hold_counter bt) (pitch_timer bt)
    (pitch_at_trigger bt) (hold_tilt_pitch_drop_detected bt).

Definition set_setpoint (v : float) (bt : BrakeTilt) : BrakeTilt :=
  mkBrakeTilt (factor bt) (target bt) v (hold_tilt_active bt)
    (hold_tilt_value bt) (hold_counter bt) (pitch_timer bt)
    (pitch_at_trigger bt) (hold_tilt_pitch_drop_detected bt).

Definition set_hold_tilt_active (v : bool) (bt : BrakeTilt) : BrakeTilt :=
  mkBrakeTilt (factor bt) (target bt) (setpoint bt) v
    (hold_tilt_value bt) (hold_counter bt) (pitch_timer bt)
    (pitch_at_trigger bt) (hold_tilt_pitch_drop_detected bt).

Definition set_hold_tilt_value (v : float) (bt : BrakeTilt) : BrakeTilt :=
  mkBrakeTilt (factor bt) (target bt) (setpoint bt) (hold_tilt_active bt)
    v (hold_counter bt) (pitch_timer bt)
    (pitch_at_trigger bt) (hold_tilt_pitch_drop_detected bt).

Definition set_hold_counter (v : Z) (bt : BrakeTilt) : BrakeTilt :=
  mkBrakeTilt (factor bt) (target bt) (setpoint bt) (hold_tilt_active bt)
    (hold_tilt_value bt) v (pitch_timer bt)
    (pitch_at_trigger bt) (hold_tilt_pitch_drop_detected bt).

Definition set_pitch_timer (v : float) (bt : BrakeTilt) : BrakeTilt :=
  mkBrakeTilt (factor bt) (target bt) (setpoint bt) (hold_tilt_active bt)
    (hold_tilt_value bt) (hold_counter bt) v
    (pitch_at_trigger bt) (hold_tilt_pitch_drop_detected bt).

Definition set_pitch_at_trigger (v : float) (bt : BrakeTilt) : BrakeTilt :=
  mkBrakeTilt (factor bt) (target bt) (setpoint bt) (hold_tilt_active bt)
    (hold_tilt_value bt) (hold_counter bt) (pitch_timer bt)
    v (hold_tilt_pitch_drop_detected bt).

Definition set_pitch_drop_detected (v : Z) (bt : BrakeTilt) : BrakeTilt :=
  mkBrakeTilt (factor bt) (target bt) (setpoint bt) (hold_tilt_active bt)
    (hold_tilt_value bt) (hold_counter bt) (pitch_timer bt)
    (pitch_at_trigger bt) v.

(** ** Divisions

  A float division never traps, a zero divisor gives an infinity or a NaN.
  To state which divisors a call evaluates, the model records every
  division of [brake_tilt_update] with the place it stands at. *)

Inductive div_site :=
  | DivAccelHalf     (* fabsf(atr->accel_diff) / 2 *)
  | DivFactor        (* balance_offset / bt->factor *)
  | DivDamper        (* ... / downhill_damper *)
  | DivLingering     (* atr->off_step_size / config->braketilt_lingering *)
  | DivStepHalf.     (* braketilt_step_size /= 2 *)

Definition Logged (A : Type) : Type := (A * list (div_site * float))%type.

Definition ret {A} (a : A) : Logged A := (a, []).

Definition bind {A B} (m : Logged A) (k : A -> Logged B) : Logged B :=
  let '(a, l1) := m in
  let '(b, l2) := k a in
  (b, l1 ++ l2).

Definition fdiv (site : div_site) (x y : float) : Logged float :=
  (F32.div x y, [(site, y)]).

Notation "'let*' x ':=' m 'in' k" := (bind m (fun x => k))
  (at level 10, x name, m at level 100, k at level 200).

(** ** Operations *)

(** [brake_tilt_reset], lines 30-39. *)
Definition brake_tilt_reset (bt : BrakeTilt) : BrakeTilt :=
  mkBrakeTilt (factor bt) F32.zero F32.zero false F32.zero 0
    F32.zero F32.zero 0.

(** [brake_tilt_init], lines 25-28. *)
Definition brake_tilt_init (bt : BrakeTilt) : BrakeTilt :=
  brake_tilt_reset (set_factor F32.zero bt).

(** [brake_tilt_configure], lines 41-48. *)
Definition brake_tilt_configure (bt : BrakeTilt) (config : RefloatConfig)
  : BrakeTilt :=
  if F32.eqb (braketilt_strength config) F32.zero then
    set_factor F32.zero bt
  else
    set_factor
      (F32.opp
         (F32.add F32.half
            (F32.div (F32.sub F32.twenty (braketilt_strength config))
               F32.five)))
      bt.

(** [brake_tilt_winddown], lines 154-162. *)
Definition brake_tilt_winddown (bt : BrakeTilt) : BrakeTilt :=
  let bt := set_setpoint (F32.mul (setpoint bt) F32.c0_995) bt in
  let bt := set_target (F32.mul (target bt) F32.c0_99) bt in
  if hold_tilt_active bt then
    set_hold_counter 0 (set_hold_tilt_active false bt)
  else bt.

Section Update.

(** [sign] and [rate_limitf] come from [utils.h], which is not among the
    sources; the update is parametric in them. *)
Variable sign : float -> Z.
Variable rate_limitf : float -> float -> float -> float.

(** Condition of the disable gate, line 65. *)
Definition disable_gate (atr : ATR) (config : RefloatConfig)
           (wheelslip : bool) : bool :=
  let incline_threshold := incline_threshold_default config in
  wheelslip
  || F32.gtb (accel_diff atr) incline_threshold
  || F32.ltb (accel_diff atr) (F32.opp incline_threshold).

(** Body of the disable gate, lines 67-71. *)
Definition disable (bt : BrakeTilt) : BrakeTilt :=
  let bt := set_target F32.zero bt in
  if hold_tilt_active bt then
    set_hold_counter 0 (set_hold_tilt_active false bt)
  else bt.

(** Outer condition of the brake-tilt activation, line 77. *)
Definition braking_condition (bt : BrakeTilt) (motor : MotorData) : bool :=
  F32.ltb (factor bt) F32.zero
  && braking motor
  && F32.gtb (abs_erpm motor) F32.c2000.

(** Condition of the downhill damping, lines 84-85. *)
Definition downhill (motor : MotorData) (atr : ATR) : bool :=
  (F32.gtb (erpm motor) F32.c1000
   && F32.ltb (accel_diff atr) (F32.opp F32.one))
  || (F32.ltb (erpm motor) (F32.opp F32.c1000)
      && F32.gtb (accel_diff atr) F32.one).

(** The local [downhill_damper], lines 81-87. *)
Definition downhill_damper (motor : MotorData) (atr : ATR) : Logged float :=
  if downhill motor atr then
    let* h := fdiv DivAccelHalf (F32.abs (accel_diff atr)) F32.two in
    ret (F32.add F32.one h)
  else ret F32.one.

(** Brake-tilt activation, lines 77-96. *)
Definition brake_tilt_target (bt : BrakeTilt) (motor : MotorData)
           (atr : ATR) (balance_offset : float) : Logged BrakeTilt :=
  if braking_condition bt motor then
    if negb (sign balance_offset =? erpm_sign motor) then
      let* damper := downhill_damper motor atr in
      let* q := fdiv DivFactor balance_offset (factor bt) in
      let* t := fdiv DivDamper q damper in
      let bt := set_target t bt in
      if F32.gtb damper F32.two then ret (set_target F32.zero bt)
      else ret bt
    else ret bt
  else ret (set_target F32.zero bt).

(** Condition of the pitch monitoring, line 99. *)
Definition monitoring (bt : BrakeTilt) (config : RefloatConfig)
           (wheelslip : bool) : bool :=
  negb (hold_tilt_active bt)
  && F32.gtb (F32.abs (target bt)) (hold_tilt_min_target config)
  && negb wheelslip.

(** Pitch-drop window, lines 99-115. *)
Definition pitch_drop_window (bt : BrakeTilt) (config : RefloatConfig)
           (imu : IMU) (dt : float) (wheelslip : bool) : BrakeTilt :=
  if monitoring bt config wheelslip then
    if F32.leb (pitch_timer bt) F32.zero then
      let bt := set_pitch_at_trigger (pitch imu) bt in
      let bt := set_pitch_timer (hold_tilt_time_window config) bt in
      set_pitch_drop_detected 0 bt
    else
      let pitch_delta := F32.sub (pitch_at_trigger bt) (pitch imu) in
      let bt :=
        if F32.gtb pitch_delta (hold_tilt_pitch_delta_threshold config)
        then set_pitch_drop_detected 1 bt
        else bt in
      set_pitch_timer (F32.sub (pitch_timer bt) dt) bt
  else
    set_pitch_drop_detected 0 (set_pitch_timer F32.zero bt).

(** Hold-tilt activation, lines 118-124. *)
Definition hold_tilt_trigger (bt : BrakeTilt) (config : RefloatConfig)
  : BrakeTilt :=
  if negb (hold_tilt_active bt)
     && negb (hold_tilt_pitch_drop_detected bt =? 0) then
    let bt := set_hold_tilt_active true bt in
    let bt := set_hold_tilt_value (hold_tilt_angle config) bt in
    let bt := set_hold_counter (hold_tilt_timeout config) bt in
    let bt := set_pitch_timer F32.zero bt in
    set_pitch_drop_detected 0 bt
  else bt.

(** Hold-tilt behaviour, lines 128-137 (the caller returns after it). *)
Definition hold_tilt_behavior (bt : BrakeTilt) (imu : IMU) : BrakeTilt :=
  let bt := set_setpoint (hold_tilt_value bt) bt in
  let bt :=
    if F32.ltb (balance_pitch imu) (hold_tilt_value bt) then
      let diff := F32.sub (hold_tilt_value bt) (balance_pitch imu) in
      set_setpoint (F32.add (setpoint bt) (F32.mul F32.half diff)) bt
    else bt in
  let bt := set_hold_counter (int_wrap (hold_counter bt - 1)) bt in
  if hold_counter bt <=? 0 then
    set_hold_counter 0 (set_hold_tilt_active false bt)
  else bt.

(** The local [braketilt_step_size], lines 142-150. *)
Definition braketilt_step_size (bt : BrakeTilt) (motor : MotorData)
           (atr : ATR) (config : RefloatConfig) : Logged float :=
  let* step := fdiv DivLingering (off_step_size atr)
                    (braketilt_lingering config) in
  let step :=
    if F32.gtb (F32.abs (target bt)) (F32.abs (setpoint bt)) then
      F32.mul (on_step_size atr) F32.one_half
    else if F32.ltb (abs_erpm motor) F32.c800 then on_step_size atr
    else step in
  if F32.ltb (abs_erpm motor) F32.c500 then fdiv DivStepHalf step F32.two
  else ret step.

(** Brake-tilt step logic, lines 142-151. *)
Definition brake_tilt_step (bt : BrakeTilt) (motor : MotorData)
           (atr : ATR) (config : RefloatConfig) : Logged BrakeTilt :=
  let* step := braketilt_step_size bt motor atr config in
  ret (set_setpoint (rate_limitf (setpoint bt) (target bt) step) bt).

(** State at line 125, once the gate has been passed: the target, the
    pitch-drop window and the hold-tilt activation have been evaluated. *)
Definition update_detect (bt : BrakeTilt) (motor : MotorData) (atr : ATR)
           (config : RefloatConfig) (balance_offset : float) (imu : IMU)
           (dt : float) (wheelslip : bool) : Logged BrakeTilt :=
  let* bt := brake_tilt_target bt motor atr balance_offset in
  let bt := pitch_drop_window bt config imu dt wheelslip in
  ret (hold_tilt_trigger bt config).

(** [brake_tilt_update], lines 50-152, with the divisions it evaluates. *)
Definition brake_tilt_update_logged (bt : BrakeTilt) (motor : MotorData)
           (atr : ATR) (config : RefloatConfig) (balance_offset : float)
           (imu : IMU) (dt : float) (wheelslip : bool) : Logged BrakeTilt :=
  if disable_gate atr config wheelslip then ret (disable bt)
  else
    let* bt := update_detect bt motor atr config balance_offset imu dt
                 wheelslip in
    if hold_tilt_active bt then ret (hold_tilt_behavior bt imu)
    else brake_tilt_step bt motor atr config.

(** [brake_tilt_update]: the state after the call. *)
Definition brake_tilt_update (bt : BrakeTilt) (motor : MotorData)
           (atr : ATR) (config : RefloatConfig) (balance_offset : float)
           (imu : IMU) (dt : float) (wheelslip : bool) : BrakeTilt :=
  fst (brake_tilt_update_logged bt motor atr config balance_offset imu dt
         wheelslip).

(** The divisions evaluated by the call, in order. *)
Definition brake_tilt_update_divisions (bt : BrakeTilt) (motor : MotorData)
           (atr : ATR) (config : RefloatConfig) (balance_offset : float)
           (imu : IMU) (dt : float) (wheelslip : bool)
  : list (div_site * float) :=
  snd (brake_tilt_update_logged bt motor atr config balance_offset imu dt
         wheelslip).

End Update.

(** Modelled from the spec: [sign] of [utils.h] is not among the sources.  It
    gives the direction sign of a float as an integer, -1 below zero and 1
    otherwise. *)
Definition sign_ref (x : float) : Z :=
  if F32.ltb x F32.zero then -1 else 1.

(** Modelled from the spec: [rate_limitf] of [utils.h] is not among the
    sources.  A standard rate limiter: the value moves toward the target by
    at most the step and does not overshoot. *)
Definition rate_limitf_ref (value target step : float) : float :=
  if F32.ltb (F32.abs (F32.sub target value)) step then target
  else if F32.gtb (F32.sub target value) F32.zero then F32.add value step
  else F32.sub value step.

(** ** Ticks and runs *)

(** The inputs of one call of [brake_tilt_update]. *)
Record Tick := mkTick {
  tk_motor : MotorData;
  tk_atr : ATR;
  tk_config : RefloatConfig;
  tk_balance_offset : float;
  tk_imu : IMU;
  tk_dt : float;
  tk_wheelslip : bool
}.

Section Runs.

Variable sign : float -> Z.
Variable rate_limitf : float -> float -> float -> float.

(** One call of [brake_tilt_update] on a tick. *)
Definition tick_update (bt : BrakeTilt) (tk : Tick) : BrakeTilt :=
  brake_tilt_update sign rate_limitf bt (tk_motor tk) (tk_atr tk)
    (tk_config tk) (tk_balance_offset tk) (tk_imu tk) (tk_dt tk)
    (tk_wheelslip tk).

(** Successive calls, one per tick. *)
Definition run (bt : BrakeTilt) (tks : list Tick) : BrakeTilt :=
  fold_left tick_update tks bt.

(** The disable gate of the tick is passed. *)
Definition passes_gate (tk : Tick) : bool :=
  negb (disable_gate (tk_atr tk) (tk_config tk) (tk_wheelslip tk)).

(** State at line 125 of a tick. *)
Definition tick_detect (bt : BrakeTilt) (tk : Tick) : BrakeTilt :=
  fst (update_detect sign bt (tk_motor tk) (tk_atr tk) (tk_config tk)
         (tk_balance_offset tk) (tk_imu tk) (tk_dt tk) (tk_wheelslip tk)).

(** The target assigned by lines 77-96 of a tick. *)
Definition tick_target (bt : BrakeTilt) (tk : Tick) : float :=
  target (fst (brake_tilt_target sign bt (tk_motor tk) (tk_atr tk)
                 (tk_balance_offset tk))).

(** The tick reaches the pitch monitoring with its condition true: the
    gate is passed, hold-tilt is inactive, the magnitude of the target of
    this tick exceeds the minimum and there is no wheelslip. *)
Definition watching (bt : BrakeTilt) (tk : Tick) : bool :=
  passes_gate tk
  && negb (hold_tilt_active bt)
  && F32.gtb (F32.abs (tick_target bt tk))
       (hold_tilt_min_target (tk_config tk))
  && negb (tk_wheelslip tk).

(** The window is open at the start of a tick. *)
Definition window_open (bt : BrakeTilt) : bool :=
  negb (F32.leb (pitch_timer bt) F32.zero).

(** The pitch has dropped below the recorded one by more than the
    threshold. *)
Definition pitch_dropped (bt : BrakeTilt) (tk : Tick) : bool :=
  F32.gtb (F32.sub (pitch_at_trigger bt) (pitch (tk_imu tk)))
    (hold_tilt_pitch_delta_threshold (tk_config tk)).

(** Ticks that keep monitoring an open window without a pitch drop. *)
Fixpoint quiet (bt : BrakeTilt) (tks : list Tick) : bool :=
  match tks with
  | [] => true
  | tk :: tks' =>
      watching bt tk && window_open bt && negb (pitch_dropped bt tk)
      && quiet (tick_update bt tk) tks'
  end.

(** The hold-tilt activation of lines 118-124 is executed by the tick. *)
Definition activates (bt : BrakeTilt) (tk : Tick) : bool :=
  passes_gate tk
  && negb (hold_tilt_active bt)
  && hold_tilt_active (tick_detect bt tk).

(** The tick executes the hold-tilt behaviour of lines 127-139 and returns
    from there. *)
Definition holds (bt : BrakeTilt) (tk : Tick) : bool :=
  passes_gate tk && hold_tilt_active (tick_detect bt tk).

(** The tick reaches the rate limiter of line 151. *)
Definition reaches_step (bt : BrakeTilt) (tk : Tick) : bool :=
  passes_gate tk && negb (hold_tilt_active (tick_detect bt tk)).

(** States of the controller over its life: after [brake_tilt_init], any
    sequence of calls of the interface. *)
Inductive reachable : BrakeTilt -> Prop :=
| reach_init : forall bt, reachable (brake_tilt_init bt)
| reach_reset : forall bt, reachable bt -> reachable (brake_tilt_reset bt)
| reach_configure : forall bt config,
    reachable bt -> reachable (brake_tilt_configure bt config)
| reach_update : forall bt tk,
    reachable bt -> reachable (tick_update bt tk)
| reach_winddown : forall bt,
    reachable bt -> reachable (brake_tilt_winddown bt).

End Runs.

(** Hold-tilt inactive implies a zero counter. *)
Definition hold_inv (bt : BrakeTilt) : Prop :=
  hold_tilt_active bt = false -> hold_counter bt = 0.

(** Successive calls of [brake_tilt_winddown]. *)
Definition winddown_n (n : nat) (bt : BrakeTilt) : BrakeTilt :=
  Nat.iter n brake_tilt_winddown bt.

(** ** Auxiliary notions for the rounding proofs *)

(** The exponent of the last bit kept for a number below [2^e]. *)
Definition fexp32 (e : Z) : Z := Z.max (e - 24) (-149).

(** The number of mantissa [m] and exponent [e], infinite above the largest
    exponent. *)
Definition pack (sx : bool) (m e : Z) : float :=
  match m with
  | 0 => S754_zero sx
  | Zpos p => if e <=? 104 then S754_finite sx p e else S754_infinity sx
  | Zneg _ => S754_nan
  end.

(** Zero or above, and not a NaN. *)
Definition nonneg (x : float) : bool :=
  match x with
  | S754_zero _ => true
  | S754_infinity s | S754_finite s _ _ => negb s
  | S754_nan => false
  end.

(** A normal number: finite, with a mantissa of 24 bits. *)
Definition normal (x : float) : bool :=
  match x with
  | S754_finite _ m _ => Zpos (digits2_pos m) =? 24
  | _ => false
  end.

(** The magnitude of a finite number, as a rational. *)
Definition magnitude (x : float) : Q :=
  match x with
  | S754_finite _ m e => inject_Z (Zpos m) * (2 # 1) ^ e
  | _ => 0%Q
  end.

(** A well-formed number that is not a NaN. *)
Definition sane (x : float) : bool := F32.valid x && negb (F32.is_nan x).

(** Above zero. *)
Definition positive_float (x : float) : bool :=
  match x with
  | S754_infinity s | S754_finite s _ _ => negb s
  | _ => false
  end.

(** 22.5, the strength at which [0.5 + (20 - s) / 5] vanishes. *)
Definition strength_bound : float := S754_finite false 11796480 (-19).

(** ** Example inputs

    A controller configured with strength 15, that is a factor of -1.5, on a
    motor braking at 2500 ERPM with a balance offset of -5. *)

(** The memory of the controller before [brake_tilt_init]. *)
Definition ex_raw : BrakeTilt :=
  mkBrakeTilt F32.one F32.one F32.one true F32.one 7 F32.one F32.one 1.

(** Strength and lingering divisor as given; incline threshold 4, minimal
    target 1, window 1 s, pitch delta 1, hold angle 2, timeout 5 ticks. *)
Definition ex_config (strength lingering : float) : RefloatConfig :=
  mkRefloatConfig strength lingering (F32.of_Z 4) F32.one F32.one F32.one
    F32.two 5.

Definition ex_config15 : RefloatConfig := ex_config (F32.of_Z 15) F32.one.

Definition ex_bt : BrakeTilt :=
  brake_tilt_configure (brake_tilt_init ex_raw) ex_config15.

Definition ex_motor : MotorData :=
  mkMotorData true (F32.of_Z 2500) (F32.of_Z 2500) 1.

Definition ex_motor_slow : MotorData :=
  mkMotorData false (F32.of_Z 600) (F32.of_Z 600) 1.

Definition ex_atr (accel : float) : ATR := mkATR accel F32.one F32.one.

(** A tick of the braking motor with the given incline signal, pitch and
    time step. *)
Definition ex_tick (accel pitch dt : float) : Tick :=
  mkTick ex_motor (ex_atr accel) ex_config15 (F32.of_Z (-5))
    (mkIMU pitch F32.zero) dt false.

Definition ex_quarter : float := F32.div F32.one (F32.of_Z 4).

(** The window opens at pitch 10; the pitch is 9.5 on the next tick and 8 on
    the one after. *)
Definition ex_tick_open : Tick := ex_tick F32.zero (F32.of_Z 10) ex_quarter.
Definition ex_tick_wait : Tick :=
  ex_tick F32.zero (F32.div (F32.of_Z 19) F32.two) ex_quarter.
Definition ex_tick_drop : Tick := ex_tick F32.zero (F32.of_Z 8) ex_quarter.

(** A tick at 600 ERPM without braking. *)
Definition ex_tick_slow : Tick :=
  mkTick ex_motor_slow (ex_atr F32.zero) ex_config15 (F32.of_Z (-5))
    (mkIMU F32.zero F32.zero) ex_quarter false.

(** A tick with a lingering divisor of zero. *)
Definition ex_tick_lingering0 : Tick :=
  mkTick ex_motor (ex_atr F32.zero) (ex_config (F32.of_Z 15) F32.zero)
    (F32.of_Z (-5)) (mkIMU F32.zero F32.zero) ex_quarter false.

(** Setpoint and target at 1. *)
Definition ex_unit : BrakeTilt :=
  mkBrakeTilt F32.zero F32.one F32.one false F32.zero 0 F32.zero F32.zero 0.

(** Setpoint at 100 and target at 50 times the smallest positive number. *)
Definition ex_stalled : BrakeTilt :=
  mkBrakeTilt F32.zero (S754_finite false 50 (-149))
    (S754_finite false 100 (-149)) false F32.zero 0 F32.zero F32.zero 0.

(** ** Sequences of calls *)

(** A call of the interface after [brake_tilt_init]. *)
Inductive Op :=
| OpReset
| OpConfigure (config : RefloatConfig)
| OpUpdate (tk : Tick)
| OpWinddown.

(** The call is not [brake_tilt_configure]. *)
Definition keeps_config (op : Op) : bool :=
  match op with OpConfigure _ => false | _ => true end.

Section Ops.

Variable sign : float -> Z.
Variable rate_limitf : float -> float -> float -> float.

(** The state after one call. *)
Definition apply_op (bt : BrakeTilt) (op : Op) : BrakeTilt :=
  match op with
  | OpReset => brake_tilt_reset bt
  | OpConfigure config => brake_tilt_configure bt config
  | OpUpdate tk => tick_update sign rate_limitf bt tk
  | OpWinddown => brake_tilt_winddown bt
  end.

(** The state after a sequence of calls. *)
Definition apply_ops (bt : BrakeTilt) (ops : list Op) : BrakeTilt :=
  fold_left apply_op ops bt.

End Ops.

(** ** The update through a pointer to the IMU

    [brake_tilt_update] takes the IMU by pointer and reads it at lines 102,
    106 and 130 only; [brake_tilt_update_legacy] of [brake_tilt.h] passes
    [NULL].  A pointer is an [option]; a call that reads through a null
    pointer has no result, [None]. *)

Notation "'let?' x ':=' m 'in' k" :=
  (match m with Some x => k | None => None end)
  (at level 10, x name, m at level 100, k at level 200).

(** [imu->field]. *)
Definition deref {A : Type} (imu : option IMU) (field : IMU -> A)
  : option A :=
  match imu with Some i => Some (field i) | None => None end.

(** Pitch-drop window, lines 99-115, reading [imu->pitch] at line 102 or
    106. *)
Definition pitch_drop_window_ptr (bt : BrakeTilt) (config : RefloatConfig)
           (imu : option IMU) (dt : float) (wheelslip : bool)
  : option BrakeTilt :=
  if monitoring bt config wheelslip then
    if F32.leb (pitch_timer bt) F32.zero then
      let? p := deref imu pitch in
      let bt := set_pitch_at_trigger p bt in
      let bt := set_pitch_timer (hold_tilt_time_window config) bt in
      Some (set_pitch_drop_detected 0 bt)
    else
      let? p := deref imu pitch in
      let pitch_delta := F32.sub (pitch_at_trigger bt) p in
      let bt :=
        if F32.gtb pitch_delta (hold_tilt_pitch_delta_threshold config)
        then set_pitch_drop_detected 1 bt
        else bt in
      Some (set_pitch_timer (F32.sub (pitch_timer bt) dt) bt)
  else
    Some (set_pitch_drop_detected 0 (set_pitch_timer F32.zero bt)).

(** Hold-tilt behaviour, lines 128-137, reading [imu->balance_pitch] at line
    130. *)
Definition hold_tilt_behavior_ptr (bt : BrakeTilt) (imu : option IMU)
  : option BrakeTilt :=
  let bt := set_setpoint (hold_tilt_value bt) bt in
  let? bp := deref imu balance_pitch in
  let bt :=
    if F32.ltb bp (hold_tilt_value bt) then
      let diff := F32.sub (hold_tilt_value bt) bp in
      set_setpoint (F32.add (setpoint bt) (F32.mul F32.half diff)) bt
    else bt in
  let bt := set_hold_counter (int_wrap (hold_counter bt - 1)) bt in
  if hold_counter bt <=? 0 then
    Some (set_hold_counter 0 (set_hold_tilt_active false bt))
  else Some bt.

Section UpdatePtr.

Variable sign : float -> Z.
Variable rate_limitf : float -> float -> float -> float.

(** [brake_tilt_update], lines 50-152, with its IMU argument as a
    pointer. *)
Definition brake_tilt_update_ptr (bt : BrakeTilt) (motor : MotorData)
           (atr : ATR) (config : RefloatConfig) (balance_offset : float)
           (imu : option IMU) (dt : float) (wheelslip : bool)
  : option BrakeTilt :=
  if disable_gate atr config wheelslip then Some (disable bt)
  else
    let bt := fst (brake_tilt_target sign bt motor atr balance_offset) in
    let? bt := pitch_drop_window_ptr bt config imu dt wheelslip in
    let bt := hold_tilt_trigger bt config in
    if hold_tilt_active bt then hold_tilt_behavior_ptr bt imu
    else Some (fst (brake_tilt_step rate_limitf bt motor atr config)).

(** [brake_tilt_update_legacy], [brake_tilt.h] lines 60-68. *)
Definition brake_tilt_update_legacy (bt : BrakeTilt) (motor : MotorData)
           (atr : ATR) (config : RefloatConfig) (balance_offset : float)
  : option BrakeTilt :=
  brake_tilt_update_ptr bt motor atr config balance_offset None F32.zero
    false.

End UpdatePtr.

(** ** Classes and signs of binary32 numbers *)

(** Zero or a finite number. *)
Definition is_finite (x : float) : bool :=
  match x with S754_zero _ | S754_finite _ _ _ => true | _ => false end.

(** The sign bit; a NaN has none here. *)
Definition sign_bit (x : float) : option bool :=
  match x with
  | S754_zero s | S754_infinity s | S754_finite s _ _ => Some s
  | S754_nan => None
  end.

(** The sign of a number that compares different from zero. *)
Definition strict_sign (x : float) : option bool :=
  match x with
  | S754_infinity s | S754_finite s _ _ => Some s
  | _ => None
  end.

(** ** Further example inputs *)

(** A tick of the braking motor with a balance offset of 5, whose sign is
    the direction sign of the motor. *)
Definition ex_tick_forward : Tick :=
  mkTick ex_motor (ex_atr F32.zero) ex_config15 (F32.of_Z 5)
    (mkIMU (F32.of_Z 10) F32.zero) ex_quarter false.

(** The configuration of the examples with a timeout of one tick. *)
Definition ex_config_short : RefloatConfig :=
  mkRefloatConfig (F32.of_Z 15) F32.one (F32.of_Z 4) F32.one F32.one F32.one
    F32.two 1.

(** A tick of the braking motor at the given pitch, with the timeout of one
    tick. *)
Definition ex_tick_short (pitch : float) : Tick :=
  mkTick ex_motor (ex_atr F32.zero) ex_config_short (F32.of_Z (-5))
    (mkIMU pitch F32.zero) ex_quarter false.

(** The state after the window has opened at pitch 10 and stayed open at
    pitch 9.5. *)
Definition ex_monitoring : BrakeTilt :=
  run sign_ref rate_limitf_ref ex_bt [ex_tick_open; ex_tick_wait].

(** A tick of the braking motor at pitch 8 on an incline signal of 5, above
    the threshold of 4, without wheelslip. *)
Definition ex_tick_incline : Tick :=
  ex_tick (F32.of_Z 5) (F32.of_Z 8) ex_quarter.

(** A tick of the braking motor at pitch 8 with wheelslip. *)
Definition ex_tick_slip : Tick :=
  mkTick ex_motor (ex_atr F32.zero) ex_config15 (F32.of_Z (-5))
    (mkIMU (F32.of_Z 8) F32.zero) ex_quarter true.

(** A setpoint of 1 beside a NaN target. *)
Definition ex_nan_target : BrakeTilt :=
  mkBrakeTilt F32.zero S754_nan F32.one false F32.zero 0 F32.zero F32.zero
    0.

(** A tick of the braking motor on a slight descent: an incline signal of
    -1.5. *)
Definition ex_tick_downhill : Tick :=
  ex_tick (F32.div (F32.of_Z (-3)) F32.two) (F32.of_Z 10) ex_quarter.

(** * Properties *)

(** ** Comparisons of binary32 numbers *)

Lemma compare_cont_Z (a b : positive) :
  Pos.compare_cont Eq a b = (Zpos a ?= Zpos b).
Proof. reflexivity. Qed.

Lemma compare_cont_antisym (m n : positive) :
  Pos.compare_cont Eq n m = CompOpp (Pos.compare_cont Eq m n).
Proof. apply (Pos.compare_antisym m n). Qed.

(** [fabsf(a) > t] is [a > t || a < -t], the form the gate is written in. *)
Lemma gtb_abs (a t : float) :
  F32.gtb (F32.abs a) t = F32.gtb a t || F32.ltb a (F32.opp t).
Proof.
  unfold F32.gtb, F32.ltb, F32.abs, F32.opp, SFltb.
  destruct a as [sa|sa| |sa ma ea], t as [st|st| |st mt et];
    try destruct sa; try destruct st; try reflexivity.
  all: cbn [SFabs SFopp SFcompare negb].
  all: try rewrite (Z.compare_antisym et ea), (compare_cont_antisym mt ma).
  all: destruct (et ?= ea); cbn; try reflexivity.
  all: destruct (Pos.compare_cont Eq mt ma); reflexivity.
Qed.

(** Values of the integer constants of the code. *)
Lemma constants_eq :
  F32.one = S754_finite false 8388608 (-23)
  /\ F32.two = S754_finite false 8388608 (-22)
  /\ F32.five = S754_finite false 10485760 (-21)
  /\ F32.twenty = S754_finite false 10485760 (-19)
  /\ F32.c500 = S754_finite false 16384000 (-15)
  /\ F32.c800 = S754_finite false 13107200 (-14)
  /\ F32.c1000 = S754_finite false 16384000 (-14)
  /\ F32.c2000 = S754_finite false 16384000 (-13).
Proof. now vm_compute. Qed.

Ltac fold_constants :=
  let E1 := fresh in let E2 := fresh in let E3 := fresh in
  let E4 := fresh in let E5 := fresh in let E6 := fresh in
  let E7 := fresh in let E8 := fresh in
  destruct constants_eq as (E1 & E2 & E3 & E4 & E5 & E6 & E7 & E8);
  rewrite ?E1, ?E2, ?E3, ?E4, ?E5, ?E6, ?E7, ?E8;
  clear E1 E2 E3 E4 E5 E6 E7 E8.

(** A speed below 800 is below 2000. *)
Lemma ltb_800_gtb_2000 (x : float) :
  F32.ltb x F32.c800 = true -> F32.gtb x F32.c2000 = false.
Proof.
  fold_constants. unfold F32.ltb, F32.gtb, SFltb.
  destruct x as [s|s| |s m e]; try destruct s; cbn [SFcompare];
    try reflexivity; try discriminate.
  destruct (Z.compare_spec e (-14)), (Z.compare_spec (-13) e);
    try lia; intros; try reflexivity; discriminate.
Qed.

(** A speed below 500 is below 800. *)
Lemma ltb_500_ltb_800 (x : float) :
  F32.ltb x F32.c500 = true -> F32.ltb x F32.c800 = true.
Proof.
  fold_constants. unfold F32.ltb, SFltb.
  destruct x as [s|s| |s m e]; try destruct s; cbn [SFcompare];
    try reflexivity; try discriminate.
  destruct (Z.compare_spec e (-15)), (Z.compare_spec e (-14));
    try lia; intros; try reflexivity; discriminate.
Qed.

(** No magnitude is below the magnitude of zero. *)
Lemma gtb_abs_zero (x : float) :
  F32.gtb (F32.abs F32.zero) (F32.abs x) = false.
Proof. now destruct x as [s|s| |s m e]. Qed.

(** ** Rounding in binary32 *)

Lemma digits2_pos_bounds (m : positive) :
  2 ^ (Zpos (digits2_pos m) - 1) <= Zpos m < 2 ^ Zpos (digits2_pos m).
Proof.
  induction m as [m IH|m IH|]; cbn [digits2_pos].
  - rewrite Pos2Z.inj_succ.
    replace (Z.succ (Zpos (digits2_pos m)) - 1) with
      (Z.succ (Zpos (digits2_pos m) - 1)) by lia.
    rewrite !Z.pow_succ_r by lia. lia.
  - rewrite Pos2Z.inj_succ.
    replace (Z.succ (Zpos (digits2_pos m)) - 1) with
      (Z.succ (Zpos (digits2_pos m) - 1)) by lia.
    rewrite !Z.pow_succ_r by lia. lia.
  - cbn. lia.
Qed.

Lemma Zdigits2_bounds (m : Z) :
  0 < m -> 2 ^ (Zdigits2 m - 1) <= m < 2 ^ Zdigits2 m.
Proof.
  destruct m as [|p|p]; try lia. intros _. apply digits2_pos_bounds.
Qed.

Lemma Zdigits2_pos (m : Z) : 0 < m -> 0 < Zdigits2 m.
Proof. destruct m; cbn; lia. Qed.

(** A number below [2^k] has at most [k] bits, one from [2^k] on has more
    than [k]. *)
Lemma Zdigits2_le (m k : Z) : 0 < m -> m < 2 ^ k -> Zdigits2 m <= k.
Proof.
  intros P L. destruct (Zdigits2_bounds m P) as [B _].
  destruct (Z.le_gt_cases (Zdigits2 m) k) as [|G]; [assumption|exfalso].
  assert (2 ^ k <= 2 ^ (Zdigits2 m - 1)).
  { apply Z.pow_le_mono_r; lia. }
  lia.
Qed.

Lemma Zdigits2_gt (m k : Z) : 0 <= k -> 2 ^ k <= m -> k < Zdigits2 m.
Proof.
  intros K L. assert (P : 0 < m) by (pose proof (Z.pow_pos_nonneg 2 k); lia).
  destruct (Zdigits2_bounds m P) as [_ B].
  destruct (Z.lt_ge_cases k (Zdigits2 m)) as [|G]; [assumption|exfalso].
  assert (2 ^ Zdigits2 m <= 2 ^ k) by (apply Z.pow_le_mono_r; lia).
  lia.
Qed.

(** [shr_1] halves the mantissa, [shr] divides it by a power of two. *)
Lemma shr_1_m (mrs : shr_record) :
  0 <= shr_m mrs -> shr_m (shr_1 mrs) = shr_m mrs / 2.
Proof.
  destruct mrs as [m r s]; cbn [shr_m]. intros P.
  destruct m as [|[p|p|]|p]; cbn [shr_1 shr_m]; try lia.
  - reflexivity.
  - rewrite Pos2Z.inj_xI. apply Z.div_unique with 1; lia.
  - rewrite Pos2Z.inj_xO. apply Z.div_unique with 0; lia.
  - reflexivity.
Qed.

Lemma iter_shr_1_m (p : positive) : forall mrs,
  0 <= shr_m mrs ->
  shr_m (iter_pos shr_1 p mrs) = shr_m mrs / 2 ^ Zpos p.
Proof.
  assert (N : forall mrs, 0 <= shr_m mrs -> 0 <= shr_m (shr_1 mrs)).
  { intros mrs P. rewrite shr_1_m by assumption. apply Z.div_pos; lia. }
  assert (E : forall q : positive, 0 < 2 ^ Zpos q)
    by (intros; apply Z.pow_pos_nonneg; lia).
  induction p as [p IH|p IH|]; intros mrs P; cbn [iter_pos].
  - assert (P1 : 0 <= shr_m (shr_1 mrs)) by auto.
    assert (P2 : 0 <= shr_m (iter_pos shr_1 p (shr_1 mrs))).
    { rewrite IH by auto. apply Z.div_pos; [auto|apply E]. }
    rewrite (IH _ P2), (IH _ P1), shr_1_m by assumption.
    rewrite !Z.div_div by (try apply E; lia). f_equal.
    change (Z.pos p~1) with (2 * Z.pos p + 1).
    replace (2 * Z.pos p + 1) with (1 + (Z.pos p + Z.pos p)) by lia.
    rewrite !Z.pow_add_r by lia. now rewrite Z.pow_1_r.
  - assert (P2 : 0 <= shr_m (iter_pos shr_1 p mrs)).
    { rewrite IH by auto. apply Z.div_pos; [auto|apply E]. }
    rewrite (IH _ P2), (IH _ P).
    rewrite !Z.div_div by (try apply E; lia). f_equal.
    change (Z.pos p~0) with (2 * Z.pos p).
    replace (2 * Z.pos p) with (Z.pos p + Z.pos p) by lia.
    now rewrite Z.pow_add_r by lia.
  - now rewrite shr_1_m.
Qed.

Lemma shr_m_spec (mrs : shr_record) (e n : Z) :
  0 <= shr_m mrs ->
  shr_m (fst (shr mrs e n)) = shr_m mrs / 2 ^ Z.max 0 n
  /\ snd (shr mrs e n) = e + Z.max 0 n.
Proof.
  intros P. destruct n as [|p|p]; cbn [shr fst snd].
  - rewrite Z.max_id. cbn. rewrite Z.div_1_r. lia.
  - rewrite Z.max_r by lia. split; [now apply iter_shr_1_m | reflexivity].
  - rewrite Z.max_l by lia. cbn. rewrite Z.div_1_r. lia.
Qed.

Lemma shr_record_of_loc_m (m : Z) (l : location) :
  shr_m (shr_record_of_loc m l) = m.
Proof. now destruct l as [|[]]. Qed.

(** Rounding to nearest keeps the truncated mantissa or adds one. *)
Lemma round_nearest_even_range (m : Z) (l : location) :
  m <= round_nearest_even m l <= m + 1.
Proof.
  destruct l as [|[]]; cbn; try lia. destruct (Z.even m); lia.
Qed.

(** In binary32 the exponent function is [fexp32]. *)
Lemma fexp_eq (e : Z) : fexp F32.prec F32.emax e = fexp32 e.
Proof. reflexivity. Qed.

(** The two steps of [binary_round_aux] on a mantissa [mx] at exponent [ex]:
    the mantissa is cut to the bits that fit and rounded to some [m2], the
    truncation or its successor, and [m2] is cut once more in case the
    rounding carried into a 25th bit.  An exact mantissa that fits is kept. *)
Lemma binary_round_aux_spec (sx : bool) (mx ex : Z) (lx : location) :
  0 <= mx ->
  let k1 := Z.max 0 (fexp32 (Zdigits2 mx + ex) - ex) in
  exists m2,
    mx / 2 ^ k1 <= m2 <= mx / 2 ^ k1 + 1
    /\ (lx = loc_Exact -> k1 = 0 -> m2 = mx)
    /\ let e1 := ex + k1 in
       let k2 := Z.max 0 (fexp32 (Zdigits2 m2 + e1) - e1) in
       binary_round_aux F32.prec F32.emax sx mx ex lx
       = pack sx (m2 / 2 ^ k2) (e1 + k2).
Proof.
  intros P k1. unfold binary_round_aux, shr_fexp. rewrite !fexp_eq.
  pose proof (shr_m_spec (shr_record_of_loc mx lx) ex
                (fexp32 (Zdigits2 mx + ex) - ex)) as S1.
  rewrite shr_record_of_loc_m in S1. specialize (S1 P).
  destruct (shr (shr_record_of_loc mx lx) ex _) as [mrs1 e1] eqn:E1.
  cbn [fst snd] in S1. fold k1 in S1. destruct S1 as [M1 ->].
  set (m2 := round_nearest_even (shr_m mrs1) (loc_of_shr_record mrs1)).
  assert (R : shr_m mrs1 <= m2 <= shr_m mrs1 + 1)
    by apply round_nearest_even_range.
  assert (P1 : 0 <= shr_m mrs1).
  { rewrite M1. apply Z.div_pos; [assumption|].
    apply Z.pow_pos_nonneg; lia. }
  exists m2. rewrite <- M1. split; [exact R|]. split.
  - intros -> K. unfold k1 in K. cbn [shr_record_of_loc] in E1.
    subst m2.
    destruct (fexp32 (Zdigits2 mx + ex) - ex) as [|p|p]; cbn in E1;
      try lia; injection E1 as <- _; reflexivity.
  - cbv zeta.
    pose proof (shr_m_spec (shr_record_of_loc m2 loc_Exact) (ex + k1)
                  (fexp32 (Zdigits2 m2 + (ex + k1)) - (ex + k1))) as S2.
    rewrite shr_record_of_loc_m in S2.
    assert (P2 : 0 <= m2) by lia. specialize (S2 P2).
    destruct (shr (shr_record_of_loc m2 loc_Exact) (ex + k1) _)
      as [mrs2 e2] eqn:E2.
    cbn [fst snd] in S2. destruct S2 as [-> ->].
    unfold pack. reflexivity.
Qed.

(** A well-formed finite number has its exponent given by [fexp32]. *)
Lemma bounded_spec (m : positive) (e : Z) :
  bounded F32.prec F32.emax m e = true ->
  fexp32 (Zdigits2 (Zpos m) + e) = e /\ e <= 104.
Proof.
  unfold bounded, canonical_mantissa. rewrite fexp_eq. intros B.
  apply andb_prop in B. destruct B as [C L].
  apply Z.eqb_eq in C. apply Z.leb_le in L.
  split; [exact C | exact L].
Qed.

Lemma bounded_intro (m : positive) (e : Z) :
  fexp32 (Zdigits2 (Zpos m) + e) = e -> e <= 104 ->
  bounded F32.prec F32.emax m e = true.
Proof.
  intros C L. unfold bounded, canonical_mantissa. rewrite fexp_eq.
  apply andb_true_intro. split; [now apply Z.eqb_eq | now apply Z.leb_le].
Qed.

(** Digits of a product with a 24-bit mantissa. *)
Lemma digits_mul (m mc : Z) :
  0 < m -> 8388608 <= mc < 16777216 ->
  Zdigits2 (m * mc) = Zdigits2 m + 23 \/ Zdigits2 (m * mc) = Zdigits2 m + 24.
Proof.
  intros P C. destruct (Zdigits2_bounds m P) as [L U].
  pose proof (Zdigits2_pos m P) as D.
  assert (Zdigits2 (m * mc) <= Zdigits2 m + 24).
  { apply Zdigits2_le; [nia|]. rewrite Z.pow_add_r by lia.
    change (2 ^ 24) with 16777216. nia. }
  assert (Zdigits2 m + 22 < Zdigits2 (m * mc)).
  { apply Zdigits2_gt; [lia|].
    replace (Zdigits2 m + 22) with (Zdigits2 m - 1 + 23) by lia.
    rewrite Z.pow_add_r by lia. change (2 ^ 23) with 8388608. nia. }
  lia.
Qed.

Lemma pack_pos (sx : bool) (p : positive) (e : Z) :
  e <= 104 -> pack sx (Zpos p) e = S754_finite sx p e.
Proof. intros L. unfold pack. now rewrite (proj2 (Z.leb_le e 104) L). Qed.

Lemma to_pos (z : Z) : 0 < z -> exists p, z = Zpos p.
Proof. destruct z; try lia. now eexists. Qed.

Ltac dlia := Z.to_euclidean_division_equations; lia.

(** The product of a well-formed finite number and a constant
    [mc * 2^-24] between 0.5 and 0.995: it is zero, or it has the same
    exponent and a mantissa that is not larger, or, for a mantissa of 24
    bits, the exponent below.  In each case the mantissa exceeds the exact
    product by less than one unit. *)
Lemma mul_scale (sx : bool) (m mc : positive) (e : Z) :
  bounded F32.prec F32.emax m e = true ->
  8388608 <= Zpos mc <= 16693330 ->
  let r := F32.mul (S754_finite sx m e) (S754_finite false mc (-24)) in
  F32.valid r = true
  /\ (r = S754_zero sx
      \/ (exists m',
             r = S754_finite sx m' e
             /\ Zpos m' <= Zpos m
             /\ 16777216 * Zpos m' <= Zpos m * Zpos mc + 16777216)
      \/ (exists m',
             r = S754_finite sx m' (e - 1)
             /\ 8388608 <= Zpos m
             /\ Zpos m' < 16777216
             /\ 8388608 * Zpos m' <= Zpos m * Zpos mc + 8388608)).
Proof.
  intros B C r. destruct (bounded_spec m e B) as [Can L].
  subst r. unfold F32.mul, SFmul. rewrite xorb_false_r.
  destruct (binary_round_aux_spec sx (Zpos (m * mc)) (e + -24) loc_Exact)
    as (m2 & R & _ & E); [lia|].
  cbv zeta in E. rewrite E. clear E.
  rewrite Pos2Z.inj_mul in *.
  set (M := Zpos m) in *. set (K := Zpos mc) in *.
  assert (PM : 0 < M) by (unfold M; lia).
  clearbody M K. clear B.
  pose proof (Zdigits2_pos M PM) as DP.
  destruct (Zdigits2_bounds M PM) as [ML MU].
  set (dm := Zdigits2 M) in *.
  set (k1 := Z.max 0 (fexp32 (Zdigits2 (M * K) + (e + -24)) - (e + -24)))
    in *.
  assert (E149 : -149 <= e) by (unfold fexp32 in Can; lia).
  assert (K1 : (k1 = 24 /\ (e = -149 \/ Zdigits2 (M * K) = dm + 24))
               \/ (k1 = 23 /\ dm = 24 /\ Zdigits2 (M * K) = 47
                   /\ -149 < e)).
  { unfold k1, fexp32 in *.
    destruct (digits_mul M K PM) as [D|D]; [lia| |]; fold dm in D;
      rewrite D; lia. }
  assert (PK : M * K <= 16693330 * M) by nia.
  assert (PP : 0 < M * K) by nia.
  destruct K1 as [[K1 V]|(K1 & DM & D & E1)]; rewrite K1 in *; clear k1 K1.
  - (* the product is shifted by 24 bits *)
    change (2 ^ 24) with 16777216 in R.
    replace (e + -24 + 24) with e by lia.
    assert (M2 : m2 <= M) by dlia.
    assert (D2 : m2 = 0 \/ (0 < m2 /\ Zdigits2 m2 <= dm)).
    { destruct (Z.eq_dec m2 0) as [|N]; [now left|right].
      assert (0 < m2) by dlia. split; [assumption|].
      apply Zdigits2_le; [assumption|].
      eapply Z.le_lt_trans; eassumption. }
    assert (K2 : Z.max 0 (fexp32 (Zdigits2 m2 + e) - e) = 0).
    { destruct D2 as [->|[_ D2]]; unfold fexp32 in *; cbn [Zdigits2]; lia. }
    rewrite K2, Z.div_1_r, Z.add_0_r.
    destruct D2 as [->|[P2 D2]]; [split; [reflexivity|now left]|].
    destruct (to_pos m2 P2) as [p ->]. rewrite pack_pos by assumption.
    split.
    + apply bounded_intro; [|assumption].
      destruct V as [->|V]; [unfold fexp32 in *; lia|].
      assert (dm - 1 < Zdigits2 (Zpos p)).
      { apply Zdigits2_gt; [lia|].
        destruct (Zdigits2_bounds (M * K) PP) as [PL _]. rewrite V in PL.
        replace (dm + 24 - 1) with (dm - 1 + 24) in PL by lia.
        rewrite Z.pow_add_r in PL by lia. change (2 ^ 24) with 16777216 in PL.
        assert (2 ^ (dm - 1) <= M * K / 16777216)
          by (apply Z.div_le_lower_bound; lia).
        lia. }
      replace (Zdigits2 (Zpos p)) with dm by lia. exact Can.
    + right; left. exists p. repeat split; dlia.
  - (* a normal number whose product loses one binade *)
    change (2 ^ 23) with 8388608 in R.
    replace (e + -24 + 23) with (e - 1) by lia.
    destruct (Zdigits2_bounds (M * K) PP) as [PL PU]. rewrite D in PL, PU.
    change (2 ^ (47 - 1)) with 70368744177664 in PL.
    change (2 ^ 47) with 140737488355328 in PU.
    rewrite DM in ML. change (2 ^ (24 - 1)) with 8388608 in ML.
    assert (R2 : 8388608 <= m2 <= 16777216) by dlia.
    destruct (Z.eq_dec m2 16777216) as [->|N].
    + (* rounding carries into the next binade *)
      change (Zdigits2 16777216) with 25.
      replace (Z.max 0 (fexp32 (25 + (e - 1)) - (e - 1))) with 1
        by (unfold fexp32; lia).
      change (16777216 / 2 ^ 1) with (Zpos 8388608).
      replace (e - 1 + 1) with e by lia. rewrite pack_pos by assumption.
      split.
      * apply bounded_intro; [|assumption].
        change (Zdigits2 (Zpos 8388608)) with 24. unfold fexp32. lia.
      * right; left. exists 8388608%positive. repeat split; dlia.
    + assert (D2 : Zdigits2 m2 = 24).
      { assert (Zdigits2 m2 <= 24) by (apply Zdigits2_le; cbn; lia).
        assert (23 < Zdigits2 m2) by (apply Zdigits2_gt; cbn; lia).
        lia. }
      rewrite D2.
      replace (Z.max 0 (fexp32 (24 + (e - 1)) - (e - 1))) with 0
        by (unfold fexp32; lia).
      rewrite Z.div_1_r, Z.add_0_r.
      destruct (to_pos m2) as [p ->]; [lia|].
      rewrite pack_pos by lia.
      split.
      * apply bounded_intro; [|lia]. rewrite D2. unfold fexp32. lia.
      * right; right. exists p. repeat split; dlia.
Qed.

(** Rounding, division and normalisation of what is zero or above give a
    number that is zero or above. *)
Lemma pack_nonneg (m e : Z) : 0 <= m -> nonneg (pack false m e) = true.
Proof.
  intros P. destruct m as [|p|p]; cbn; try lia.
  now destruct (e <=? 104).
Qed.

Lemma binary_round_aux_nonneg (mx ex : Z) (lx : location) :
  0 <= mx ->
  nonneg (binary_round_aux F32.prec F32.emax false mx ex lx) = true.
Proof.
  intros P.
  destruct (binary_round_aux_spec false mx ex lx P) as (m2 & R & _ & ->).
  apply pack_nonneg. apply Z.div_pos; [|apply Z.pow_pos_nonneg; lia].
  assert (0 <= mx / 2 ^ Z.max 0 (fexp32 (Zdigits2 mx + ex) - ex)).
  { apply Z.div_pos; [assumption|apply Z.pow_pos_nonneg; lia]. }
  lia.
Qed.

(** [shl_align] to a lower exponent multiplies the mantissa by the power of
    two. *)
Lemma shl_align_spec (mx : positive) (ex ez : Z) :
  ez <= ex ->
  Zpos (fst (shl_align mx ex ez)) = Zpos mx * 2 ^ (ex - ez)
  /\ snd (shl_align mx ex ez) = ez.
Proof.
  intros L. unfold shl_align.
  destruct (ez - ex) as [|d|d] eqn:E; cbn [fst snd]; try lia.
  - replace (ex - ez) with 0 by lia. lia.
  - replace (ex - ez) with (Zpos d) by lia.
    change (Pos.iter xO mx d) with (shift_pos d mx).
    rewrite shift_pos_correct, Z.pow_pos_fold. lia.
Qed.

Lemma binary_round_nonneg (m : positive) (e : Z) :
  nonneg (binary_round F32.prec F32.emax false m e) = true.
Proof.
  unfold binary_round. destruct (shl_align m e _) as [mz ez].
  apply binary_round_aux_nonneg. lia.
Qed.

Lemma div_nonneg (x : float) (my : positive) (ey : Z) :
  nonneg x = true ->
  nonneg (F32.div x (S754_finite false my ey)) = true.
Proof.
  destruct x as [s|s| |s m e]; cbn; try discriminate; try reflexivity.
  - now rewrite xorb_false_r.
  - intros S. apply negb_true_iff in S. subst s.
    unfold F32.div, SFdiv, SFdiv_core_binary. cbn [xorb].
    set (a := match _ - _ - _ with 0 => Zpos m | Zpos _ => _ | Zneg _ => 0 end).
    assert (A : 0 <= a).
    { subst a. destruct (_ - _ - _); try lia. apply Z.shiftl_nonneg. lia. }
    pose proof (Z.div_pos a (Zpos my) A eq_refl) as Q.
    unfold Z.div in Q. destruct (Z.div_eucl a (Zpos my)) as [q r].
    now apply binary_round_aux_nonneg.
Qed.

(** Keeping the 24 leading bits of a number of at least 24 bits. *)
Lemma div_pow_digits (s : Z) :
  0 < s -> 24 <= Zdigits2 s ->
  8388608 <= s / 2 ^ (Zdigits2 s - 24) < 16777216.
Proof.
  intros P D. destruct (Zdigits2_bounds s P) as [L U].
  assert (E : 0 < 2 ^ (Zdigits2 s - 24)) by (apply Z.pow_pos_nonneg; lia).
  split.
  - apply Z.div_le_lower_bound; [assumption|].
    change 8388608 with (2 ^ 23). rewrite <- Z.pow_add_r by lia.
    now replace (Zdigits2 s - 24 + 23) with (Zdigits2 s - 1) by lia.
  - apply Z.div_lt_upper_bound; [assumption|].
    change 16777216 with (2 ^ 24). rewrite <- Z.pow_add_r by lia.
    now replace (Zdigits2 s - 24 + 24) with (Zdigits2 s) by lia.
Qed.

(** The second half of the rounding, from a mantissa of 24 bits or the
    power of two above them. *)
Lemma round_tail_ge (ec e1 m2 : Z) :
  -149 <= ec <= e1 ->
  8388608 <= m2 <= 16777216 ->
  SFleb (S754_finite false 8388608 ec)
    (pack false
       (m2 / 2 ^ Z.max 0 (fexp32 (Zdigits2 m2 + e1) - e1))
       (e1 + Z.max 0 (fexp32 (Zdigits2 m2 + e1) - e1))) = true.
Proof.
  intros E R. unfold SFleb.
  destruct (Z.eq_dec m2 16777216) as [->|N].
  - change (Zdigits2 16777216) with 25.
    replace (Z.max 0 (fexp32 (25 + e1) - e1)) with 1
      by (unfold fexp32; lia).
    change (16777216 / 2 ^ 1) with (Zpos 8388608). unfold pack.
    destruct (e1 + 1 <=? 104); [|reflexivity].
    cbn [SFcompare]. now replace (ec ?= e1 + 1) with Lt
      by (symmetry; apply Z.compare_lt_iff; lia).
  - assert (D2 : Zdigits2 m2 = 24).
    { assert (Zdigits2 m2 <= 24) by (apply Zdigits2_le; cbn; lia).
      assert (23 < Zdigits2 m2) by (apply Zdigits2_gt; cbn; lia).
      lia. }
    rewrite D2.
    replace (Z.max 0 (fexp32 (24 + e1) - e1)) with 0
      by (unfold fexp32; lia).
    rewrite Z.div_1_r, Z.add_0_r.
    destruct (to_pos m2) as [p ->]; [lia|]. unfold pack.
    destruct (e1 <=? 104); [|reflexivity].
    cbn [SFcompare]. destruct (Z.compare_spec ec e1); try lia.
    rewrite compare_cont_Z.
    destruct (Z.compare_spec 8388608 (Zpos p)); try reflexivity. lia.
Qed.

(** Adding a number that is zero or above to a power of two does not go
    below the power of two. *)
Lemma add_pow2_le (ec : Z) (y : float) :
  -149 <= ec ->
  nonneg y = true ->
  F32.leb (S754_finite false 8388608 ec)
    (F32.add (S754_finite false 8388608 ec) y) = true.
Proof.
  intros EC N. unfold F32.leb, SFleb, F32.add.
  destruct y as [s|s| |s my ey]; cbn [nonneg] in N; try discriminate.
  - cbn [SFadd SFcompare]. now rewrite Z.compare_refl.
  - apply negb_true_iff in N. now subst s.
  - apply negb_true_iff in N. subst s. unfold SFadd.
    set (ez := Z.min ec ey). cbn [cond_Zopp].
    destruct (shl_align_spec 8388608 ec ez) as [A _]; [lia|].
    destruct (shl_align_spec my ey ez) as [B _]; [lia|].
    assert (PA : 0 < 2 ^ (ec - ez)) by (apply Z.pow_pos_nonneg; lia).
    assert (PB : 0 < 2 ^ (ey - ez)) by (apply Z.pow_pos_nonneg; lia).
    rewrite <- Pos2Z.inj_add.
    set (s := (fst (shl_align 8388608 ec ez) + fst (shl_align my ey ez))%positive).
    assert (S : 2 ^ (23 + (ec - ez)) <= Zpos s).
    { unfold s. rewrite Pos2Z.inj_add, A, B, Z.pow_add_r by lia.
      change (2 ^ 23) with 8388608. nia. }
    assert (D : 23 + (ec - ez) < Zdigits2 (Zpos s))
      by (apply Zdigits2_gt; [lia|exact S]).
    cbn [binary_normalize]. unfold binary_round. rewrite fexp_eq.
    change (Zpos (digits2_pos s)) with (Zdigits2 (Zpos s)).
    assert (F : fexp32 (Zdigits2 (Zpos s) + ez)
                = Zdigits2 (Zpos s) + ez - 24) by (unfold fexp32; lia).
    rewrite F. unfold shl_align.
    destruct (Zdigits2 (Zpos s) + ez - 24 - ez) as [|d|d] eqn:K; try lia.
    all: destruct (binary_round_aux_spec false (Zpos s) ez loc_Exact)
      as (m2 & R & _ & E); [lia|]; cbv zeta in E; rewrite E; clear E.
    all: rewrite F in *.
    all: replace (Z.max 0 (Zdigits2 (Zpos s) + ez - 24 - ez))
      with (Zdigits2 (Zpos s) - 24) in * by lia.
    all: pose proof (div_pow_digits (Zpos s) eq_refl) as Q.
    all: apply round_tail_ge; lia.
Qed.

Lemma binary_normalize_nonneg (z e : Z) :
  0 <= z -> nonneg (binary_normalize F32.prec F32.emax z e false) = true.
Proof.
  destruct z as [|p|p]; try lia; intros _; cbn [binary_normalize].
  - reflexivity.
  - apply binary_round_nonneg.
Qed.

(** [20 - s] is zero or above for a strength [s] that is at most 20. *)
Lemma sub_twenty_nonneg (s : float) :
  F32.valid s = true ->
  F32.leb s F32.twenty = true ->
  nonneg (F32.sub F32.twenty s) = true.
Proof.
  fold_constants. unfold F32.valid, F32.leb, SFleb, F32.sub.
  destruct s as [ss|ss| |ss ms es]; cbn [valid_binary SFcompare];
    try discriminate.
  - reflexivity.
  - destruct ss; [reflexivity|discriminate].
  - intros B L. destruct (bounded_spec ms es B) as [Can _].
    unfold SFsub. apply binary_normalize_nonneg.
    set (ez := Z.min (-19) es).
    destruct (shl_align_spec 10485760 (-19) ez) as [A _]; [lia|].
    destruct (shl_align_spec ms es ez) as [B' _]; [lia|].
    rewrite A, B'. cbn [cond_Zopp].
    assert (PA : 0 < 2 ^ (-19 - ez)) by (apply Z.pow_pos_nonneg; lia).
    assert (PB : 0 < 2 ^ (es - ez)) by (apply Z.pow_pos_nonneg; lia).
    destruct ss; cbn [cond_Zopp]; [nia|].
    destruct (Z.compare_spec es (-19)) as [E|E|E]; try discriminate.
    + replace ez with (-19) by lia. subst es.
      change (2 ^ (-19 - -19)) with 1.
      rewrite compare_cont_Z in L.
      destruct (Z.compare_spec (Zpos ms) 10485760); try discriminate; lia.
    + replace ez with es by lia. rewrite Z.sub_diag.
      change (2 ^ 0) with 1.
      assert (Zpos ms < 16777216).
      { destruct (Zdigits2_bounds (Zpos ms) eq_refl) as [_ U].
        assert (Zdigits2 (Zpos ms) <= 24) by (unfold fexp32 in Can; lia).
        assert (2 ^ Zdigits2 (Zpos ms) <= 2 ^ 24)
          by (apply Z.pow_le_mono_r; lia).
        change (2 ^ 24) with 16777216 in *. lia. }
      assert (2 ^ 1 <= 2 ^ (-19 - es)) by (apply Z.pow_le_mono_r; lia).
      change (2 ^ 1) with 2 in *. nia.
Qed.


Lemma pow2_pos (e : Z) : (0 < (2 # 1) ^ e)%Q.
Proof. apply Qpower_0_lt. reflexivity. Qed.

Lemma pow2_pred (e : Z) : ((2 # 1) ^ (e - 1) == (2 # 1) ^ e * (1 # 2))%Q.
Proof.
  unfold Z.sub. rewrite Qpower_plus by discriminate. reflexivity.
Qed.

(** Ratios of magnitudes, from the mantissas. *)
Lemma magnitude_same (a b : positive) (m' m : positive) (e : Z) :
  Zpos b * Zpos m' <= Zpos a * Zpos m ->
  (inject_Z (Zpos m') * (2 # 1) ^ e
   <= (Zpos a # b) * (inject_Z (Zpos m) * (2 # 1) ^ e))%Q.
Proof.
  intros L. rewrite Qmult_assoc.
  apply Qmult_le_compat_r; [|apply Qlt_le_weak, pow2_pos].
  unfold Qle. cbn. lia.
Qed.

Lemma magnitude_pred (a b : positive) (m' m : positive) (e : Z) :
  Zpos b * Zpos m' <= 2 * Zpos a * Zpos m ->
  (inject_Z (Zpos m') * (2 # 1) ^ (e - 1)
   <= (Zpos a # b) * (inject_Z (Zpos m) * (2 # 1) ^ e))%Q.
Proof.
  intros L. rewrite pow2_pred, !Qmult_assoc.
  rewrite <- (Qmult_assoc (inject_Z (Zpos m'))), (Qmult_comm (2 ^ e) (1 # 2)).
  rewrite Qmult_assoc.
  apply Qmult_le_compat_r; [|apply Qlt_le_weak, pow2_pos].
  unfold Qle. cbn. lia.
Qed.

Lemma magnitude_nonneg (x : float) : (0 <= magnitude x)%Q.
Proof.
  destruct x as [s|s| |s m e]; cbn [magnitude]; try apply Qle_refl.
  apply Qmult_le_0_compat; [|apply Qlt_le_weak, pow2_pos].
  unfold Qle. cbn. lia.
Qed.

(** Comparison of the magnitudes of two finite numbers. *)
Lemma leb_abs_finite (s s' : bool) (m m' : positive) (e e' : Z) :
  (e' < e \/ (e' = e /\ Zpos m' <= Zpos m)) ->
  F32.leb (F32.abs (S754_finite s' m' e')) (F32.abs (S754_finite s m e))
  = true.
Proof.
  unfold F32.leb, SFleb, F32.abs. cbn [SFabs SFcompare].
  intros [L|[-> L]].
  - now replace (e' ?= e) with Lt by (symmetry; apply Z.compare_lt_iff; lia).
  - rewrite Z.compare_refl.
    rewrite compare_cont_Z.
    destruct (Z.compare_spec (Zpos m') (Zpos m)); try reflexivity. lia.
Qed.

Lemma ltb_abs_finite (s s' : bool) (m m' : positive) (e e' : Z) :
  (e' < e \/ (e' = e /\ Zpos m' < Zpos m)) ->
  F32.ltb (F32.abs (S754_finite s' m' e')) (F32.abs (S754_finite s m e))
  = true.
Proof.
  unfold F32.ltb, SFltb, F32.abs. cbn [SFabs SFcompare].
  intros [L|[-> L]].
  - now replace (e' ?= e) with Lt by (symmetry; apply Z.compare_lt_iff; lia).
  - rewrite Z.compare_refl.
    rewrite compare_cont_Z.
    destruct (Z.compare_spec (Zpos m') (Zpos m)); try reflexivity; lia.
Qed.

(** Multiplying by a constant [mc * 2^-24] of [[0.5, 0.995]]. *)
Lemma mul_scale_shrinks (x : float) (mc a b : positive) :
  8388608 <= Zpos mc <= 16693330 ->
  (forall m m' : Z,
      8388608 <= m -> 16777216 * m' <= m * Zpos mc + 16777216 ->
      Zpos b * m' <= Zpos a * m) ->
  (forall m m' : Z,
      8388608 <= m -> 8388608 * m' <= m * Zpos mc + 8388608 ->
      Zpos b * m' <= 2 * Zpos a * m) ->
  sane x = true ->
  let r := F32.mul x (S754_finite false mc (-24)) in
  sane r = true
  /\ F32.leb (F32.abs r) (F32.abs x) = true
  /\ (normal x = true ->
      F32.ltb (F32.abs r) (F32.abs x) = true
      /\ (magnitude r <= (Zpos a # b) * magnitude x)%Q).
Proof.
  intros C H1 H2 S r. unfold sane in S.
  apply andb_prop in S. destruct S as [V N].
  destruct x as [s|s| |s m e]; try discriminate.
  - subst r. cbn. repeat split; discriminate.
  - subst r. cbn. repeat split; discriminate.
  - unfold F32.valid in V. cbn [valid_binary] in V.
    destruct (mul_scale s m mc e V C) as (V' & R). fold r in V', R.
    assert (PK : Zpos m * Zpos mc <= 16693330 * Zpos m) by nia.
    destruct R as [R|[(m' & R & L & G)|(m' & R & M & L & G)]]; rewrite R in *.
    + split; [reflexivity|]. split; [now destruct s|].
      intros _. split; [now destruct s|].
      cbn [magnitude]. apply Qmult_le_0_compat; [discriminate|].
      apply (magnitude_nonneg (S754_finite s m e)).
    + split; [unfold sane; now rewrite V'|].
      split; [apply leb_abs_finite; lia|].
      intros NX. cbn [normal] in NX. apply Z.eqb_eq in NX.
      destruct (digits2_pos_bounds m) as [ML _]. rewrite NX in ML.
      change (2 ^ (24 - 1)) with 8388608 in ML.
      split; [apply ltb_abs_finite; lia|].
      cbn [magnitude]. apply magnitude_same. now apply H1.
    + split; [unfold sane; now rewrite V'|].
      split; [apply leb_abs_finite; lia|].
      intros _. split; [apply ltb_abs_finite; lia|].
      cbn [magnitude]. apply magnitude_pred. now apply H2.
Qed.

(** The ratios 0.996 and 0.991 dominate [0.995f] and [0.99f] with the
    rounding unit on a mantissa of 24 bits. *)
Lemma scale_995 :
  (forall m m' : Z,
      8388608 <= m -> 16777216 * m' <= m * 16693330 + 16777216 ->
      1000 * m' <= 996 * m)
  /\ (forall m m' : Z,
         8388608 <= m -> 8388608 * m' <= m * 16693330 + 8388608 ->
         1000 * m' <= 2 * 996 * m).
Proof. split; intros; lia. Qed.

Lemma scale_99 :
  (forall m m' : Z,
      8388608 <= m -> 16777216 * m' <= m * 16609444 + 16777216 ->
      1000 * m' <= 991 * m)
  /\ (forall m m' : Z,
         8388608 <= m -> 8388608 * m' <= m * 16609444 + 8388608 ->
         1000 * m' <= 2 * 991 * m).
Proof. split; intros; lia. Qed.

(** Mantissas of 24 and 25 bits. *)
Lemma Zdigits2_24 (m : Z) : 8388608 <= m < 16777216 -> Zdigits2 m = 24.
Proof.
  intros R.
  assert (Zdigits2 m <= 24) by (apply Zdigits2_le; cbn; lia).
  assert (23 < Zdigits2 m) by (apply Zdigits2_gt; cbn; lia).
  lia.
Qed.

(** A number of 24 bits at an exponent at least -149 is not rounded. *)
Lemma binary_round_aux_24 (sx : bool) (p : positive) (e : Z) :
  8388608 <= Zpos p < 16777216 -> -149 <= e <= 104 ->
  binary_round_aux F32.prec F32.emax sx (Zpos p) e loc_Exact
  = S754_finite sx p e.
Proof.
  intros R E.
  destruct (binary_round_aux_spec sx (Zpos p) e loc_Exact)
    as (m2 & _ & X & ->); [lia|].
  rewrite (Zdigits2_24 _ R) in *.
  replace (Z.max 0 (fexp32 (24 + e) - e)) with 0 in *
    by (unfold fexp32; lia).
  rewrite (X eq_refl eq_refl), (Zdigits2_24 _ R), Z.add_0_r.
  replace (Z.max 0 (fexp32 (24 + e) - e)) with 0 by (unfold fexp32; lia).
  rewrite Z.div_1_r, Z.add_0_r. apply pack_pos. lia.
Qed.

(** A positive number of at most 24 bits is brought to 24 bits exactly. *)
Lemma binary_round_short (sx : bool) (p : positive) (e : Z) :
  Zpos p < 16777216 -> -125 <= e <= 104 ->
  exists mz ez,
    binary_round F32.prec F32.emax sx p e = S754_finite sx mz ez
    /\ 8388608 <= Zpos mz < 16777216
    /\ ez = Zdigits2 (Zpos p) + e - 24
    /\ Zpos mz = Zpos p * 2 ^ (24 - Zdigits2 (Zpos p)).
Proof.
  intros U E. unfold binary_round. rewrite fexp_eq.
  change (Zpos (digits2_pos p)) with (Zdigits2 (Zpos p)).
  set (d := Zdigits2 (Zpos p)).
  assert (D : 0 < d <= 24).
  { split; [apply Zdigits2_pos; lia|]. apply Zdigits2_le; cbn; lia. }
  assert (F : fexp32 (d + e) = d + e - 24) by (unfold fexp32; lia).
  rewrite F.
  destruct (shl_align_spec p e (d + e - 24)) as [M Z]; [lia|].
  destruct (shl_align p e (d + e - 24)) as [mz ez]. cbn [fst snd] in M, Z.
  subst ez. replace (e - (d + e - 24)) with (24 - d) in M by lia.
  destruct (Zdigits2_bounds (Zpos p) eq_refl) as [L U']. fold d in L, U'.
  assert (R : 8388608 <= Zpos mz < 16777216).
  { rewrite M. split.
    - change 8388608 with (2 ^ 23).
      replace 23 with (d - 1 + (24 - d)) by lia.
      rewrite Z.pow_add_r by lia.
      apply Z.mul_le_mono_nonneg_r; [apply Z.pow_nonneg; lia|exact L].
    - change 16777216 with (2 ^ 24).
      replace 24 with (d + (24 - d)) at 2 by lia.
      rewrite Z.pow_add_r by lia.
      apply Z.mul_lt_mono_pos_r; [apply Z.pow_pos_nonneg; lia|exact U']. }
  exists mz, (d + e - 24). rewrite binary_round_aux_24 by (try assumption; lia).
  auto.
Qed.

(** [20 - s] for a strength between 20 and 22.5: minus the exact difference,
    a number between 0 and 2.5 in magnitude. *)
Lemma sub_twenty_above (ms : positive) :
  10485760 < Zpos ms < 11796480 ->
  exists mz ez,
    F32.sub F32.twenty (S754_finite false ms (-19)) = S754_finite true mz ez
    /\ 8388608 <= Zpos mz < 16777216
    /\ -42 <= ez <= -22
    /\ (ez = -22 -> Zpos mz < 10485760).
Proof.
  intros R. fold_constants. unfold F32.sub, SFsub.
  change (Z.min (-19) (-19)) with (-19).
  change (shl_align 10485760 (-19) (-19)) with (10485760%positive, -19).
  change (shl_align ms (-19) (-19)) with (ms, -19).
  cbn [fst cond_Zopp].
  destruct (to_pos (Zpos ms - 10485760)) as [D HD]; [lia|].
  replace (10485760 - Zpos ms) with (Zneg D) by lia.
  cbn [binary_normalize].
  assert (UD : Zpos D < 1310720) by lia.
  destruct (binary_round_short true D (-19)) as (mz & ez & -> & RM & -> & M);
    [lia|lia|].
  set (d := Zdigits2 (Zpos D)) in *.
  assert (DD : 0 < d <= 21).
  { split; [apply Zdigits2_pos; lia|].
    apply Zdigits2_le; [lia|]. change (2 ^ 21) with 2097152. lia. }
  exists mz, (d + -19 - 24). split; [reflexivity|]. split; [exact RM|].
  split; [lia|]. intros E. assert (d = 21) by lia.
  rewrite M. replace (24 - d) with 3 by lia. change (2 ^ 3) with 8. lia.
Qed.

Lemma Zdigits2_25 (m : Z) : 16777216 <= m < 33554432 -> Zdigits2 m = 25.
Proof.
  intros R.
  assert (Zdigits2 m <= 25) by (apply Zdigits2_le; cbn; lia).
  assert (24 < Zdigits2 m) by (apply Zdigits2_gt; cbn; lia).
  lia.
Qed.

(** A fifth of a number below 2.5 in magnitude is below one half. *)
Lemma div_five_below_half (mz : positive) (ez : Z) :
  8388608 <= Zpos mz < 16777216 ->
  -42 <= ez <= -22 ->
  (ez = -22 -> Zpos mz < 10485760) ->
  exists m3 e3,
    F32.div (S754_finite true mz ez) F32.five = S754_finite true m3 e3
    /\ 8388608 <= Zpos m3 < 16777216
    /\ -45 <= e3 <= -25.
Proof.
  intros R E T. fold_constants. unfold F32.div, SFdiv, SFdiv_core_binary.
  rewrite fexp_eq, (Zdigits2_24 _ R).
  change (Zdigits2 (Zpos 10485760)) with 24. cbn [xorb].
  replace (Z.min (fexp32 (24 + ez - (24 + -21))) (ez - -21)) with (ez - 3)
    by (unfold fexp32; lia).
  replace (ez - -21 - (ez - 3)) with 24 by lia.
  rewrite Z.shiftl_mul_pow2 by lia. change (2 ^ 24) with 16777216.
  pose proof (Z_div_mod (Zpos mz * 16777216) 10485760 eq_refl) as Q.
  destruct (Z.div_eucl (Zpos mz * 16777216) 10485760) as [q0 r0].
  destruct Q as [Q RR].
  assert (Q0 : 13421772 <= q0 < 26843546) by lia.
  destruct (binary_round_aux_spec true q0 (ez - 3)
              (new_location 10485760 r0)) as (m2 & B & _ & ->); [lia|].
  destruct (Z_lt_le_dec q0 16777216) as [S|S].
  - (* the quotient has 24 bits *)
    rewrite (Zdigits2_24 q0) in * by lia.
    replace (Z.max 0 (fexp32 (24 + (ez - 3)) - (ez - 3))) with 0 in *
      by (unfold fexp32; lia).
    rewrite Z.div_1_r in B. rewrite Z.add_0_r.
    destruct (Z.eq_dec m2 16777216) as [->|N].
    + change (Zdigits2 16777216) with 25.
      replace (Z.max 0 (fexp32 (25 + (ez - 3)) - (ez - 3))) with 1
        by (unfold fexp32; lia).
      change (16777216 / 2 ^ 1) with (Zpos 8388608).
      rewrite pack_pos by lia.
      exists 8388608%positive, (ez - 3 + 1). repeat split; lia.
    + rewrite (Zdigits2_24 m2) by lia.
      replace (Z.max 0 (fexp32 (24 + (ez - 3)) - (ez - 3))) with 0
        by (unfold fexp32; lia).
      rewrite Z.div_1_r, Z.add_0_r.
      destruct (to_pos m2) as [p ->]; [lia|]. rewrite pack_pos by lia.
      exists p, (ez - 3). repeat split; lia.
  - (* the quotient has 25 bits *)
    rewrite (Zdigits2_25 q0) in * by lia.
    replace (Z.max 0 (fexp32 (25 + (ez - 3)) - (ez - 3))) with 1 in *
      by (unfold fexp32; lia).
    change (2 ^ 1) with 2 in B.
    assert (B' : 8388608 <= m2 < 16777216) by dlia.
    rewrite (Zdigits2_24 m2) by lia.
    replace (Z.max 0 (fexp32 (24 + (ez - 3 + 1)) - (ez - 3 + 1))) with 0
      by (unfold fexp32; lia).
    rewrite Z.div_1_r, Z.add_0_r.
    destruct (to_pos m2) as [p ->]; [lia|]. rewrite pack_pos by lia.
    exists p, (ez - 3 + 1). repeat split; lia.
Qed.

Lemma leb_pow2_positive (ec : Z) (r : float) :
  SFleb (S754_finite false 8388608 ec) r = true -> positive_float r = true.
Proof.
  unfold SFleb.
  destruct r as [s|s| |s m e]; cbn; try discriminate;
    destruct s; try discriminate; reflexivity.
Qed.

Lemma negated_positive (r : float) :
  positive_float r = true ->
  F32.ltb (F32.opp r) F32.zero = true
  /\ F32.gtb (F32.opp r) F32.zero = false
  /\ F32.eqb (F32.opp r) F32.zero = false.
Proof.
  destruct r as [s|s| |s m e]; cbn; try discriminate;
    destruct s; try discriminate; auto.
Qed.

(** Rounding a positive integer at an exponent in the normal range gives a
    number above zero. *)
Lemma binary_round_positive (p : positive) (e : Z) :
  -125 <= e <= 104 ->
  positive_float (binary_round F32.prec F32.emax false p e) = true.
Proof.
  intros E. destruct (Z_lt_le_dec (Zpos p) 16777216) as [S|S].
  - destruct (binary_round_short false p e S E) as (mz & ez & -> & _).
    reflexivity.
  - unfold binary_round. rewrite fexp_eq.
    change (Zpos (digits2_pos p)) with (Zdigits2 (Zpos p)).
    assert (D : 24 < Zdigits2 (Zpos p)) by (apply Zdigits2_gt; cbn; lia).
    assert (F : fexp32 (Zdigits2 (Zpos p) + e) = Zdigits2 (Zpos p) + e - 24)
      by (unfold fexp32; lia).
    rewrite F. unfold shl_align.
    destruct (Zdigits2 (Zpos p) + e - 24 - e) as [|d|d] eqn:K; try lia.
    destruct (binary_round_aux_spec false (Zpos p) e loc_Exact)
      as (m2 & R & _ & ->); [lia|].
    rewrite F in *.
    replace (Z.max 0 (Zdigits2 (Zpos p) + e - 24 - e))
      with (Zdigits2 (Zpos p) - 24) in * by lia.
    pose proof (div_pow_digits (Zpos p) eq_refl) as Q.
    apply (leb_pow2_positive (e + (Zdigits2 (Zpos p) - 24))).
    apply round_tail_ge; lia.
Qed.

(** One half plus a negative number of magnitude below one half is above
    zero. *)
Lemma add_half_small_negative (m3 : positive) (e3 : Z) :
  Zpos m3 < 16777216 ->
  -45 <= e3 <= -25 ->
  positive_float (F32.add F32.half (S754_finite true m3 e3)) = true.
Proof.
  intros R E. unfold F32.add, F32.half, SFadd.
  replace (Z.min (-24) e3) with e3 by lia.
  destruct (shl_align_spec 8388608 (-24) e3) as [A _]; [lia|].
  destruct (shl_align_spec m3 e3 e3) as [B _]; [lia|].
  rewrite A, B, Z.sub_diag, Z.mul_1_r. cbn [cond_Zopp].
  assert (2 ^ 1 <= 2 ^ (-24 - e3)) by (apply Z.pow_le_mono_r; lia).
  change (2 ^ 1) with 2 in *.
  destruct (to_pos (8388608 * 2 ^ (-24 - e3) + - Zpos m3)) as [p ->];
    [lia|].
  cbn [binary_normalize]. apply binary_round_positive. lia.
Qed.

(** A strength above 20 and below 22.5 has the exponent of 20. *)
Lemma strength_above_twenty (s : float) :
  F32.leb s F32.twenty = false ->
  F32.ltb s strength_bound = true ->
  exists ms,
    s = S754_finite false ms (-19) /\ 10485760 < Zpos ms < 11796480.
Proof.
  fold_constants. unfold F32.leb, SFleb, F32.ltb, SFltb, strength_bound.
  destruct s as [ss|ss| |ss ms es]; try destruct ss; cbn [SFcompare];
    try discriminate.
  rewrite !compare_cont_Z.
  destruct (Z.compare_spec es (-19)) as [->|L|L]; try discriminate.
  destruct (Z.compare_spec (Zpos ms) 10485760); try discriminate.
  destruct (Z.compare_spec (Zpos ms) 11796480); try discriminate.
  intros _ _. exists ms. split; [reflexivity|lia].
Qed.

(** ** The disable gate *)

Section Properties.

Variable sign : float -> Z.
Variable rate_limitf : float -> float -> float -> float.

Local Abbreviation update := (brake_tilt_update sign rate_limitf).
Local Abbreviation divisions :=
  (brake_tilt_update_divisions sign rate_limitf).
Local Abbreviation tick_update := (tick_update sign rate_limitf).
Local Abbreviation run := (run sign rate_limitf).
Local Abbreviation reachable := (reachable sign rate_limitf).

Lemma tick_update_eq bt tk :
  tick_update bt tk
  = fst (brake_tilt_update_logged sign rate_limitf bt (tk_motor tk)
           (tk_atr tk) (tk_config tk) (tk_balance_offset tk) (tk_imu tk)
           (tk_dt tk) (tk_wheelslip tk)).
Proof. reflexivity. Qed.

Lemma disable_gate_spec atr config wheelslip :
  disable_gate atr config wheelslip =
  wheelslip
  || F32.gtb (F32.abs (accel_diff atr)) (incline_threshold_default config).
Proof.
  unfold disable_gate. cbv zeta. rewrite gtb_abs.
  now rewrite orb_assoc.
Qed.

Lemma update_gated bt motor atr config balance_offset imu dt wheelslip :
  disable_gate atr config wheelslip = true ->
  brake_tilt_update_logged sign rate_limitf bt motor atr config
    balance_offset imu dt wheelslip = (disable bt, []).
Proof.
  intros G. unfold brake_tilt_update_logged. now rewrite G.
Qed.

(** C1: when [wheelslip] is true or [|accel_diff|] exceeds the default
    incline threshold, the call only zeroes the target and, if hold-tilt was
    active, deactivates it with a zero counter; it returns at once: the
    setpoint, the pitch timer, the recorded pitch, the pitch-drop latch and
    all the other fields keep their values and no division is evaluated. *)
Theorem update_disable_gate bt motor atr config balance_offset imu dt
        wheelslip :
  wheelslip = true
  \/ F32.gtb (F32.abs (accel_diff atr)) (incline_threshold_default config)
     = true ->
  let bt' := update bt motor atr config balance_offset imu dt wheelslip in
  target bt' = F32.zero
  /\ hold_tilt_active bt' = false
  /\ (hold_tilt_active bt = true -> hold_counter bt' = 0)
  /\ (hold_tilt_active bt = false -> hold_counter bt' = hold_counter bt)
  /\ setpoint bt' = setpoint bt
  /\ pitch_timer bt' = pitch_timer bt
  /\ pitch_at_trigger bt' = pitch_at_trigger bt
  /\ hold_tilt_pitch_drop_detected bt' = hold_tilt_pitch_drop_detected bt
  /\ factor bt' = factor bt
  /\ hold_tilt_value bt' = hold_tilt_value bt
  /\ divisions bt motor atr config balance_offset imu dt wheelslip = [].
Proof.
  intros H.
  assert (G : disable_gate atr config wheelslip = true).
  { rewrite disable_gate_spec. destruct H as [-> | ->];
      [reflexivity | apply orb_true_r]. }
  unfold brake_tilt_update, brake_tilt_update_divisions.
  rewrite (update_gated _ _ _ _ _ _ _ _ G). cbn [fst snd].
  destruct bt as [f t s a v c pt pa d]; unfold disable; cbn.
  destruct a; cbn; repeat split; intros; congruence.
Qed.

(** ** Effect of each step on the hold-tilt fields *)

Lemma set_target_same bt : set_target (target bt) bt = bt.
Proof. now destruct bt. Qed.

Lemma bind_fst {A B} (m : Logged A) (k : A -> Logged B) :
  fst (bind m k) = fst (k (fst m)).
Proof. destruct m as [a l]; cbn. now destruct (k a). Qed.

Lemma bind_snd {A B} (m : Logged A) (k : A -> Logged B) :
  snd (bind m k) = snd m ++ snd (k (fst m)).
Proof. destruct m as [a l]; cbn. now destruct (k a). Qed.

(** Lines 77-96 assign [target] only. *)
Lemma brake_tilt_target_frame bt motor atr balance_offset :
  exists t,
    fst (brake_tilt_target sign bt motor atr balance_offset)
    = set_target t bt.
Proof.
  unfold brake_tilt_target.
  destruct (braking_condition bt motor); [|now eexists].
  destruct (negb _); [|exists (target bt); now rewrite set_target_same].
  rewrite !bind_fst. cbn [fdiv fst].
  destruct (F32.gtb _ _); cbn [ret fst]; now eexists.
Qed.

(** After line 124 the pitch-drop latch is always clear. *)
Lemma trigger_window_latch bt config imu dt wheelslip :
  hold_tilt_pitch_drop_detected
    (hold_tilt_trigger (pitch_drop_window bt config imu dt wheelslip)
       config) = 0.
Proof.
  unfold hold_tilt_trigger, pitch_drop_window, monitoring.
  destruct bt as [f t s a v c pt pa d]; cbn.
  destruct a; cbn; [reflexivity|].
  destruct (F32.gtb (F32.abs t) _), wheelslip; cbn; try reflexivity.
  destruct (F32.leb pt F32.zero); cbn; [reflexivity|].
  destruct (F32.gtb (F32.sub pa (pitch imu)) _); cbn; [reflexivity|].
  destruct (d =? 0) eqn:E; cbn; [now apply Z.eqb_eq | reflexivity].
Qed.

(** Lines 99-124 keep an active hold-tilt as it is; from an inactive one
    they either leave the two hold-tilt fields alone or load the counter
    with the configured timeout. *)
Lemma trigger_window_hold bt config imu dt wheelslip :
  let b := hold_tilt_trigger (pitch_drop_window bt config imu dt wheelslip)
             config in
  (hold_tilt_active b = hold_tilt_active bt
   /\ hold_counter b = hold_counter bt
   /\ hold_tilt_value b = hold_tilt_value bt)
  \/ (hold_tilt_active bt = false
      /\ hold_tilt_active b = true
      /\ hold_counter b = hold_tilt_timeout config
      /\ hold_tilt_value b = hold_tilt_angle config).
Proof.
  unfold hold_tilt_trigger, pitch_drop_window, monitoring.
  destruct bt as [f t s a v c pt pa d]; cbn.
  destruct a; cbn; [now left|].
  destruct (F32.gtb (F32.abs t) _), wheelslip; cbn; try now left.
  destruct (F32.leb pt F32.zero); cbn; [now left|].
  destruct (F32.gtb (F32.sub pa (pitch imu)) _); cbn; [now right|].
  destruct (d =? 0); cbn; [now left | now right].
Qed.

Lemma tick_detect_eq bt tk :
  exists t,
    tick_detect sign bt tk
    = hold_tilt_trigger
        (pitch_drop_window (set_target t bt) (tk_config tk) (tk_imu tk)
           (tk_dt tk) (tk_wheelslip tk))
        (tk_config tk).
Proof.
  unfold tick_detect, update_detect. rewrite bind_fst. cbn [ret fst].
  destruct (brake_tilt_target_frame bt (tk_motor tk) (tk_atr tk)
              (tk_balance_offset tk)) as [t ->].
  now exists t.
Qed.

Lemma tick_detect_latch bt tk :
  hold_tilt_pitch_drop_detected (tick_detect sign bt tk) = 0.
Proof.
  destruct (tick_detect_eq bt tk) as [t ->]. apply trigger_window_latch.
Qed.

Lemma tick_detect_hold bt tk :
  let b := tick_detect sign bt tk in
  (hold_tilt_active b = hold_tilt_active bt
   /\ hold_counter b = hold_counter bt
   /\ hold_tilt_value b = hold_tilt_value bt)
  \/ (hold_tilt_active bt = false
      /\ hold_tilt_active b = true
      /\ hold_counter b = hold_tilt_timeout (tk_config tk)
      /\ hold_tilt_value b = hold_tilt_angle (tk_config tk)).
Proof.
  destruct (tick_detect_eq bt tk) as [t E]. cbv zeta. rewrite E.
  apply (trigger_window_hold (set_target t bt)).
Qed.

(** The three ways a tick can go. *)
Lemma tick_update_cases bt tk :
  (passes_gate tk = false /\ tick_update bt tk = disable bt)
  \/ (holds sign bt tk = true
      /\ tick_update bt tk
         = hold_tilt_behavior (tick_detect sign bt tk) (tk_imu tk))
  \/ (passes_gate tk = true
      /\ hold_tilt_active (tick_detect sign bt tk) = false
      /\ exists sp,
           tick_update bt tk = set_setpoint sp (tick_detect sign bt tk)).
Proof.
  unfold holds, passes_gate, tick_update, tick_detect, brake_tilt_update,
    brake_tilt_update_logged.
  destruct (disable_gate _ _ _); cbn [negb andb]; [now left|right].
  rewrite bind_fst.
  destruct (hold_tilt_active (fst (update_detect _ _ _ _ _ _ _ _ _)));
    [now left|right].
  repeat split. unfold brake_tilt_step. rewrite bind_fst. cbn [ret fst].
  now eexists.
Qed.

Lemma hold_tilt_behavior_hold bt imu :
  let c := int_wrap (hold_counter bt - 1) in
  let b := hold_tilt_behavior bt imu in
  hold_tilt_pitch_drop_detected b = hold_tilt_pitch_drop_detected bt
  /\ hold_tilt_value b = hold_tilt_value bt
  /\ ((c <= 0 /\ hold_tilt_active b = false /\ hold_counter b = 0)
      \/ (0 < c /\ hold_tilt_active b = hold_tilt_active bt
          /\ hold_counter b = c)).
Proof.
  unfold hold_tilt_behavior. destruct bt as [f t s a v c pt pa d]; cbn.
  destruct (F32.ltb (balance_pitch imu) v); cbn;
    destruct (Z.leb_spec (int_wrap (c - 1)) 0); cbn; auto 6.
Qed.

Lemma disable_hold bt :
  hold_tilt_active (disable bt) = false
  /\ (hold_counter (disable bt) = 0
      \/ (hold_tilt_active bt = false
          /\ hold_counter (disable bt) = hold_counter bt))
  /\ hold_tilt_pitch_drop_detected (disable bt)
     = hold_tilt_pitch_drop_detected bt.
Proof.
  unfold disable. destruct bt as [f t s a v c pt pa d]; cbn.
  destruct a; cbn; auto.
Qed.

Lemma winddown_hold bt :
  hold_tilt_active (brake_tilt_winddown bt) = false
  /\ (hold_counter (brake_tilt_winddown bt) = 0
      \/ (hold_tilt_active bt = false
          /\ hold_counter (brake_tilt_winddown bt) = hold_counter bt))
  /\ hold_tilt_pitch_drop_detected (brake_tilt_winddown bt)
     = hold_tilt_pitch_drop_detected bt.
Proof.
  unfold brake_tilt_winddown. destruct bt as [f t s a v c pt pa d]; cbn.
  destruct a; cbn; auto.
Qed.

Lemma configure_frame bt config :
  exists f, brake_tilt_configure bt config = set_factor f bt.
Proof.
  unfold brake_tilt_configure. destruct (F32.eqb _ _); now eexists.
Qed.

Lemma int_wrap_small z : INT_MIN <= z <= INT_MAX -> int_wrap z = z.
Proof.
  unfold INT_MIN, INT_MAX, int_wrap. intros H.
  rewrite Z.mod_small; lia.
Qed.

(** ** The pitch-drop latch *)

Lemma reachable_latch bt :
  reachable bt -> hold_tilt_pitch_drop_detected bt = 0.
Proof.
  induction 1 as [bt|bt _ _|bt config _ IH|bt tk _ IH|bt _ IH].
  - reflexivity.
  - reflexivity.
  - destruct (configure_frame bt config) as [f ->]. exact IH.
  - destruct (tick_update_cases bt tk)
      as [[_ ->]|[[_ ->]|(_ & _ & sp & ->)]].
    + now rewrite (proj2 (proj2 (disable_hold bt))).
    + rewrite (proj1 (hold_tilt_behavior_hold _ _)).
      apply tick_detect_latch.
    + cbn. apply tick_detect_latch.
  - now rewrite (proj2 (proj2 (winddown_hold bt))).
Qed.

(** ** Hold-tilt inactive implies a zero counter *)

(** The hold-tilt fields after a tick, from the fields before. *)
Lemma tick_update_hold bt tk :
  let bt' := tick_update bt tk in
  (hold_tilt_active bt' = false /\ hold_counter bt' = 0)
  \/ (hold_tilt_active bt' = hold_tilt_active bt
      /\ hold_counter bt' = hold_counter bt)
  \/ (hold_tilt_active bt = true /\ hold_tilt_active bt' = true
      /\ hold_counter bt' = int_wrap (hold_counter bt - 1)
      /\ 0 < hold_counter bt')
  \/ (hold_tilt_active bt = false /\ hold_tilt_active bt' = true
      /\ hold_counter bt' = int_wrap (hold_tilt_timeout (tk_config tk) - 1)
      /\ 0 < hold_counter bt').
Proof.
  cbv zeta.
  destruct (tick_update_cases bt tk)
    as [[_ ->]|[[H ->]|(_ & A & sp & ->)]].
  - destruct (disable_hold bt) as (A & [C|[A' C]] & _); auto.
    right; left. split; congruence.
  - apply andb_prop in H. destruct H as [_ H].
    destruct (hold_tilt_behavior_hold (tick_detect sign bt tk) (tk_imu tk))
      as (_ & _ & [(_ & A & C)|(P & A & C)]); [auto|].
    rewrite A, C, H. rewrite <- C.
    destruct (tick_detect_hold bt tk)
      as [(A' & C' & _)|(A0 & A' & C' & _)].
    + right; right; left. rewrite C at 2. rewrite C'.
      repeat split; congruence.
    + right; right; right. rewrite C at 2. rewrite C'.
      repeat split; congruence.
  - cbn. destruct (tick_detect_hold bt tk)
      as [(A' & C' & _)|(A0 & A' & _)]; [|congruence].
    right; left. auto.
Qed.

Lemma reachable_hold_inv bt : reachable bt -> hold_inv bt.
Proof.
  unfold hold_inv.
  induction 1 as [bt|bt _ _|bt config _ IH|bt tk _ IH|bt _ IH]; intros A.
  - reflexivity.
  - reflexivity.
  - destruct (configure_frame bt config) as [f E]. rewrite E in *.
    now apply IH.
  - destruct (tick_update_hold bt tk)
      as [[_ C]|[[A' C]|[(_ & A' & _)|(_ & A' & _)]]];
      try congruence.
    rewrite C. apply IH. congruence.
  - destruct (winddown_hold bt) as (_ & [C|[A' C]] & _); [exact C|].
    rewrite C. now apply IH.
Qed.

(** C10: "hold-tilt inactive implies [hold_counter = 0]" holds after
    [brake_tilt_init] and [brake_tilt_reset] and is preserved by
    [brake_tilt_update] and [brake_tilt_winddown]; a call that turns
    hold-tilt off leaves the counter at 0, and a call that makes a zero
    counter nonzero is one that turns hold-tilt on. *)
Theorem hold_inactive_zero_counter :
  (forall bt, hold_inv (brake_tilt_init bt))
  /\ (forall bt, hold_inv (brake_tilt_reset bt))
  /\ (forall bt tk, hold_inv bt -> hold_inv (tick_update bt tk))
  /\ (forall bt, hold_inv bt -> hold_inv (brake_tilt_winddown bt))
  /\ (forall bt tk,
        hold_tilt_active bt = true ->
        hold_tilt_active (tick_update bt tk) = false ->
        hold_counter (tick_update bt tk) = 0)
  /\ (forall bt,
        hold_tilt_active bt = true ->
        hold_tilt_active (brake_tilt_winddown bt) = false
        /\ hold_counter (brake_tilt_winddown bt) = 0)
  /\ (forall bt tk,
        hold_counter bt = 0 ->
        hold_counter (tick_update bt tk) <> 0 ->
        hold_tilt_active bt = false
        /\ hold_tilt_active (tick_update bt tk) = true)
  /\ (forall bt,
        hold_counter bt = 0 -> hold_counter (brake_tilt_winddown bt) = 0).
Proof.
  unfold hold_inv.
  refine (conj _ (conj _ (conj _ (conj _ (conj _ (conj _ (conj _ _))))))).
  - reflexivity.
  - reflexivity.
  - intros bt tk I A'.
    destruct (tick_update_hold bt tk)
      as [[_ C]|[[A C]|[(_ & A & _)|(_ & A & _)]]];
      try congruence.
    rewrite C. apply I. congruence.
  - intros bt I _.
    destruct (winddown_hold bt) as (_ & [C|[A C]] & _); [exact C|].
    rewrite C. now apply I.
  - intros bt tk A A'.
    destruct (tick_update_hold bt tk)
      as [[_ C]|[[A1 C]|[(_ & A1 & _)|(_ & A1 & _)]]];
      congruence.
  - intros bt A. destruct (winddown_hold bt) as (A' & [C|[A0 C]] & _).
    + now split.
    + congruence.
  - intros bt tk C0 N.
    destruct (tick_update_hold bt tk)
      as [[_ C]|[[A1 C]|[(A0 & A1 & C & P)|(A0 & A1 & _)]]];
      try congruence.
    + exfalso. rewrite C, C0 in P. revert P. now vm_compute.
    + now split.
  - intros bt C0.
    destruct (winddown_hold bt) as (_ & [C|[A C]] & _); congruence.
Qed.

(** ** Duration of hold-tilt *)

(** A tick that executes the hold-tilt behaviour with a counter [c] in
    [1 .. INT_MAX] at line 125 leaves [c - 1]. *)
Lemma holds_decrements bt tk c :
  holds sign bt tk = true ->
  hold_counter (tick_detect sign bt tk) = c ->
  1 <= c <= INT_MAX ->
  hold_counter (tick_update bt tk) = c - 1
  /\ hold_tilt_active (tick_update bt tk) = (0 <? c - 1).
Proof.
  intros H C R.
  destruct (tick_update_cases bt tk)
    as [[G _]|[[_ ->]|(_ & A & _)]].
  - unfold holds in H. rewrite G in H. discriminate.
  - apply andb_prop in H. destruct H as [_ A].
    destruct (hold_tilt_behavior_hold (tick_detect sign bt tk) (tk_imu tk))
      as (_ & _ & W).
    rewrite C, int_wrap_small in W by (unfold INT_MIN, INT_MAX in *; lia).
    destruct W as [(P & -> & ->)|(P & -> & ->)].
    + split; [lia|]. symmetry. apply Z.ltb_ge. lia.
    + split; [lia|]. rewrite A. symmetry. now apply Z.ltb_lt.
  - apply andb_prop in H. destruct H as [_ A']. congruence.
Qed.

Lemma active_tick_holds bt tk :
  hold_tilt_active bt = true ->
  passes_gate tk = true ->
  holds sign bt tk = true
  /\ hold_counter (tick_detect sign bt tk) = hold_counter bt.
Proof.
  intros A G. unfold holds. rewrite G. cbn [andb].
  destruct (tick_detect_hold bt tk) as [(-> & -> & _)|(A0 & _)];
    [auto | congruence].
Qed.

Lemma hold_countdown tks : forall bt c,
  hold_counter bt = c ->
  hold_tilt_active bt = (0 <? c) ->
  0 <= c <= INT_MAX ->
  Forall (fun tk => passes_gate tk = true) tks ->
  Z.of_nat (length tks) <= c ->
  hold_counter (run bt tks) = c - Z.of_nat (length tks)
  /\ hold_tilt_active (run bt tks) = (0 <? c - Z.of_nat (length tks)).
Proof.
  induction tks as [|tk tks IH]; intros bt c C A R F L.
  - cbn. rewrite Z.sub_0_r. auto.
  - cbn [length] in *. rewrite Nat2Z.inj_succ in *.
    inversion F as [|? ? G F']; subst.
    assert (A1 : hold_tilt_active bt = true).
    { rewrite A. apply Z.ltb_lt. lia. }
    destruct (active_tick_holds bt tk A1 G) as [H C'].
    destruct (holds_decrements bt tk (hold_counter bt) H C') as [C1 A2];
      [lia|].
    change (run bt (tk :: tks)) with (run (tick_update bt tk) tks).
    destruct (IH (tick_update bt tk) (hold_counter bt - 1) C1 A2)
      as [C2 A3]; [lia|exact F'|lia|].
    rewrite C2, A3.
    split; [lia | f_equal; lia].
Qed.

Lemma reachable_counter_nonneg bt : reachable bt -> 0 <= hold_counter bt.
Proof.
  induction 1 as [bt|bt _ _|bt config _ IH|bt tk _ IH|bt _ IH].
  - cbn. lia.
  - cbn. lia.
  - destruct (configure_frame bt config) as [f ->]. exact IH.
  - destruct (tick_update_hold bt tk)
      as [[_ C]|[[_ C]|[(_ & _ & _ & P)|(_ & _ & _ & P)]]]; lia.
  - destruct (winddown_hold bt) as (_ & [C|[_ C]] & _); lia.
Qed.

(** C6 as amended: with a configured timeout [T >= 1], and as long as
    every tick passes the disable gate, the tick that activates hold-tilt
    and the ticks that follow it execute the hold-tilt behaviour and return
    from it, each decrementing the counter, for [T] ticks in all: after [k]
    of them the counter is [T - k] and hold-tilt is active as long as
    [k < T], so it is released by the [T]-th tick.  A tick on which the
    disable gate fires ends hold-tilt at once, with the counter at 0.  Over
    the life of the controller the counter is never negative. *)
Theorem hold_tilt_lasts_timeout :
  (forall bt tk0 tks T,
      1 <= T <= INT_MAX ->
      hold_tilt_timeout (tk_config tk0) = T ->
      activates sign bt tk0 = true ->
      Forall (fun tk => passes_gate tk = true) tks ->
      Z.of_nat (length tks) < T ->
      let k := 1 + Z.of_nat (length tks) in
      let bt' := run bt (tk0 :: tks) in
      holds sign bt tk0 = true
      /\ hold_counter bt' = T - k
      /\ hold_tilt_active bt' = (k <? T)
      /\ (forall tk,
            k < T -> passes_gate tk = true -> holds sign bt' tk = true))
  /\ (forall bt, reachable bt -> 0 <= hold_counter bt)
  /\ (forall bt tk,
        passes_gate tk = false ->
        hold_tilt_active (tick_update bt tk) = false
        /\ (hold_tilt_active bt = true ->
            hold_counter (tick_update bt tk) = 0)).
Proof.
  split; [|split; [exact reachable_counter_nonneg|]].
  2: { intros bt tk G.
       destruct (tick_update_cases bt tk)
         as [[_ ->]|[[G' _]|(G' & _)]].
       - destruct (disable_hold bt) as (A & [C|[A' C]] & _).
         + split; [exact A|]. intros _. exact C.
         + split; [exact A|]. congruence.
       - unfold holds in G'. rewrite G in G'. discriminate.
       - congruence. }
  intros bt tk0 tks T R E Act F L k bt'.
  unfold activates in Act.
  apply andb_prop in Act. destruct Act as [Act A'].
  apply andb_prop in Act. destruct Act as [G A0].
  apply negb_true_iff in A0.
  assert (H : holds sign bt tk0 = true).
  { unfold holds. now rewrite G, A'. }
  assert (C : hold_counter (tick_detect sign bt tk0) = T).
  { destruct (tick_detect_hold bt tk0) as [(A & _)|(_ & _ & C & _)];
      congruence. }
  destruct (holds_decrements bt tk0 T H C R) as [C1 A1].
  destruct (hold_countdown tks (tick_update bt tk0) (T - 1) C1 A1)
    as [C2 A2]; [unfold INT_MAX in *; lia | exact F | lia |].
  subst bt' k.
  change (run bt (tk0 :: tks)) with (run (tick_update bt tk0) tks).
  split; [exact H|]. split; [rewrite C2; lia|].
  assert (A3 : hold_tilt_active (run (tick_update bt tk0) tks)
               = (1 + Z.of_nat (length tks) <? T)).
  { rewrite A2. destruct (Z.ltb_spec 0 (T - 1 - Z.of_nat (length tks)));
      symmetry; [apply Z.ltb_lt | apply Z.ltb_ge]; lia. }
  split; [exact A3|].
  intros tk K G'. apply active_tick_holds; [|exact G'].
  rewrite A3. now apply Z.ltb_lt.
Qed.

(** ** The target of a tick *)

Lemma brake_tilt_target_eq bt tk :
  fst (brake_tilt_target sign bt (tk_motor tk) (tk_atr tk)
         (tk_balance_offset tk))
  = set_target (tick_target sign bt tk) bt.
Proof.
  unfold tick_target.
  destruct (brake_tilt_target_frame bt (tk_motor tk) (tk_atr tk)
              (tk_balance_offset tk)) as [t ->].
  reflexivity.
Qed.

Lemma tick_detect_unfold bt tk :
  tick_detect sign bt tk
  = hold_tilt_trigger
      (pitch_drop_window (set_target (tick_target sign bt tk) bt)
         (tk_config tk) (tk_imu tk) (tk_dt tk) (tk_wheelslip tk))
      (tk_config tk).
Proof.
  unfold tick_detect, update_detect. rewrite bind_fst. cbn [ret fst].
  now rewrite brake_tilt_target_eq.
Qed.

(** Lines 99-124 write neither [target], [setpoint] nor [factor]. *)
Lemma trigger_window_frame bt config imu dt wheelslip :
  let b := hold_tilt_trigger (pitch_drop_window bt config imu dt wheelslip)
             config in
  target b = target bt /\ setpoint b = setpoint bt
  /\ factor b = factor bt.
Proof.
  unfold hold_tilt_trigger, pitch_drop_window.
  destruct (monitoring bt config wheelslip).
  - destruct (F32.leb _ _).
    + cbn. destruct (negb (hold_tilt_active bt) && _); cbn; auto.
    + destruct (F32.gtb _ _); cbn;
        destruct (negb (hold_tilt_active bt) && _); cbn; auto.
  - cbn. destruct (negb (hold_tilt_active bt) && _); cbn; auto.
Qed.

Lemma tick_detect_frame bt tk :
  target (tick_detect sign bt tk) = tick_target sign bt tk
  /\ setpoint (tick_detect sign bt tk) = setpoint bt
  /\ factor (tick_detect sign bt tk) = factor bt.
Proof.
  rewrite tick_detect_unfold.
  apply (trigger_window_frame (set_target (tick_target sign bt tk) bt)).
Qed.

Lemma hold_tilt_behavior_target bt imu :
  target (hold_tilt_behavior bt imu) = target bt.
Proof.
  unfold hold_tilt_behavior. destruct bt as [f t s a v c pt pa d]; cbn.
  destruct (F32.ltb _ v); cbn; destruct (_ <=? 0); reflexivity.
Qed.

(** The target left by a tick that passes the gate is the one assigned by
    lines 77-96. *)
Lemma tick_update_target bt tk :
  passes_gate tk = true ->
  target (tick_update bt tk) = tick_target sign bt tk.
Proof.
  intros G.
  destruct (tick_update_cases bt tk)
    as [[G' _]|[[_ ->]|(_ & _ & sp & ->)]].
  - congruence.
  - rewrite hold_tilt_behavior_target. apply tick_detect_frame.
  - cbn. apply tick_detect_frame.
Qed.

Lemma disable_target bt : target (disable bt) = F32.zero.
Proof.
  unfold disable. destruct bt as [f t s a v c pt pa d]; cbn.
  now destruct a.
Qed.

(** C2 as amended: when the braking activation condition holds, the call
    leaves the target at 0 if the downhill damper is strictly greater than
    2.  If the damper is not greater than 2, and in particular if it is
    exactly 2, the call leaves the target at 0 when the disable gate fires,
    and otherwise at the balance offset divided by the factor and then by
    the damper. *)
Theorem steep_downhill_zero_target bt motor atr config balance_offset imu dt
        wheelslip :
  braking_condition bt motor = true ->
  sign balance_offset <> erpm_sign motor ->
  let d := fst (downhill_damper motor atr) in
  let bt' := update bt motor atr config balance_offset imu dt wheelslip in
  (F32.gtb d F32.two = true -> target bt' = F32.zero)
  /\ (F32.gtb d F32.two = false ->
      target bt'
      = if disable_gate atr config wheelslip then F32.zero
        else F32.div (F32.div balance_offset (factor bt)) d)
  /\ (d = F32.two ->
      target bt'
      = if disable_gate atr config wheelslip then F32.zero
        else F32.div (F32.div balance_offset (factor bt)) F32.two).
Proof.
  intros B S d bt'.
  pose (tk := mkTick motor atr config balance_offset imu dt wheelslip).
  assert (T : target bt'
              = if disable_gate atr config wheelslip then F32.zero
                else if F32.gtb d F32.two then F32.zero
                     else F32.div (F32.div balance_offset (factor bt)) d).
  { change (target bt') with (target (tick_update bt tk)).
    assert (G : passes_gate tk = negb (disable_gate atr config wheelslip))
      by reflexivity.
    destruct (disable_gate atr config wheelslip); cbn [negb] in G.
    2: { rewrite (tick_update_target bt tk G).
         unfold tick_target, brake_tilt_target; cbn [tk_motor tk_atr
           tk_balance_offset tk].
         rewrite B. apply Z.eqb_neq in S. rewrite S. cbn [negb].
         rewrite !bind_fst. cbn [fdiv fst]. fold d.
         now destruct (F32.gtb d F32.two). }
    destruct (tick_update_cases bt tk)
      as [[_ ->]|[[G' _]|(G' & _)]].
    - apply disable_target.
    - unfold holds in G'. rewrite G in G'. discriminate.
    - congruence. }
  assert (T2 : F32.gtb d F32.two = false ->
               target bt'
               = if disable_gate atr config wheelslip then F32.zero
                 else F32.div (F32.div balance_offset (factor bt)) d).
  { intros D. rewrite T, D. reflexivity. }
  split; [|split].
  - intros D. rewrite T, D. now destruct (disable_gate atr config wheelslip).
  - exact T2.
  - intros E. rewrite <- E. apply T2. rewrite E. reflexivity.
Qed.

(** ** The step of the rate limiter *)

Lemma tick_target_not_braking bt tk :
  braking_condition bt (tk_motor tk) = false ->
  tick_target sign bt tk = F32.zero.
Proof.
  intros B. unfold tick_target, brake_tilt_target. now rewrite B.
Qed.

Lemma slow_not_braking bt motor :
  F32.ltb (abs_erpm motor) F32.c800 = true ->
  braking_condition bt motor = false.
Proof.
  intros L. unfold braking_condition.
  rewrite (ltb_800_gtb_2000 _ L). apply andb_false_r.
Qed.

Lemma reaches_step_setpoint bt tk :
  reaches_step sign bt tk = true ->
  setpoint (tick_update bt tk)
  = rate_limitf (setpoint bt) (tick_target sign bt tk)
      (fst (braketilt_step_size (tick_detect sign bt tk) (tk_motor tk)
              (tk_atr tk) (tk_config tk))).
Proof.
  intros R. apply andb_prop in R. destruct R as [G A].
  apply negb_true_iff in A. apply negb_true_iff in G.
  destruct (tick_detect_frame bt tk) as (T & S & _).
  rewrite tick_update_eq. unfold brake_tilt_update_logged.
  rewrite G, bind_fst. fold (tick_detect sign bt tk). rewrite A.
  unfold brake_tilt_step. rewrite bind_fst. cbn [ret fst set_setpoint
    setpoint]. now rewrite T, S.
Qed.

Lemma slow_tick_step bt tk :
  F32.ltb (abs_erpm (tk_motor tk)) F32.c800 = true ->
  tick_target sign bt tk = F32.zero
  /\ fst (braketilt_step_size (tick_detect sign bt tk) (tk_motor tk)
            (tk_atr tk) (tk_config tk))
     = if F32.ltb (abs_erpm (tk_motor tk)) F32.c500
       then F32.div (on_step_size (tk_atr tk)) F32.two
       else on_step_size (tk_atr tk).
Proof.
  intros L.
  assert (T : tick_target sign bt tk = F32.zero).
  { apply tick_target_not_braking. now apply slow_not_braking. }
  split; [exact T|].
  destruct (tick_detect_frame bt tk) as (T' & _).
  unfold braketilt_step_size. rewrite bind_fst. cbn [fdiv fst].
  rewrite T', T, gtb_abs_zero, L.
  now destruct (F32.ltb _ F32.c500).
Qed.

(** Lines 142-150 taken alone: the test [|target| > |setpoint|] comes first
    and gives 1.5 times the "on" step at any speed. *)
Remark braketilt_step_size_rising bt motor atr config :
  F32.gtb (F32.abs (target bt)) (F32.abs (setpoint bt)) = true ->
  F32.ltb (abs_erpm motor) F32.c500 = false ->
  fst (braketilt_step_size bt motor atr config)
  = F32.mul (on_step_size atr) F32.one_half.
Proof.
  intros G L. unfold braketilt_step_size. rewrite bind_fst. cbn [fdiv fst].
  now rewrite G, L.
Qed.

(** C4: on a tick that reaches the rate limiter with an absolute ERPM below
    800 and not below 500, the step that moves the setpoint toward the target
    is the "on" step of the incline response, unscaled; the comparison
    [|target| > |setpoint|] has no say: at such a speed the braking condition
    of line 77 is false, line 95 has set the target of the tick to 0 and the
    comparison of line 143 is false, so that the case of
    [braketilt_step_size_rising] does not arise.  Below 500 the step is the
    "on" step halved. *)
Theorem slow_step_size bt tk :
  reaches_step sign bt tk = true ->
  let step :=
    fst (braketilt_step_size (tick_detect sign bt tk) (tk_motor tk)
           (tk_atr tk) (tk_config tk)) in
  setpoint (tick_update bt tk)
  = rate_limitf (setpoint bt) (tick_target sign bt tk) step
  /\ (F32.ltb (abs_erpm (tk_motor tk)) F32.c800 = true ->
      tick_target sign bt tk = F32.zero
      /\ F32.gtb (F32.abs (tick_target sign bt tk)) (F32.abs (setpoint bt))
         = false
      /\ (F32.ltb (abs_erpm (tk_motor tk)) F32.c500 = false ->
          step = on_step_size (tk_atr tk)))
  /\ (F32.ltb (abs_erpm (tk_motor tk)) F32.c500 = true ->
      step = F32.div (on_step_size (tk_atr tk)) F32.two).
Proof.
  intros R step.
  split; [now apply reaches_step_setpoint|]. split.
  - intros L. destruct (slow_tick_step bt tk L) as [T S].
    split; [exact T|]. split; [rewrite T; apply gtb_abs_zero|].
    subst step. rewrite S. now intros ->.
  - intros L5. pose proof (ltb_500_ltb_800 _ L5) as L.
    destruct (slow_tick_step bt tk L) as [T S].
    subst step. now rewrite S, L5.
Qed.

(** ** The pitch-drop window *)

Lemma watching_monitoring bt tk :
  watching sign bt tk = true ->
  passes_gate tk = true
  /\ hold_tilt_active bt = false
  /\ monitoring (set_target (tick_target sign bt tk) bt) (tk_config tk)
       (tk_wheelslip tk) = true.
Proof.
  unfold watching, monitoring. cbn [set_target hold_tilt_active target].
  intros W.
  apply andb_prop in W. destruct W as [W W3].
  apply andb_prop in W. destruct W as [W W2].
  apply andb_prop in W. destruct W as [W0 W1].
  rewrite W1, W2, W3. repeat split; auto. now apply negb_true_iff.
Qed.

(** A monitored tick without a window: the window opens. *)
Lemma watching_opens bt tk :
  watching sign bt tk = true ->
  window_open bt = false ->
  let bt' := tick_update bt tk in
  hold_tilt_active bt' = false
  /\ hold_tilt_pitch_drop_detected bt' = 0
  /\ pitch_at_trigger bt' = pitch (tk_imu tk)
  /\ pitch_timer bt' = hold_tilt_time_window (tk_config tk).
Proof.
  intros W O. destruct (watching_monitoring bt tk W) as (G & A & M).
  apply negb_false_iff in O.
  assert (D : tick_detect sign bt tk
              = set_pitch_drop_detected 0
                  (set_pitch_timer (hold_tilt_time_window (tk_config tk))
                     (set_pitch_at_trigger (pitch (tk_imu tk))
                        (set_target (tick_target sign bt tk) bt)))).
  { rewrite tick_detect_unfold. unfold pitch_drop_window. rewrite M.
    cbn [set_target pitch_timer]. rewrite O. cbv zeta.
    unfold hold_tilt_trigger. cbn. now rewrite A. }
  destruct (tick_update_cases bt tk)
    as [[G' _]|[[H _]|(_ & _ & sp & ->)]].
  - congruence.
  - apply andb_prop in H. destruct H as [_ H]. rewrite D in H. cbn in H.
    congruence.
  - rewrite D. cbn. auto.
Qed.

(** A monitored tick in an open window without a pitch drop: the timer
    runs on. *)
Lemma watching_waits bt tk :
  hold_tilt_pitch_drop_detected bt = 0 ->
  watching sign bt tk = true ->
  window_open bt = true ->
  pitch_dropped bt tk = false ->
  let bt' := tick_update bt tk in
  hold_tilt_active bt' = false
  /\ hold_tilt_pitch_drop_detected bt' = 0
  /\ pitch_at_trigger bt' = pitch_at_trigger bt
  /\ pitch_timer bt' = F32.sub (pitch_timer bt) (tk_dt tk).
Proof.
  intros L W O P. destruct (watching_monitoring bt tk W) as (G & A & M).
  apply negb_true_iff in O. unfold pitch_dropped in P.
  assert (D : tick_detect sign bt tk
              = set_pitch_timer (F32.sub (pitch_timer bt) (tk_dt tk))
                  (set_target (tick_target sign bt tk) bt)).
  { rewrite tick_detect_unfold. unfold pitch_drop_window. rewrite M.
    cbn [set_target pitch_timer pitch_at_trigger]. rewrite O, P. cbv zeta.
    unfold hold_tilt_trigger. cbn. now rewrite A, L. }
  destruct (tick_update_cases bt tk)
    as [[G' _]|[[H _]|(_ & _ & sp & ->)]].
  - congruence.
  - apply andb_prop in H. destruct H as [_ H]. rewrite D in H. cbn in H.
    congruence.
  - rewrite D. cbn. auto.
Qed.

(** A monitored tick in an open window with a pitch drop: lines 118-124 are
    executed. *)
Lemma watching_triggers bt tk :
  watching sign bt tk = true ->
  window_open bt = true ->
  pitch_dropped bt tk = true ->
  tick_detect sign bt tk
  = set_pitch_drop_detected 0
      (set_pitch_timer F32.zero
         (set_hold_counter (hold_tilt_timeout (tk_config tk))
            (set_hold_tilt_value (hold_tilt_angle (tk_config tk))
               (set_hold_tilt_active true
                  (set_pitch_timer (F32.sub (pitch_timer bt) (tk_dt tk))
                     (set_pitch_drop_detected 1
                        (set_target (tick_target sign bt tk) bt))))))).
Proof.
  intros W O P. destruct (watching_monitoring bt tk W) as (G & A & M).
  apply negb_true_iff in O. unfold pitch_dropped in P.
  rewrite tick_detect_unfold. unfold pitch_drop_window. rewrite M.
  cbn [set_target pitch_timer pitch_at_trigger]. rewrite O, P. cbv zeta.
  unfold hold_tilt_trigger. cbn. now rewrite A.
Qed.

Lemma quiet_run tks : forall bt,
  hold_tilt_pitch_drop_detected bt = 0 ->
  quiet sign rate_limitf bt tks = true ->
  hold_tilt_active bt = false ->
  hold_tilt_active (run bt tks) = false
  /\ hold_tilt_pitch_drop_detected (run bt tks) = 0
  /\ pitch_at_trigger (run bt tks) = pitch_at_trigger bt
  /\ pitch_timer (run bt tks)
     = fold_left F32.sub (map tk_dt tks) (pitch_timer bt).
Proof.
  induction tks as [|tk tks IH]; intros bt L Q A; [cbn; auto|].
  cbn [quiet] in Q.
  apply andb_prop in Q. destruct Q as [Q Q'].
  apply andb_prop in Q. destruct Q as [Q P].
  apply andb_prop in Q. destruct Q as [W O].
  apply negb_true_iff in P.
  destruct (watching_waits bt tk L W O P) as (A1 & L1 & P1 & T1).
  change (run bt (tk :: tks)) with (run (tick_update bt tk) tks).
  destruct (IH _ L1 Q' A1) as (A2 & L2 & P2 & T2).
  rewrite A2, L2, P2, T2, P1, T1. auto.
Qed.

Lemma hold_tilt_behavior_timer bt imu :
  pitch_timer (hold_tilt_behavior bt imu) = pitch_timer bt.
Proof.
  unfold hold_tilt_behavior. destruct bt as [f t s a v c pt pa d]; cbn.
  destruct (F32.ltb _ v); cbn; destruct (_ <=? 0); reflexivity.
Qed.

(** C9: after every call of [brake_tilt_update] over the life of the
    controller the pitch-drop latch is 0.  A call that passes the disable
    gate leaves it 0 whatever the state before: a latch set during the call
    is consumed by the hold-tilt activation of the same call, and it is
    cleared otherwise.  A call stopped by the gate does not write the latch,
    which is 0 from the calls before. *)
Theorem pitch_drop_latch_never_persists :
  (forall bt tk,
      reachable bt ->
      hold_tilt_pitch_drop_detected (tick_update bt tk) = 0)
  /\ (forall bt tk,
        passes_gate tk = true ->
        hold_tilt_pitch_drop_detected (tick_update bt tk) = 0)
  /\ (forall bt tk,
        watching sign bt tk = true ->
        window_open bt = true ->
        pitch_dropped bt tk = true ->
        activates sign bt tk = true)
  /\ (forall bt tk,
        passes_gate tk = false ->
        hold_tilt_pitch_drop_detected (tick_update bt tk)
        = hold_tilt_pitch_drop_detected bt).
Proof.
  split; [|split; [|split]].
  - intros bt tk R. apply reachable_latch. now constructor.
  - intros bt tk G.
    destruct (tick_update_cases bt tk)
      as [[G' _]|[[_ ->]|(_ & _ & sp & ->)]].
    + congruence.
    + rewrite (proj1 (hold_tilt_behavior_hold _ _)).
      apply tick_detect_latch.
    + cbn. apply tick_detect_latch.
  - intros bt tk W O D.
    destruct (watching_monitoring bt tk W) as (G & A & _).
    unfold activates. rewrite G, A, (watching_triggers bt tk W O D).
    reflexivity.
  - intros bt tk G.
    destruct (tick_update_cases bt tk)
      as [[_ ->]|[[G' _]|(G' & _)]].
    + apply disable_hold.
    + unfold holds in G'. rewrite G in G'. discriminate.
    + congruence.
Qed.

(** C5 as amended: a monitored tick [tk0] opens the window; monitored ticks
    [tks] follow in which the window stays open and no drop is seen; on the
    next monitored tick [tk] the timer, the configured window less the [dt]
    of the ticks since the opening, has not run out and the pitch recorded
    at the opening exceeds the current pitch by more than the threshold.  A
    monitored tick passes the disable gate with hold-tilt inactive, the
    magnitude of the target of that tick above the minimum and no
    wheelslip.  Then this very tick executes the hold-tilt activation:
    inside the call, at line 125, hold-tilt is active with the configured
    angle as value and the configured timeout as counter, and the timer and
    the latch are cleared.  The call goes on with the hold-tilt behaviour,
    which decrements the counter once before it returns: in the state the
    call returns the value is the configured angle, timer and latch are
    cleared, the counter is the timeout less one, or 0 if that is not
    positive, and hold-tilt is active only if the timeout less one is
    positive. *)
Theorem pitch_drop_activates_hold bt tk0 tks tk :
  watching sign bt tk0 = true ->
  window_open bt = false ->
  quiet sign rate_limitf (tick_update bt tk0) tks = true ->
  watching sign (run bt (tk0 :: tks)) tk = true ->
  F32.leb (fold_left F32.sub (map tk_dt tks)
             (hold_tilt_time_window (tk_config tk0))) F32.zero = false ->
  F32.gtb (F32.sub (pitch (tk_imu tk0)) (pitch (tk_imu tk)))
    (hold_tilt_pitch_delta_threshold (tk_config tk)) = true ->
  let s := run bt (tk0 :: tks) in
  let a := tick_detect sign s tk in
  let s' := tick_update s tk in
  let c := int_wrap (hold_tilt_timeout (tk_config tk) - 1) in
  activates sign s tk = true
  /\ hold_tilt_active a = true
  /\ hold_tilt_value a = hold_tilt_angle (tk_config tk)
  /\ hold_counter a = hold_tilt_timeout (tk_config tk)
  /\ pitch_timer a = F32.zero
  /\ hold_tilt_pitch_drop_detected a = 0
  /\ s' = hold_tilt_behavior a (tk_imu tk)
  /\ hold_tilt_value s' = hold_tilt_angle (tk_config tk)
  /\ pitch_timer s' = F32.zero
  /\ hold_tilt_pitch_drop_detected s' = 0
  /\ hold_counter s' = Z.max 0 c
  /\ hold_tilt_active s' = (0 <? c).
Proof.
  intros W0 O0 Q W T P s a s' c.
  destruct (watching_opens bt tk0 W0 O0) as (A1 & L1 & P1 & T1).
  destruct (quiet_run tks (tick_update bt tk0) L1 Q A1)
    as (A2 & L2 & P2 & T2).
  change (run (tick_update bt tk0) tks) with s in A2, L2, P2, T2.
  rewrite P1 in P2. rewrite T1 in T2.
  assert (O : window_open s = true).
  { unfold window_open. now rewrite T2, T. }
  assert (D : pitch_dropped s tk = true).
  { unfold pitch_dropped. now rewrite P2. }
  pose proof (watching_triggers s tk W O D) as E.
  fold a in E.
  destruct (watching_monitoring s tk W) as (G & _ & _).
  assert (Act : activates sign s tk = true).
  { unfold activates. fold a. rewrite G, A2, E. reflexivity. }
  assert (S' : s' = hold_tilt_behavior a (tk_imu tk)).
  { subst s'. destruct (tick_update_cases s tk)
      as [[G' _]|[[_ R]|(_ & A' & _)]].
    - congruence.
    - exact R.
    - fold a in A'. rewrite E in A'. discriminate. }
  split; [exact Act|].
  split; [now rewrite E|]. split; [now rewrite E|].
  split; [now rewrite E|]. split; [now rewrite E|].
  split; [now rewrite E|]. split; [exact S'|].
  destruct (hold_tilt_behavior_hold a (tk_imu tk)) as (L3 & V3 & C3).
  rewrite <- S' in L3, V3, C3.
  assert (Ca : hold_counter a = hold_tilt_timeout (tk_config tk))
    by now rewrite E.
  rewrite Ca in C3. fold c in C3.
  split; [rewrite V3; now rewrite E|].
  split; [rewrite S', hold_tilt_behavior_timer; now rewrite E|].
  split; [rewrite L3; now rewrite E|].
  destruct C3 as [(N & -> & ->)|(N & -> & ->)].
  - split; [lia|]. symmetry. apply Z.ltb_ge. exact N.
  - split; [lia|]. rewrite E. symmetry. now apply Z.ltb_lt.
Qed.

(** ** Divisions *)

Lemma abs_nonneg (a : float) :
  F32.is_nan a = false -> nonneg (F32.abs a) = true.
Proof. now destruct a. Qed.

Lemma ltb_nan_l (y : float) : F32.ltb S754_nan y = false.
Proof. reflexivity. Qed.

Lemma ltb_nan_r (x : float) : F32.ltb x S754_nan = false.
Proof. now destruct x. Qed.

Lemma downhill_not_nan (motor : MotorData) (atr : ATR) :
  downhill motor atr = true -> F32.is_nan (accel_diff atr) = false.
Proof.
  unfold downhill, F32.gtb. destruct (accel_diff atr); try reflexivity.
  now rewrite ltb_nan_l, ltb_nan_r, !andb_false_r.
Qed.

(** The downhill damper is at least 1. *)
Lemma downhill_damper_ge_one (motor : MotorData) (atr : ATR) :
  F32.leb F32.one (fst (downhill_damper motor atr)) = true.
Proof.
  unfold downhill_damper. destruct (downhill motor atr) eqn:D.
  - cbn [fdiv bind ret fst]. fold_constants.
    apply (add_pow2_le (-23)); [lia|].
    apply div_nonneg, abs_nonneg. now apply downhill_not_nan with motor.
  - reflexivity.
Qed.

Lemma downhill_damper_divisions (motor : MotorData) (atr : ATR) site d :
  In (site, d) (snd (downhill_damper motor atr)) ->
  site = DivAccelHalf /\ d = F32.two.
Proof.
  unfold downhill_damper. destruct (downhill motor atr); cbn; [|tauto].
  intros [E|[]]. now inversion E.
Qed.


Lemma brake_tilt_target_divisions bt motor atr balance_offset site d :
  In (site, d) (snd (brake_tilt_target sign bt motor atr balance_offset)) ->
  F32.ltb (factor bt) F32.zero = true
  /\ ((site = DivAccelHalf /\ d = F32.two)
      \/ (site = DivFactor /\ d = factor bt)
      \/ (site = DivDamper /\ d = fst (downhill_damper motor atr))).
Proof.
  unfold brake_tilt_target.
  destruct (braking_condition bt motor) eqn:B; [|intros []].
  assert (F : F32.ltb (factor bt) F32.zero = true).
  { unfold braking_condition in B.
    apply andb_prop in B. destruct B as [B _].
    apply andb_prop in B. now destruct B. }
  destruct (negb _); [|intros []].
  rewrite !bind_snd. cbn [fdiv fst snd].
  intros I. split; [exact F|].
  apply in_app_or in I. destruct I as [I|I].
  - left. now apply downhill_damper_divisions with motor atr.
  - cbn [app] in I. destruct I as [E|[E|I]]; try (inversion E; auto).
    destruct (F32.gtb _ _); destruct I.
Qed.

Lemma braketilt_step_size_divisions bt motor atr config site d :
  In (site, d) (snd (braketilt_step_size bt motor atr config)) ->
  (site = DivLingering /\ d = braketilt_lingering config)
  \/ (site = DivStepHalf /\ d = F32.two).
Proof.
  unfold braketilt_step_size. rewrite bind_snd. cbn [fdiv fst snd app].
  intros [E|I]; [inversion E; auto|].
  destruct (F32.ltb (abs_erpm motor) F32.c500); cbn in I;
    [|destruct I].
  destruct I as [E|[]]. inversion E; auto.
Qed.

Lemma update_divisions bt motor atr config balance_offset imu dt wheelslip
      site d :
  In (site, d)
    (brake_tilt_update_divisions sign rate_limitf bt motor atr config
       balance_offset imu dt wheelslip) ->
  In (site, d) (snd (brake_tilt_target sign bt motor atr balance_offset))
  \/ exists bt',
      In (site, d) (snd (braketilt_step_size bt' motor atr config)).
Proof.
  unfold brake_tilt_update_divisions, brake_tilt_update_logged.
  destruct (disable_gate _ _ _); [intros []|].
  rewrite bind_snd. intros I. apply in_app_or in I.
  destruct I as [I|I].
  - left. unfold update_detect in I. rewrite bind_snd in I.
    cbn [ret snd] in I. now rewrite app_nil_r in I.
  - right. destruct (hold_tilt_active _); [destruct I|].
    unfold brake_tilt_step in I. rewrite bind_snd in I.
    cbn [ret snd] in I. rewrite app_nil_r in I. eauto.
Qed.

Lemma ltb_zero_nonzero (d : float) :
  F32.ltb d F32.zero = true -> F32.eqb d F32.zero = false.
Proof.
  unfold F32.ltb, SFltb, F32.eqb, SFeqb.
  destruct (SFcompare d F32.zero) as [[]|]; congruence.
Qed.

Lemma leb_one_nonzero (d : float) :
  F32.leb F32.one d = true -> F32.eqb d F32.zero = false.
Proof.
  fold_constants. unfold F32.leb, SFleb, F32.eqb, SFeqb.
  destruct d as [s|s| |s m e]; cbn; try congruence; now destruct s.
Qed.

Theorem update_divisors bt motor atr config balance_offset imu dt
        wheelslip site d :
  In (site, d)
    (brake_tilt_update_divisions sign rate_limitf bt motor atr config
       balance_offset imu dt wheelslip) ->
  match site with
  | DivFactor => d = factor bt /\ F32.ltb d F32.zero = true
  | DivDamper =>
      d = fst (downhill_damper motor atr)
      /\ F32.ltb (factor bt) F32.zero = true
      /\ F32.leb F32.one d = true
  | DivAccelHalf | DivStepHalf => d = F32.two
  | DivLingering => d = braketilt_lingering config
  end
  /\ (F32.eqb d F32.zero = true -> site = DivLingering).
Proof.
  intros I. apply update_divisions in I. destruct I as [I|[bt' I]].
  - apply brake_tilt_target_divisions in I.
    destruct I as (F & [[-> ->]|[[-> ->]|[-> ->]]]).
    + split; [reflexivity|]. intros Z. discriminate Z.
    + split; [auto|]. rewrite ltb_zero_nonzero by assumption. discriminate.
    + pose proof (downhill_damper_ge_one motor atr) as G.
      split; [auto|]. rewrite leb_one_nonzero by assumption. discriminate.
  - apply braketilt_step_size_divisions in I.
    destruct I as [[-> ->]|[-> ->]].
    + split; auto.
    + split; [reflexivity|]. intros Z. discriminate Z.
Qed.

End Properties.

(** ** The gain *)

(** C3 as amended: for every strength that is a well-formed number below
    22.5, which covers its range up to 20, the factor stored by
    [brake_tilt_configure] is never positive; it is 0 exactly when the
    strength compares equal to 0 and strictly negative otherwise.  No other
    field is written. *)
Theorem configure_factor_sign (bt : BrakeTilt) (config : RefloatConfig) :
  F32.valid (braketilt_strength config) = true ->
  F32.ltb (braketilt_strength config) strength_bound = true ->
  let f := factor (brake_tilt_configure bt config) in
  brake_tilt_configure bt config = set_factor f bt
  /\ F32.gtb f F32.zero = false
  /\ F32.eqb f F32.zero = F32.eqb (braketilt_strength config) F32.zero
  /\ (F32.eqb (braketilt_strength config) F32.zero = true -> f = F32.zero)
  /\ (F32.eqb (braketilt_strength config) F32.zero = false ->
      F32.ltb f F32.zero = true).
Proof.
  intros V B f. subst f. unfold brake_tilt_configure.
  destruct (F32.eqb (braketilt_strength config) F32.zero) eqn:Z.
  - cbn. repeat split; intros; congruence.
  - cbn [set_factor factor].
    assert (P : positive_float
                  (F32.add F32.half
                     (F32.div
                        (F32.sub F32.twenty (braketilt_strength config))
                        F32.five)) = true).
    { destruct (F32.leb (braketilt_strength config) F32.twenty) eqn:L.
      - apply (leb_pow2_positive (-24)). apply (add_pow2_le (-24)); [lia|].
        pose proof (sub_twenty_nonneg _ V L) as N. revert N.
        generalize (F32.sub F32.twenty (braketilt_strength config)).
        intros d N. fold_constants. now apply div_nonneg.
      - destruct (strength_above_twenty _ L B) as (ms & -> & R).
        destruct (sub_twenty_above ms R) as (mz & ez & -> & RM & RE & T).
        destruct (div_five_below_half mz ez RM RE T)
          as (m3 & e3 & -> & R3 & E3).
        apply add_half_small_negative; lia. }
    destruct (negated_positive _ P) as (H1 & H2 & H3).
    repeat split; auto. discriminate.
Qed.

(** ** Wind-down *)

Lemma winddown_fields (bt : BrakeTilt) :
  let bt' := brake_tilt_winddown bt in
  setpoint bt' = F32.mul (setpoint bt) F32.c0_995
  /\ target bt' = F32.mul (target bt) F32.c0_99
  /\ factor bt' = factor bt
  /\ hold_tilt_value bt' = hold_tilt_value bt
  /\ pitch_timer bt' = pitch_timer bt
  /\ pitch_at_trigger bt' = pitch_at_trigger bt.
Proof.
  unfold brake_tilt_winddown. destruct bt as [f t s a v c pt pa d]; cbn.
  destruct a; cbn; auto 7.
Qed.

Lemma winddown_n_setpoint_sane (bt : BrakeTilt) (n : nat) :
  sane (setpoint bt) = true -> sane (setpoint (winddown_n n bt)) = true.
Proof.
  intros HS. induction n as [|n IH]; [exact HS|].
  change (winddown_n (S n) bt)
    with (brake_tilt_winddown (winddown_n n bt)).
  destruct (winddown_fields (winddown_n n bt)) as (-> & _).
  apply (mul_scale_shrinks _ 16693330 996 1000); auto;
    try apply scale_995. lia.
Qed.

Lemma winddown_n_target_sane (bt : BrakeTilt) (n : nat) :
  sane (target bt) = true -> sane (target (winddown_n n bt)) = true.
Proof.
  intros HT. induction n as [|n IH]; [exact HT|].
  change (winddown_n (S n) bt)
    with (brake_tilt_winddown (winddown_n n bt)).
  destruct (winddown_fields (winddown_n n bt)) as (_ & -> & _).
  apply (mul_scale_shrinks _ 16609444 991 1000); auto;
    try apply scale_99. lia.
Qed.

Lemma winddown_n_nan (bt : BrakeTilt) (n : nat) :
  (F32.is_nan (setpoint bt) = true ->
   F32.is_nan (setpoint (winddown_n n bt)) = true)
  /\ (F32.is_nan (target bt) = true ->
      F32.is_nan (target (winddown_n n bt)) = true).
Proof.
  induction n as [|n [IS IT]]; [auto|].
  change (winddown_n (S n) bt)
    with (brake_tilt_winddown (winddown_n n bt)).
  destruct (winddown_fields (winddown_n n bt)) as (-> & -> & _).
  split; intros H.
  - specialize (IS H). destruct (setpoint (winddown_n n bt));
      try discriminate. reflexivity.
  - specialize (IT H). destruct (target (winddown_n n bt));
      try discriminate. reflexivity.
Qed.

(** C7 as amended: a call of [brake_tilt_winddown] replaces the setpoint by
    the binary32 product of the setpoint and [0.995f] and the target by the
    product of the target and [0.99f], leaves hold-tilt inactive, with a zero
    counter in every state the controller reaches from [brake_tilt_init]
    (and whenever "inactive implies zero counter" held before), and writes
    nothing else.  Over repeated calls, for a setpoint that is a well-formed
    number other than NaN, whatever the target is, the magnitude of the
    setpoint never increases, and while it is a normal number every call
    makes it strictly smaller, by a factor of at most 0.996; the same holds
    of a target that is a well-formed number other than NaN, whatever the
    setpoint is, with the factor 0.991.  A setpoint or target that is NaN
    stays NaN.  Nothing is said of their limit. *)
Theorem winddown_decay :
  (forall bt,
      let bt' := brake_tilt_winddown bt in
      setpoint bt' = F32.mul (setpoint bt) F32.c0_995
      /\ target bt' = F32.mul (target bt) F32.c0_99
      /\ hold_tilt_active bt' = false
      /\ (hold_inv bt -> hold_counter bt' = 0)
      /\ factor bt' = factor bt
      /\ hold_tilt_value bt' = hold_tilt_value bt
      /\ pitch_timer bt' = pitch_timer bt
      /\ pitch_at_trigger bt' = pitch_at_trigger bt
      /\ hold_tilt_pitch_drop_detected bt'
         = hold_tilt_pitch_drop_detected bt)
  /\ (forall sign rate_limitf bt,
         reachable sign rate_limitf bt ->
         hold_counter (brake_tilt_winddown bt) = 0)
  /\ (forall bt n,
         sane (setpoint bt) = true ->
         let a := winddown_n n bt in
         let b := winddown_n (S n) bt in
         F32.leb (F32.abs (setpoint b)) (F32.abs (setpoint a)) = true
         /\ (normal (setpoint a) = true ->
             F32.ltb (F32.abs (setpoint b)) (F32.abs (setpoint a)) = true
             /\ (magnitude (setpoint b)
                 <= (996 # 1000) * magnitude (setpoint a))%Q))
  /\ (forall bt n,
         sane (target bt) = true ->
         let a := winddown_n n bt in
         let b := winddown_n (S n) bt in
         F32.leb (F32.abs (target b)) (F32.abs (target a)) = true
         /\ (normal (target a) = true ->
             F32.ltb (F32.abs (target b)) (F32.abs (target a)) = true
             /\ (magnitude (target b)
                 <= (991 # 1000) * magnitude (target a))%Q))
  /\ (forall bt n,
         (F32.is_nan (setpoint bt) = true ->
          F32.is_nan (setpoint (winddown_n n bt)) = true)
         /\ (F32.is_nan (target bt) = true ->
             F32.is_nan (target (winddown_n n bt)) = true)).
Proof.
  split; [|split; [|split; [|split]]].
  - intros bt bt'. subst bt'.
    destruct (winddown_fields bt) as (S & T & F & V & PT & PA).
    destruct (winddown_hold bt) as (A & C & D).
    repeat split; auto.
    intros I. destruct C as [C|[A' C]]; [exact C|]. rewrite C. now apply I.
  - intros sign rate_limitf bt R.
    destruct (winddown_hold bt) as (A & [C|[A' C]] & D); [exact C|].
    rewrite C. now apply (reachable_hold_inv sign rate_limitf).
  - intros bt n HS a b.
    pose proof (winddown_n_setpoint_sane bt n HS) as Sa. fold a in Sa.
    assert (B : b = brake_tilt_winddown a) by reflexivity.
    destruct (winddown_fields a) as (Sb & _).
    rewrite B, Sb.
    destruct (mul_scale_shrinks (setpoint a) 16693330 996 1000)
      as (_ & L1 & N1); auto; try apply scale_995; try lia.
  - intros bt n HT a b.
    pose proof (winddown_n_target_sane bt n HT) as Ta. fold a in Ta.
    assert (B : b = brake_tilt_winddown a) by reflexivity.
    destruct (winddown_fields a) as (_ & Tb & _).
    rewrite B, Tb.
    destruct (mul_scale_shrinks (target a) 16609444 991 1000)
      as (_ & L2 & N2); auto; try apply scale_99; try lia.
  - exact winddown_n_nan.
Qed.

(** * Further properties of the controller *)

Section Further.

Variable sign : float -> Z.
Variable rate_limitf : float -> float -> float -> float.

Local Abbreviation tick_update := (tick_update sign rate_limitf).
Local Abbreviation call := (apply_op sign rate_limitf).
Local Abbreviation calls := (apply_ops sign rate_limitf).

(** ** The factor *)

Lemma disable_factor bt : factor (disable bt) = factor bt.
Proof.
  unfold disable. destruct bt as [f t s a v c pt pa d]; cbn. now destruct a.
Qed.

Lemma hold_tilt_behavior_factor bt imu :
  factor (hold_tilt_behavior bt imu) = factor bt.
Proof.
  unfold hold_tilt_behavior. destruct bt as [f t s a v c pt pa d]; cbn.
  destruct (F32.ltb _ v); cbn; destruct (_ <=? 0); reflexivity.
Qed.

Lemma tick_update_factor bt tk : factor (tick_update bt tk) = factor bt.
Proof.
  destruct (tick_detect_frame sign bt tk) as (_ & _ & F).
  destruct (tick_update_cases sign rate_limitf bt tk)
    as [[_ ->]|[[_ ->]|(_ & _ & sp & ->)]].
  - apply disable_factor.
  - now rewrite hold_tilt_behavior_factor.
  - exact F.
Qed.

Lemma apply_op_factor bt op :
  keeps_config op = true -> factor (call bt op) = factor bt.
Proof.
  destruct op as [|config|tk|]; cbn [keeps_config apply_op];
    try discriminate; intros _.
  - reflexivity.
  - apply tick_update_factor.
  - apply winddown_fields.
Qed.

Lemma apply_ops_factor ops : forall bt,
  forallb keeps_config ops = true -> factor (calls bt ops) = factor bt.
Proof.
  induction ops as [|op ops IH]; intros bt F; [reflexivity|].
  cbn [forallb] in F. apply andb_prop in F. destruct F as [K F].
  change (calls bt (op :: ops)) with (calls (call bt op) ops).
  rewrite (IH _ F). now apply apply_op_factor.
Qed.

Lemma configure_factor_only bt bt' config :
  factor (brake_tilt_configure bt config)
  = factor (brake_tilt_configure bt' config).
Proof.
  unfold brake_tilt_configure. now destruct (F32.eqb _ _).
Qed.

Lemma apply_ops_app bt ops1 ops2 :
  calls bt (ops1 ++ ops2) = calls (calls bt ops1) ops2.
Proof. apply fold_left_app. Qed.

(** X1: the factor in force is the one of the last [brake_tilt_configure]:
    [brake_tilt_reset], [brake_tilt_update] and [brake_tilt_winddown] do not
    write it, and [brake_tilt_configure] computes it from the configuration
    alone, whatever the calls before. *)
Theorem factor_of_last_configure bt bt' ops1 config ops2 :
  forallb keeps_config ops2 = true ->
  factor (calls bt (ops1 ++ OpConfigure config :: ops2))
  = factor (brake_tilt_configure bt' config).
Proof.
  intros K. rewrite apply_ops_app.
  change (calls (calls bt ops1) (OpConfigure config :: ops2))
    with (calls (brake_tilt_configure (calls bt ops1) config) ops2).
  rewrite (apply_ops_factor _ _ K). apply configure_factor_only.
Qed.

(** ** A controller without a negative factor *)

Lemma tick_target_disabled bt tk :
  F32.ltb (factor bt) F32.zero = false ->
  tick_target sign bt tk = F32.zero.
Proof.
  intros F. apply tick_target_not_braking. unfold braking_condition.
  now rewrite F.
Qed.

Lemma tick_update_target_any bt tk :
  target (tick_update bt tk)
  = if passes_gate tk then tick_target sign bt tk else F32.zero.
Proof.
  destruct (passes_gate tk) eqn:G.
  - now apply tick_update_target.
  - destruct (tick_update_cases sign rate_limitf bt tk)
      as [[_ ->]|[[G' _]|(G' & _)]].
    + apply disable_target.
    + unfold holds in G'. rewrite G in G'. discriminate.
    + congruence.
Qed.

Lemma disabled_tick bt tk :
  F32.ltb (factor bt) F32.zero = false ->
  target (tick_update bt tk) = F32.zero.
Proof.
  intros F. rewrite tick_update_target_any, (tick_target_disabled bt tk F).
  now destruct (passes_gate tk).
Qed.

(** Without monitoring, lines 99-124 leave an inactive hold-tilt inactive. *)
Lemma trigger_window_idle bt config imu dt wheelslip :
  monitoring bt config wheelslip = false ->
  hold_tilt_active bt = false ->
  hold_tilt_active
    (hold_tilt_trigger (pitch_drop_window bt config imu dt wheelslip) config)
  = false.
Proof.
  intros M A. unfold hold_tilt_trigger, pitch_drop_window. rewrite M.
  destruct bt as [f t s a v c pt pa d]; cbn in *. now rewrite A.
Qed.

Lemma step_inactive bt tk :
  hold_tilt_active (tick_detect sign bt tk) = false ->
  hold_tilt_active (tick_update bt tk) = false.
Proof.
  intros D.
  destruct (tick_update_cases sign rate_limitf bt tk)
    as [[_ ->]|[[H _]|(_ & _ & sp & ->)]].
  - apply disable_hold.
  - apply andb_prop in H. destruct H as [_ H]. congruence.
  - exact D.
Qed.

(** X2: with a factor that is not below zero the controller is disabled.
    From such a state, whatever calls of reset, update and winddown follow,
    every update leaves the target at 0, and hold-tilt, when inactive, is
    not activated by an update whose minimal triggering target is not
    negative.  This is the state after [brake_tilt_init], and after
    [brake_tilt_configure] with a strength that compares equal to 0. *)
Theorem factor_not_negative_disables :
  (forall bt ops tk,
      F32.ltb (factor bt) F32.zero = false ->
      forallb keeps_config ops = true ->
      let s := calls bt ops in
      target (tick_update s tk) = F32.zero
      /\ (hold_tilt_active s = false ->
          F32.ltb (hold_tilt_min_target (tk_config tk)) F32.zero = false ->
          hold_tilt_active (tick_update s tk) = false))
  /\ (forall bt, F32.ltb (factor (brake_tilt_init bt)) F32.zero = false)
  /\ (forall bt config,
        F32.eqb (braketilt_strength config) F32.zero = true ->
        F32.ltb (factor (brake_tilt_configure bt config)) F32.zero = false).
Proof.
  split; [|split].
  - intros bt ops tk F0 K s.
    assert (F : F32.ltb (factor s) F32.zero = false)
      by (subst s; now rewrite (apply_ops_factor _ _ K)).
    split; [now apply disabled_tick|].
    intros A M. apply step_inactive. rewrite tick_detect_unfold.
    apply trigger_window_idle; [|exact A].
    unfold monitoring. cbn [set_target target hold_tilt_active].
    rewrite (tick_target_disabled s tk F).
    change (F32.gtb (F32.abs F32.zero) (hold_tilt_min_target (tk_config tk)))
      with (F32.ltb (hold_tilt_min_target (tk_config tk)) F32.zero).
    rewrite M. now rewrite andb_false_r.
  - reflexivity.
  - intros bt config Z. unfold brake_tilt_configure. now rewrite Z.
Qed.

(** ** Braking in the direction of the balance offset *)

(** X3: when the braking condition of line 77 holds but the sign of the
    balance offset equals the direction sign of the motor, a call that
    passes the gate does not write the target: it keeps the value of the
    call before. *)
Theorem same_sign_keeps_target bt tk :
  passes_gate tk = true ->
  braking_condition bt (tk_motor tk) = true ->
  sign (tk_balance_offset tk) = erpm_sign (tk_motor tk) ->
  target (tick_update bt tk) = target bt.
Proof.
  intros G B S. rewrite (tick_update_target sign rate_limitf bt tk G).
  unfold tick_target, brake_tilt_target. rewrite B, S, Z.eqb_refl.
  reflexivity.
Qed.

End Further.

Section Hold.

Variable sign : float -> Z.
Variable rate_limitf : float -> float -> float -> float.

Local Abbreviation tick_update := (tick_update sign rate_limitf).
Local Abbreviation run := (run sign rate_limitf).
Local Abbreviation reachable := (reachable sign rate_limitf).

(** ** Activation of hold-tilt *)

(** What lines 99-124 need to activate hold-tilt. *)
Lemma trigger_window_activation bt config imu dt wheelslip :
  hold_tilt_active bt = false ->
  hold_tilt_active
    (hold_tilt_trigger (pitch_drop_window bt config imu dt wheelslip) config)
  = true ->
  monitoring bt config wheelslip = true
  /\ F32.leb (pitch_timer bt) F32.zero = false
  /\ (F32.gtb (F32.sub (pitch_at_trigger bt) (pitch imu))
        (hold_tilt_pitch_delta_threshold config) = true
      \/ hold_tilt_pitch_drop_detected bt <> 0).
Proof.
  intros A. unfold hold_tilt_trigger, pitch_drop_window.
  destruct (monitoring bt config wheelslip);
    [|destruct bt as [f t s a v c pt pa d]; cbn in *; rewrite A; cbn;
      congruence].
  destruct (F32.leb (pitch_timer bt) F32.zero);
    [destruct bt as [f t s a v c pt pa d]; cbn in *; rewrite A; cbn;
     congruence|].
  destruct (F32.gtb _ _); [intros _; auto|].
  destruct bt as [f t s a v c pt pa d]; cbn in *; rewrite A; cbn.
  destruct (d =? 0) eqn:D; cbn; [congruence|].
  intros _. repeat split. right. intros ->. discriminate.
Qed.

(** What a tick needs to reach line 125 with hold-tilt newly active. *)
Lemma detect_activation bt tk :
  hold_tilt_pitch_drop_detected bt = 0 ->
  hold_tilt_active bt = false ->
  hold_tilt_active (tick_detect sign bt tk) = true ->
  monitoring (set_target (tick_target sign bt tk) bt) (tk_config tk)
    (tk_wheelslip tk) = true
  /\ window_open bt = true /\ pitch_dropped bt tk = true.
Proof.
  intros L A D. rewrite tick_detect_unfold in D.
  apply trigger_window_activation in D; [|exact A].
  destruct D as (M & W & [P|P]).
  - unfold window_open. cbn [set_target pitch_timer] in W. rewrite W.
    auto.
  - cbn [set_target hold_tilt_pitch_drop_detected] in P. congruence.
Qed.

(** A call that finds the window closed does not activate hold-tilt. *)
Lemma closed_window_idle bt tk :
  hold_tilt_pitch_drop_detected bt = 0 ->
  hold_tilt_active bt = false ->
  window_open bt = false ->
  hold_tilt_active (tick_update bt tk) = false.
Proof.
  intros L A W.
  destruct (tick_update_cases sign rate_limitf bt tk)
    as [[_ ->]|[[H _]|(_ & D & sp & ->)]].
  - apply disable_hold.
  - apply andb_prop in H. destruct H as [_ H].
    destruct (detect_activation bt tk L A H) as (_ & W' & _). congruence.
  - exact D.
Qed.

(** X4: hold-tilt is activated only through the pitch-drop window: a call
    that activates it, from a state whose latch is clear, passes the gate
    with the monitoring condition true, finds the window open and sees the
    pitch below the recorded one by more than the threshold.  In particular
    a call that finds the window closed never activates hold-tilt, and so
    the first update after [brake_tilt_reset] never does. *)
Theorem activation_needs_pitch_drop :
  (forall bt tk,
      hold_tilt_pitch_drop_detected bt = 0 ->
      activates sign bt tk = true ->
      watching sign bt tk = true
      /\ window_open bt = true
      /\ pitch_dropped bt tk = true)
  /\ (forall bt tk,
        hold_tilt_pitch_drop_detected bt = 0 ->
        hold_tilt_active bt = false ->
        window_open bt = false ->
        hold_tilt_active (tick_update bt tk) = false)
  /\ (forall bt tk,
        hold_tilt_active (tick_update (brake_tilt_reset bt) tk) = false).
Proof.
  split; [|split].
  - intros bt tk L Act. unfold activates in Act.
    apply andb_prop in Act. destruct Act as [Act D].
    apply andb_prop in Act. destruct Act as [G A].
    apply negb_true_iff in A.
    destruct (detect_activation bt tk L A D) as (M & W & P).
    split; [|auto]. unfold watching. rewrite G, A. cbn [negb andb].
    unfold monitoring in M.
    cbn [set_target hold_tilt_active target] in M. rewrite A in M.
    exact M.
  - exact closed_window_idle.
  - intros bt tk. apply closed_window_idle; reflexivity.
Qed.

(** ** Active hold-tilt *)

Lemma trigger_window_timer bt config imu dt wheelslip :
  let b := hold_tilt_trigger (pitch_drop_window bt config imu dt wheelslip)
             config in
  hold_tilt_active b = true -> pitch_timer b = F32.zero.
Proof.
  unfold hold_tilt_trigger, pitch_drop_window, monitoring.
  destruct bt as [f t s a v c pt pa d]; cbn.
  destruct a; cbn; [auto|].
  destruct (F32.gtb _ _ && negb wheelslip); cbn; [|discriminate].
  destruct (F32.leb pt F32.zero); cbn; [discriminate|].
  destruct (F32.gtb _ _); cbn; [auto|].
  destruct (d =? 0); cbn; [discriminate|auto].
Qed.

Lemma tick_update_active_timer bt tk :
  hold_tilt_active (tick_update bt tk) = true ->
  pitch_timer (tick_update bt tk) = F32.zero.
Proof.
  destruct (tick_update_cases sign rate_limitf bt tk)
    as [[_ ->]|[[H ->]|(_ & D & sp & ->)]].
  - destruct (disable_hold bt) as [-> _]. discriminate.
  - intros _. rewrite hold_tilt_behavior_timer.
    apply andb_prop in H. destruct H as [_ H].
    rewrite tick_detect_unfold in *.
    now apply trigger_window_timer.
  - cbn [set_setpoint hold_tilt_active]. congruence.
Qed.

Lemma reachable_active bt :
  reachable bt ->
  hold_tilt_active bt = true ->
  0 < hold_counter bt /\ pitch_timer bt = F32.zero.
Proof.
  induction 1 as [bt|bt R IH|bt config R IH|bt tk R IH|bt R IH].
  - discriminate.
  - discriminate.
  - destruct (configure_frame bt config) as [f ->]. exact IH.
  - intros A. split; [|now apply tick_update_active_timer].
    destruct (tick_update_hold sign rate_limitf bt tk)
      as [[A' _]|[[A' C]|[(_ & _ & _ & P)|(_ & _ & _ & P)]]].
    + congruence.
    + rewrite C. apply IH. congruence.
    + exact P.
    + exact P.
  - destruct (winddown_hold bt) as [-> _]. discriminate.
Qed.

(** X5: in every state the controller reaches, hold-tilt is active exactly
    when the counter is positive, and while it is active the pitch-drop
    window is closed (timer 0) and the latch is clear. *)
Theorem active_iff_counting bt :
  reachable bt ->
  hold_tilt_active bt = (0 <? hold_counter bt)
  /\ (hold_tilt_active bt = true ->
      pitch_timer bt = F32.zero /\ hold_tilt_pitch_drop_detected bt = 0).
Proof.
  intros R. split.
  - destruct (hold_tilt_active bt) eqn:A.
    + symmetry. apply Z.ltb_lt. now apply reachable_active.
    + rewrite (reachable_hold_inv sign rate_limitf bt R A). reflexivity.
  - intros A. split.
    + now apply reachable_active.
    + now apply (reachable_latch sign rate_limitf).
Qed.

(** ** After hold-tilt has ended *)

Lemma disable_timer bt : pitch_timer (disable bt) = pitch_timer bt.
Proof.
  unfold disable. destruct bt as [f t s a v c pt pa d]; cbn.
  now destruct a.
Qed.

(** An update of a state with hold-tilt active and the window closed
    leaves the window closed. *)
Lemma active_tick_timer bt tk :
  hold_tilt_active bt = true ->
  pitch_timer bt = F32.zero ->
  pitch_timer (tick_update bt tk) = F32.zero.
Proof.
  intros A T.
  destruct (tick_update_cases sign rate_limitf bt tk)
    as [[_ ->]|[[H ->]|(_ & D & sp & ->)]].
  - now rewrite disable_timer.
  - rewrite hold_tilt_behavior_timer.
    apply andb_prop in H. destruct H as [_ H].
    rewrite tick_detect_unfold in *.
    now apply trigger_window_timer.
  - destruct (tick_detect_hold sign bt tk) as [(E & _)|(E & _)];
      congruence.
Qed.

(** X6: hold-tilt is never activated again by the update that follows its
    end.  In a state the controller reaches with hold-tilt active, whatever
    call ends it (an update through the gate or the timeout, a wind-down or
    a reset), the next update leaves it inactive: the window has to open
    first. *)
Theorem no_immediate_reactivation bt op tk :
  reachable bt ->
  hold_tilt_active bt = true ->
  hold_tilt_active (apply_op sign rate_limitf bt op) = false ->
  hold_tilt_active (tick_update (apply_op sign rate_limitf bt op) tk)
  = false.
Proof.
  intros R A E.
  destruct (reachable_active bt R A) as [_ T].
  assert (R' : reachable (apply_op sign rate_limitf bt op)).
  { destruct op; cbn [apply_op]; now constructor. }
  apply closed_window_idle.
  - now apply (reachable_latch sign rate_limitf).
  - exact E.
  - unfold window_open.
    assert (T' : pitch_timer (apply_op sign rate_limitf bt op) = F32.zero).
    { destruct op as [|config|tk'|]; cbn [apply_op].
      - reflexivity.
      - destruct (configure_frame bt config) as [f ->]. exact T.
      - now apply active_tick_timer.
      - destruct (winddown_fields bt) as (_ & _ & _ & _ & -> & _).
        exact T. }
    rewrite T'. reflexivity.
Qed.

(** ** What an update records *)

Lemma trigger_window_records bt config imu dt wheelslip :
  let b := hold_tilt_trigger (pitch_drop_window bt config imu dt wheelslip)
             config in
  hold_tilt_value b
  = (if negb (hold_tilt_active bt) && hold_tilt_active b
     then hold_tilt_angle config else hold_tilt_value bt)
  /\ pitch_at_trigger b
     = (if monitoring bt config wheelslip
           && F32.leb (pitch_timer bt) F32.zero
        then pitch imu else pitch_at_trigger bt).
Proof.
  unfold hold_tilt_trigger, pitch_drop_window, monitoring.
  destruct bt as [f t s a v c pt pa d]; cbn.
  destruct a; cbn; [auto|].
  destruct (F32.gtb _ _ && negb wheelslip); cbn; [|auto].
  destruct (F32.leb pt F32.zero); cbn; [auto|].
  destruct (F32.gtb _ _); cbn; [auto|].
  destruct (d =? 0); cbn; auto.
Qed.

Lemma disable_records bt :
  hold_tilt_value (disable bt) = hold_tilt_value bt
  /\ pitch_at_trigger (disable bt) = pitch_at_trigger bt.
Proof.
  unfold disable. destruct bt as [f t s a v c pt pa d]; cbn.
  now destruct a.
Qed.

Lemma hold_tilt_behavior_records bt imu :
  hold_tilt_value (hold_tilt_behavior bt imu) = hold_tilt_value bt
  /\ pitch_at_trigger (hold_tilt_behavior bt imu) = pitch_at_trigger bt.
Proof.
  unfold hold_tilt_behavior. destruct bt as [f t s a v c pt pa d]; cbn.
  destruct (F32.ltb _ v); cbn; destruct (_ <=? 0); auto.
Qed.

(** X7: what an update records.  The hold-tilt value is written only by
    a call that activates hold-tilt, with the hold angle of the
    configuration; the pitch at trigger is written only by a call that
    monitors and finds the window closed, with the pitch of the IMU.  Every
    other call keeps them. *)
Theorem update_records bt tk :
  hold_tilt_value (tick_update bt tk)
  = (if activates sign bt tk then hold_tilt_angle (tk_config tk)
     else hold_tilt_value bt)
  /\ pitch_at_trigger (tick_update bt tk)
     = (if watching sign bt tk && negb (window_open bt)
        then pitch (tk_imu tk) else pitch_at_trigger bt).
Proof.
  unfold activates, watching, window_open.
  assert (D : hold_tilt_value (tick_detect sign bt tk)
              = (if negb (hold_tilt_active bt)
                    && hold_tilt_active (tick_detect sign bt tk)
                 then hold_tilt_angle (tk_config tk) else hold_tilt_value bt)
              /\ pitch_at_trigger (tick_detect sign bt tk)
                 = (if negb (hold_tilt_active bt)
                       && F32.gtb (F32.abs (tick_target sign bt tk))
                            (hold_tilt_min_target (tk_config tk))
                       && negb (tk_wheelslip tk)
                       && negb (negb (F32.leb (pitch_timer bt) F32.zero))
                    then pitch (tk_imu tk) else pitch_at_trigger bt)).
  { rewrite tick_detect_unfold. rewrite negb_involutive.
    exact (trigger_window_records
             (set_target (tick_target sign bt tk) bt) (tk_config tk)
             (tk_imu tk) (tk_dt tk) (tk_wheelslip tk)). }
  destruct D as [DV DP].
  destruct (tick_update_cases sign rate_limitf bt tk)
    as [[G ->]|[[H ->]|(G & _ & sp & ->)]].
  - rewrite G. cbn [andb]. apply disable_records.
  - apply andb_prop in H. destruct H as [G _]. rewrite G. cbn [andb].
    destruct (hold_tilt_behavior_records (tick_detect sign bt tk)
                (tk_imu tk)) as [-> ->].
    rewrite <- !andb_assoc in *. auto.
  - rewrite G. cbn [andb set_setpoint hold_tilt_value pitch_at_trigger].
    rewrite <- !andb_assoc in *. auto.
Qed.

(** ** A timeout of at most one call *)

Lemma tick_update_short bt tk :
  INT_MIN < hold_tilt_timeout (tk_config tk) <= 1 ->
  hold_tilt_active bt = false ->
  hold_tilt_active (tick_update bt tk) = false.
Proof.
  intros T A.
  destruct (tick_update_hold sign rate_limitf bt tk)
    as [[A' _]|[[A' _]|[(A' & _)|(_ & _ & C & P)]]].
  - exact A'.
  - congruence.
  - congruence.
  - rewrite int_wrap_small in C; unfold INT_MIN, INT_MAX in *; lia.
Qed.

(** X8: with a timeout of at most 1 (above [INT_MIN]) in the configuration
    of every call, hold-tilt is released by the call that activates it: it
    is inactive after every update of a run that starts with it inactive. *)
Theorem short_timeout_never_active tks : forall bt,
  Forall (fun tk => INT_MIN < hold_tilt_timeout (tk_config tk) <= 1) tks ->
  hold_tilt_active bt = false ->
  hold_tilt_active (run bt tks) = false.
Proof.
  induction tks as [|tk tks IH]; intros bt F A; [exact A|].
  inversion F as [|? ? T F']; subst.
  change (run bt (tk :: tks)) with (run (tick_update bt tk) tks).
  apply IH; [exact F'|]. now apply tick_update_short.
Qed.

(** ** A NaN incline signal *)

(** X9: a NaN [accel_diff], or a NaN incline threshold, never closes the
    gate: the gate is then the wheelslip flag alone; and a NaN [accel_diff]
    gives no downhill damping, the damper is 1 and no division by 2 is
    evaluated for it. *)
Theorem nan_incline atr config wheelslip motor :
  (F32.is_nan (accel_diff atr) = true
   \/ F32.is_nan (incline_threshold_default config) = true ->
   disable_gate atr config wheelslip = wheelslip)
  /\ (F32.is_nan (accel_diff atr) = true ->
      downhill_damper motor atr = (F32.one, [])).
Proof.
  split.
  - intros H. unfold disable_gate.
    assert (E : F32.gtb (accel_diff atr) (incline_threshold_default config)
                = false
                /\ F32.ltb (accel_diff atr)
                     (F32.opp (incline_threshold_default config)) = false).
    { destruct H as [H|H].
      - destruct (accel_diff atr); try discriminate.
        unfold F32.gtb. now rewrite ltb_nan_l, ltb_nan_r.
      - destruct (incline_threshold_default config); try discriminate.
        unfold F32.gtb. cbn [F32.opp SFopp].
        now rewrite ltb_nan_l, ltb_nan_r. }
    destruct E as [-> ->]. now rewrite !orb_false_r.
  - intros H. unfold downhill_damper, downhill.
    destruct (accel_diff atr); try discriminate.
    rewrite ltb_nan_l. unfold F32.gtb. rewrite ltb_nan_r.
    now rewrite !andb_false_r.
Qed.

End Hold.

Section Legacy.

Variable sign : float -> Z.
Variable rate_limitf : float -> float -> float -> float.

Local Abbreviation update := (brake_tilt_update sign rate_limitf).
Local Abbreviation update_ptr := (brake_tilt_update_ptr sign rate_limitf).
Local Abbreviation legacy := (brake_tilt_update_legacy sign rate_limitf).

(** ** The update through a pointer to the IMU *)

Lemma update_unfold bt motor atr config balance_offset imu dt wheelslip :
  update bt motor atr config balance_offset imu dt wheelslip
  = if disable_gate atr config wheelslip then disable bt
    else
      let b := hold_tilt_trigger
                 (pitch_drop_window
                    (fst (brake_tilt_target sign bt motor atr balance_offset))
                    config imu dt wheelslip) config in
      if hold_tilt_active b then hold_tilt_behavior b imu
      else fst (brake_tilt_step rate_limitf b motor atr config).
Proof.
  unfold brake_tilt_update, brake_tilt_update_logged.
  destruct (disable_gate atr config wheelslip); [reflexivity|].
  rewrite bind_fst. unfold update_detect. rewrite bind_fst.
  cbn [ret fst]. cbv zeta.
  now destruct (hold_tilt_active _).
Qed.

(** With an IMU behind the pointer the call is [brake_tilt_update]. *)
Lemma update_ptr_some bt motor atr config balance_offset imu dt wheelslip :
  update_ptr bt motor atr config balance_offset (Some imu) dt wheelslip
  = Some (update bt motor atr config balance_offset imu dt wheelslip).
Proof.
  rewrite update_unfold. unfold brake_tilt_update_ptr.
  destruct (disable_gate atr config wheelslip); [reflexivity|].
  set (t := fst (brake_tilt_target sign bt motor atr balance_offset)).
  assert (W : pitch_drop_window_ptr t config (Some imu) dt wheelslip
              = Some (pitch_drop_window t config imu dt wheelslip)).
  { unfold pitch_drop_window_ptr, pitch_drop_window, deref.
    destruct (monitoring t config wheelslip); [|reflexivity].
    now destruct (F32.leb _ _). }
  rewrite W. cbv zeta.
  set (b := hold_tilt_trigger _ config).
  destruct (hold_tilt_active b); [|reflexivity].
  unfold hold_tilt_behavior_ptr, hold_tilt_behavior, deref. cbv zeta.
  now destruct (_ <=? 0).
Qed.

(** The call with a null IMU, when the monitoring condition of line 99 is
    false and hold-tilt is inactive. *)
Lemma update_ptr_idle bt motor atr config balance_offset imu dt :
  disable_gate atr config false = false ->
  hold_tilt_active bt = false ->
  F32.gtb
    (F32.abs (target (fst (brake_tilt_target sign bt motor atr
                             balance_offset))))
    (hold_tilt_min_target config) = false ->
  let s := update bt motor atr config balance_offset imu dt false in
  legacy bt motor atr config balance_offset = Some s
  /\ hold_tilt_active s = false
  /\ pitch_timer s = F32.zero
  /\ hold_tilt_pitch_drop_detected s = 0.
Proof.
  intros G A M s. subst s. rewrite update_unfold.
  unfold brake_tilt_update_legacy, brake_tilt_update_ptr. rewrite G.
  destruct (brake_tilt_target_frame sign bt motor atr balance_offset)
    as [t E].
  rewrite E in *. clear E.
  destruct bt as [f t0 s0 a v c pt pa d].
  cbn [hold_tilt_active] in A. subst a.
  cbn [set_target target] in M.
  unfold pitch_drop_window_ptr, pitch_drop_window, monitoring.
  cbn [set_target hold_tilt_active target]. rewrite M.
  cbn [negb andb]. cbv zeta.
  unfold hold_tilt_trigger.
  cbn [set_pitch_drop_detected set_pitch_timer hold_tilt_active
       hold_tilt_pitch_drop_detected negb andb Z.eqb].
  unfold brake_tilt_step. rewrite bind_fst. cbn [ret fst].
  cbn [set_setpoint hold_tilt_active pitch_timer
       hold_tilt_pitch_drop_detected].
  auto.
Qed.

(** The two ways of the call with a null IMU once the gate is passed. *)
Lemma legacy_cases bt motor atr config balance_offset :
  disable_gate atr config false = false ->
  let m := F32.gtb
             (F32.abs (target (fst (brake_tilt_target sign bt motor atr
                                      balance_offset))))
             (hold_tilt_min_target config) in
  (legacy bt motor atr config balance_offset = None
   /\ (hold_tilt_active bt = true \/ m = true))
  \/ (hold_tilt_active bt = false /\ m = false
      /\ forall imu dt,
           let s := update bt motor atr config balance_offset imu dt false in
           legacy bt motor atr config balance_offset = Some s
           /\ hold_tilt_active s = false
           /\ pitch_timer s = F32.zero
           /\ hold_tilt_pitch_drop_detected s = 0).
Proof.
  intros G m.
  destruct (hold_tilt_active bt) eqn:A.
  - left. split; [|auto].
    unfold brake_tilt_update_legacy, brake_tilt_update_ptr. rewrite G.
    destruct (brake_tilt_target_frame sign bt motor atr balance_offset)
      as [t ->].
    destruct bt as [f t0 s0 a v c pt pa d].
    cbn [hold_tilt_active] in A. subst a.
    unfold pitch_drop_window_ptr, monitoring.
    cbn [set_target hold_tilt_active negb andb].
    cbv zeta. unfold hold_tilt_trigger.
    cbn [set_pitch_drop_detected set_pitch_timer hold_tilt_active negb andb].
    reflexivity.
  - destruct m eqn:M; subst m.
    + left. split; [|auto].
      unfold brake_tilt_update_legacy, brake_tilt_update_ptr. rewrite G.
      destruct (brake_tilt_target_frame sign bt motor atr balance_offset)
        as [t E].
      rewrite E in *. clear E.
      destruct bt as [f t0 s0 a v c pt pa d].
      cbn [hold_tilt_active] in A. subst a.
      cbn [set_target target] in M.
      unfold pitch_drop_window_ptr, monitoring.
      cbn [set_target hold_tilt_active target]. rewrite M.
      cbn [negb andb deref].
      now destruct (F32.leb _ _).
    + right. split; [reflexivity|]. split; [reflexivity|].
      intros imu dt. now apply update_ptr_idle.
Qed.

(** X10: [brake_tilt_update_legacy] passes a null IMU.  The call
    dereferences it, at line 102, 106 or 130, exactly when the incline gate
    is passed and either hold-tilt is active or the magnitude of the target
    of lines 77-96 exceeds [hold_tilt_min_target]. *)
Theorem legacy_null_dereference bt motor atr config balance_offset :
  legacy bt motor atr config balance_offset = None
  <-> disable_gate atr config false = false
      /\ (hold_tilt_active bt = true
          \/ F32.gtb
               (F32.abs (target (fst (brake_tilt_target sign bt motor atr
                                        balance_offset))))
               (hold_tilt_min_target config) = true).
Proof.
  destruct (disable_gate atr config false) eqn:G.
  { unfold brake_tilt_update_legacy, brake_tilt_update_ptr. rewrite G.
    split; [discriminate|]. intros [? _]. discriminate. }
  destruct (legacy_cases bt motor atr config balance_offset G)
    as [[N H]|(A & M & I)].
  - split; auto.
  - destruct (I (mkIMU F32.zero F32.zero) F32.zero) as (E & _).
    rewrite E. split; [discriminate|].
    intros [_ [H|H]]; congruence.
Qed.

(** X11: when [brake_tilt_update_legacy] does not dereference the null IMU,
    its result is the one of [brake_tilt_update] with any IMU and any time
    step and no wheelslip; it leaves hold-tilt inactive, and when the gate
    is passed the pitch-drop window is closed and the latch clear. *)
Theorem legacy_defined bt motor atr config balance_offset s :
  legacy bt motor atr config balance_offset = Some s ->
  (forall imu dt,
      update bt motor atr config balance_offset imu dt false = s)
  /\ hold_tilt_active s = false
  /\ (disable_gate atr config false = false ->
      pitch_timer s = F32.zero /\ hold_tilt_pitch_drop_detected s = 0).
Proof.
  intros L.
  destruct (disable_gate atr config false) eqn:G.
  { unfold brake_tilt_update_legacy, brake_tilt_update_ptr in L.
    rewrite G in L. injection L as <-.
    split; [|split].
    - intros imu dt. rewrite update_unfold, G. reflexivity.
    - apply disable_hold.
    - discriminate. }
  destruct (legacy_cases bt motor atr config balance_offset G)
    as [[N _]|(_ & _ & I)].
  - congruence.
  - split; [|split].
    + intros imu dt. destruct (I imu dt) as (E & _). congruence.
    + destruct (I (mkIMU F32.zero F32.zero) F32.zero) as (E & H & _).
      congruence.
    + intros _.
      destruct (I (mkIMU F32.zero F32.zero) F32.zero) as (E & _ & T & D).
      split; congruence.
Qed.

End Legacy.

(** ** Signs *)

Lemma ltb_zero_strict (x : float) :
  F32.ltb F32.zero x = true <-> strict_sign x = Some false.
Proof.
  destruct x as [s|[|]| |[|] m e]; cbn; split; congruence.
Qed.

Lemma ltb_strict_zero (x : float) :
  F32.ltb x F32.zero = true <-> strict_sign x = Some true.
Proof.
  destruct x as [s|[|]| |[|] m e]; cbn; split; congruence.
Qed.

Lemma strict_sign_bit (x : float) (s : bool) :
  strict_sign x = Some s -> sign_bit x = Some s.
Proof. destruct x; cbn; congruence. Qed.

Lemma pack_sign (sx : bool) (m e : Z) :
  0 <= m -> sign_bit (pack sx m e) = Some sx.
Proof.
  intros P. destruct m as [|p|p]; cbn; try lia; [reflexivity|].
  now destruct (e <=? 104).
Qed.

Lemma binary_round_aux_sign (sx : bool) (mx ex : Z) (lx : location) :
  0 <= mx ->
  sign_bit (binary_round_aux F32.prec F32.emax sx mx ex lx) = Some sx.
Proof.
  intros P.
  destruct (binary_round_aux_spec sx mx ex lx P) as (m2 & R & _ & ->).
  apply pack_sign. apply Z.div_pos; [|apply Z.pow_pos_nonneg; lia].
  assert (0 <= mx / 2 ^ Z.max 0 (fexp32 (Zdigits2 mx + ex) - ex)).
  { apply Z.div_pos; [assumption|apply Z.pow_pos_nonneg; lia]. }
  lia.
Qed.

(** The sign of a quotient that compares different from zero: the dividend
    compares different from zero too, and the signs multiply. *)
Lemma div_strict_sign (x y : float) (s : bool) :
  strict_sign (F32.div x y) = Some s ->
  exists sx sy,
    strict_sign x = Some sx /\ sign_bit y = Some sy /\ s = xorb sx sy.
Proof.
  destruct x as [sx|sx| |sx mx ex], y as [sy|sy| |sy my ey];
    cbn [F32.div SFdiv strict_sign sign_bit]; try discriminate;
    try (intros [= <-]; exists sx, sy; auto).
  intros H. apply strict_sign_bit in H. exists sx, sy.
  split; [reflexivity|]. split; [reflexivity|].
  revert H. unfold SFdiv_core_binary.
  set (a := match _ - _ - _ with 0 => Zpos mx | Zpos _ => _ | Zneg _ => 0 end).
  assert (A : 0 <= a).
  { subst a. destruct (_ - _ - _); try lia. apply Z.shiftl_nonneg. lia. }
  pose proof (Z.div_pos a (Zpos my) A eq_refl) as Q.
  unfold Z.div in Q. destruct (Z.div_eucl a (Zpos my)) as [q r].
  rewrite binary_round_aux_sign by assumption. congruence.
Qed.

Lemma leb_one_sign (x : float) :
  F32.leb F32.one x = true -> sign_bit x = Some false.
Proof.
  destruct x as [s|[|]| |[|] m e]; cbn; try congruence; discriminate.
Qed.

Section Direction.

Variable sign : float -> Z.
Variable rate_limitf : float -> float -> float -> float.

Local Abbreviation tick_update := (tick_update sign rate_limitf).

Lemma tick_target_strict bt tk s :
  sign (tk_balance_offset tk) <> erpm_sign (tk_motor tk) ->
  strict_sign (tick_target sign bt tk) = Some s ->
  strict_sign (tk_balance_offset tk) = Some (negb s).
Proof.
  intros NS. unfold tick_target, brake_tilt_target.
  destruct (braking_condition bt (tk_motor tk)) eqn:B; [|discriminate].
  apply Z.eqb_neq in NS. rewrite NS. cbn [negb].
  rewrite !bind_fst. cbn [fdiv fst].
  pose proof (downhill_damper_ge_one (tk_motor tk) (tk_atr tk)) as D.
  apply leb_one_sign in D.
  destruct (F32.gtb _ F32.two); cbn [ret fst set_target target];
    [discriminate|].
  intros H.
  apply div_strict_sign in H. destruct H as (sq & sd & Hq & Hd & ->).
  apply div_strict_sign in Hq. destruct Hq as (sb & sf & Hb & Hf & ->).
  unfold braking_condition in B.
  apply andb_prop in B. destruct B as [B _].
  apply andb_prop in B. destruct B as [B _].
  apply ltb_strict_zero, strict_sign_bit in B.
  rewrite Hb. f_equal.
  assert (sd = false) by congruence. assert (sf = true) by congruence.
  subst. now destruct sb.
Qed.

(** X12: the target opposes the balance offset.  When the sign of the
    balance offset differs from the direction sign of the motor, the target
    after the call is above zero only for a balance offset below zero, and
    below zero only for a balance offset above zero. *)
Theorem target_opposes_offset bt tk :
  sign (tk_balance_offset tk) <> erpm_sign (tk_motor tk) ->
  let t := target (tick_update bt tk) in
  (F32.ltb F32.zero t = true ->
   F32.ltb (tk_balance_offset tk) F32.zero = true)
  /\ (F32.ltb t F32.zero = true ->
      F32.ltb F32.zero (tk_balance_offset tk) = true).
Proof.
  intros NS t. subst t. rewrite tick_update_target_any.
  destruct (passes_gate tk).
  - split; intros H.
    + apply ltb_zero_strict in H. apply ltb_strict_zero.
      now apply (tick_target_strict bt tk false).
    + apply ltb_strict_zero in H. apply ltb_zero_strict.
      now apply (tick_target_strict bt tk true).
  - split; discriminate.
Qed.

End Direction.

(** ** Opposites and comparisons *)

Lemma compare_opp (x y : float) :
  SFcompare (F32.opp y) (F32.opp x) = SFcompare x y.
Proof.
  destruct x as [sx|sx| |sx mx ex], y as [sy|sy| |sy my ey];
    cbn [F32.opp SFopp SFcompare negb]; try reflexivity;
    try (now destruct sx); try (now destruct sy);
    try (now destruct sx, sy).
  destruct sx, sy; cbn [negb]; try reflexivity.
  - rewrite (Z.compare_antisym ex ey).
    destruct (ex ?= ey); cbn [CompOpp]; try reflexivity.
    now rewrite compare_cont_antisym.
  - rewrite (Z.compare_antisym ex ey).
    destruct (ex ?= ey); cbn [CompOpp]; try reflexivity.
    rewrite (compare_cont_antisym my mx).
    now destruct (Pos.compare_cont Eq my mx).
Qed.

Lemma leb_opp (x y : float) :
  F32.leb x y = true -> F32.leb (F32.opp y) (F32.opp x) = true.
Proof.
  unfold F32.leb, SFleb. now rewrite compare_opp.
Qed.

(** ** Wind-down keeps signs *)

Lemma mul_scale_class (x : float) (mc : positive) :
  8388608 <= Zpos mc <= 16693330 ->
  F32.valid x = true ->
  let r := F32.mul x (S754_finite false mc (-24)) in
  F32.valid r = true
  /\ sign_bit r = sign_bit x
  /\ is_finite r = is_finite x
  /\ (is_finite x = false -> r = x)
  /\ (F32.eqb x F32.zero = true -> r = x).
Proof.
  intros C V r. subst r.
  destruct x as [s|s| |s m e].
  - cbn. rewrite xorb_false_r. repeat split; auto.
  - cbn. rewrite xorb_false_r. repeat split; auto; discriminate.
  - cbn. repeat split; auto.
  - destruct (mul_scale s m mc e V C) as (V' & [E|[(m' & E & _)|(m' & E & _)]]);
      rewrite E in *; cbn [sign_bit is_finite]; repeat split; auto;
      try discriminate.
    + destruct s; discriminate.
    + destruct s; discriminate.
    + destruct s; discriminate.
Qed.

Lemma winddown_class (bt : BrakeTilt) :
  F32.valid (setpoint bt) = true -> F32.valid (target bt) = true ->
  let b := brake_tilt_winddown bt in
  (F32.valid (setpoint b) = true /\ F32.valid (target b) = true)
  /\ (sign_bit (setpoint b) = sign_bit (setpoint bt)
      /\ is_finite (setpoint b) = is_finite (setpoint bt)
      /\ (is_finite (setpoint bt) = false -> setpoint b = setpoint bt)
      /\ (F32.eqb (setpoint bt) F32.zero = true -> setpoint b = setpoint bt))
  /\ (sign_bit (target b) = sign_bit (target bt)
      /\ is_finite (target b) = is_finite (target bt)
      /\ (is_finite (target bt) = false -> target b = target bt)
      /\ (F32.eqb (target bt) F32.zero = true -> target b = target bt)).
Proof.
  intros VS VT b. subst b.
  destruct (winddown_fields bt) as (-> & -> & _).
  destruct (mul_scale_class (setpoint bt) 16693330) as (V1 & R1); auto;
    [lia|].
  destruct (mul_scale_class (target bt) 16609444) as (V2 & R2); auto.
  lia.
Qed.

(** X13: over any number of calls of [brake_tilt_winddown] on well-formed
    numbers, setpoint and target keep their sign bit; a finite value stays
    finite, a zero stays the same zero, and an infinite or NaN value is
    left as it is: the wind-down never brings it back to 0. *)
Theorem winddown_keeps_sign (bt : BrakeTilt) (n : nat) :
  F32.valid (setpoint bt) = true ->
  F32.valid (target bt) = true ->
  let b := winddown_n n bt in
  (sign_bit (setpoint b) = sign_bit (setpoint bt)
   /\ is_finite (setpoint b) = is_finite (setpoint bt)
   /\ (is_finite (setpoint bt) = false -> setpoint b = setpoint bt)
   /\ (F32.eqb (setpoint bt) F32.zero = true -> setpoint b = setpoint bt))
  /\ (sign_bit (target b) = sign_bit (target bt)
      /\ is_finite (target b) = is_finite (target bt)
      /\ (is_finite (target bt) = false -> target b = target bt)
      /\ (F32.eqb (target bt) F32.zero = true -> target b = target bt)).
Proof.
  intros VS VT b. subst b.
  assert (K : (F32.valid (setpoint (winddown_n n bt)) = true
               /\ F32.valid (target (winddown_n n bt)) = true)
              /\ (sign_bit (setpoint (winddown_n n bt))
                  = sign_bit (setpoint bt)
                  /\ is_finite (setpoint (winddown_n n bt))
                     = is_finite (setpoint bt)
                  /\ (is_finite (setpoint bt) = false ->
                      setpoint (winddown_n n bt) = setpoint bt)
                  /\ (F32.eqb (setpoint bt) F32.zero = true ->
                      setpoint (winddown_n n bt) = setpoint bt))
              /\ (sign_bit (target (winddown_n n bt))
                  = sign_bit (target bt)
                  /\ is_finite (target (winddown_n n bt))
                     = is_finite (target bt)
                  /\ (is_finite (target bt) = false ->
                      target (winddown_n n bt) = target bt)
                  /\ (F32.eqb (target bt) F32.zero = true ->
                      target (winddown_n n bt) = target bt))).
  { induction n as [|n IH]; [cbn; auto 10|].
    change (winddown_n (S n) bt)
      with (brake_tilt_winddown (winddown_n n bt)).
    destruct IH as ((V1 & V2) & (S1 & F1 & I1 & Z1) & (S2 & F2 & I2 & Z2)).
    destruct (winddown_class (winddown_n n bt) V1 V2)
      as (V' & (S1' & F1' & I1' & Z1') & (S2' & F2' & I2' & Z2')).
    split; [exact V'|]. split.
    - split; [congruence|]. split; [congruence|]. split.
      + intros H. rewrite I1', I1; auto. congruence.
      + intros H. rewrite Z1', Z1; auto. rewrite Z1; auto.
    - split; [congruence|]. split; [congruence|]. split.
      + intros H. rewrite I2', I2; auto. congruence.
      + intros H. rewrite Z2', Z2; auto. rewrite Z2; auto. }
  apply K.
Qed.

(** ** Adding a number that is zero or above *)

Lemma leb_refl (x : float) : F32.is_nan x = false -> F32.leb x x = true.
Proof.
  unfold F32.leb, SFleb.
  destruct x as [s|[|]| |[|] m e]; cbn [F32.is_nan SFcompare];
    try reflexivity; try discriminate; intros _.
  - now rewrite Z.compare_refl, Pos.compare_cont_refl.
  - now rewrite Z.compare_refl, Pos.compare_cont_refl.
Qed.

Lemma leb_negative_nonneg (m : positive) (e : Z) (r : float) :
  nonneg r = true -> SFleb (S754_finite true m e) r = true.
Proof. destruct r as [s|[|]| |[|] m' e']; cbn; congruence. Qed.

Lemma leb_zero_nonneg (s : bool) (r : float) :
  nonneg r = true -> SFleb (S754_zero s) r = true.
Proof. destruct r as [s'|[|]| |[|] m' e']; cbn; congruence. Qed.

Lemma fexp32_mono (a b : Z) : a <= b -> fexp32 a <= fexp32 b.
Proof. unfold fexp32. lia. Qed.

Lemma Zdigits2_shift (p n : Z) :
  0 < p -> 0 <= n -> Zdigits2 (p * 2 ^ n) = Zdigits2 p + n.
Proof.
  intros P N.
  destruct (Zdigits2_bounds p P) as [L U].
  pose proof (Zdigits2_pos p P) as D.
  assert (PN : 0 < 2 ^ n) by (apply Z.pow_pos_nonneg; lia).
  assert (Zdigits2 (p * 2 ^ n) <= Zdigits2 p + n).
  { apply Zdigits2_le; [nia|]. rewrite Z.pow_add_r by lia. nia. }
  assert (Zdigits2 p + n - 1 < Zdigits2 (p * 2 ^ n)).
  { apply Zdigits2_gt; [lia|].
    replace (Zdigits2 p + n - 1) with (Zdigits2 p - 1 + n) by lia.
    rewrite Z.pow_add_r by lia. nia. }
  lia.
Qed.

(** The second half of the rounding, above a canonical number. *)
Lemma round_tail_above (mv : positive) (ev e1 m2 : Z) :
  bounded F32.prec F32.emax mv ev = true ->
  ev <= e1 ->
  (ev = e1 -> Zpos mv <= m2) ->
  (ev < e1 -> 8388608 <= m2) ->
  m2 <= 16777216 ->
  SFleb (S754_finite false mv ev)
    (pack false
       (m2 / 2 ^ Z.max 0 (fexp32 (Zdigits2 m2 + e1) - e1))
       (e1 + Z.max 0 (fexp32 (Zdigits2 m2 + e1) - e1))) = true.
Proof.
  intros B E HE HL U. destruct (bounded_spec mv ev B) as [Can EM].
  assert (EV : -149 <= ev) by (unfold fexp32 in Can; lia).
  assert (P : 0 < m2) by lia.
  unfold SFleb.
  destruct (Z.eq_dec m2 16777216) as [->|N].
  - change (Zdigits2 16777216) with 25.
    replace (Z.max 0 (fexp32 (25 + e1) - e1)) with 1
      by (unfold fexp32; lia).
    change (16777216 / 2 ^ 1) with (Zpos 8388608). unfold pack.
    destruct (e1 + 1 <=? 104); [|reflexivity].
    cbn [SFcompare]. now replace (ev ?= e1 + 1) with Lt
      by (symmetry; apply Z.compare_lt_iff; lia).
  - assert (D2 : Zdigits2 m2 <= 24)
      by (apply Zdigits2_le; [lia|change (2 ^ 24) with 16777216; lia]).
    replace (Z.max 0 (fexp32 (Zdigits2 m2 + e1) - e1)) with 0
      by (unfold fexp32; lia).
    rewrite Z.div_1_r, Z.add_0_r.
    destruct (to_pos m2 P) as [p ->]. unfold pack.
    destruct (e1 <=? 104); [|reflexivity].
    cbn [SFcompare]. destruct (Z.compare_spec ev e1); try lia;
      try reflexivity.
    rewrite compare_cont_Z.
    destruct (Z.compare_spec (Zpos mv) (Zpos p)); try reflexivity. lia.
Qed.

(** Rounding a sum that is not below a canonical number gives a number
    that is not below it. *)
Lemma round_sum_above (mv : positive) (ev : Z) (s : positive) (ez : Z) :
  bounded F32.prec F32.emax mv ev = true ->
  ez <= ev ->
  Zpos mv * 2 ^ (ev - ez) <= Zpos s ->
  SFleb (S754_finite false mv ev)
    (binary_round F32.prec F32.emax false s ez) = true.
Proof.
  intros B E S. destruct (bounded_spec mv ev B) as [Can EM].
  assert (EV : -149 <= ev) by (unfold fexp32 in Can; lia).
  assert (PK : 0 < 2 ^ (ev - ez)) by (apply Z.pow_pos_nonneg; lia).
  destruct (Zdigits2_bounds (Zpos mv) eq_refl) as [LV UV].
  pose proof (Zdigits2_pos (Zpos mv) eq_refl) as DV.
  assert (DS : Zdigits2 (Zpos mv) + (ev - ez) <= Zdigits2 (Zpos s)).
  { assert (Zdigits2 (Zpos mv) - 1 + (ev - ez) < Zdigits2 (Zpos s)).
    { apply Zdigits2_gt; [lia|]. rewrite Z.pow_add_r by lia. nia. }
    lia. }
  set (e' := fexp32 (Zdigits2 (Zpos s) + ez)).
  assert (E' : ev <= e').
  { subst e'. rewrite <- Can. apply fexp32_mono. lia. }
  unfold binary_round. rewrite fexp_eq.
  change (Zpos (digits2_pos s)) with (Zdigits2 (Zpos s)). fold e'.
  unfold shl_align.
  destruct (e' - ez) as [|d|d] eqn:K; try lia.
  all: destruct (binary_round_aux_spec false (Zpos s) ez loc_Exact)
    as (m2 & R & X & Q); [lia|]; cbv zeta in Q; rewrite Q; clear Q.
  all: fold e' in R, X |- *.
  all: replace (Z.max 0 (e' - ez)) with (e' - ez) in * by lia.
  all: replace (ez + (e' - ez)) with e' by lia.
  all: assert (PK' : 0 < 2 ^ (e' - ez)) by (apply Z.pow_pos_nonneg; lia).
  all: destruct (Zdigits2_bounds (Zpos s) eq_refl) as [LS US].
  all: assert (HU : Zpos s / 2 ^ (e' - ez) < 16777216)
    by (apply Z.div_lt_upper_bound; [lia|];
        change 16777216 with (2 ^ 24); rewrite <- Z.pow_add_r by lia;
        assert (2 ^ Zdigits2 (Zpos s) <= 2 ^ (e' - ez + 24))
          by (apply Z.pow_le_mono_r; unfold e', fexp32; lia);
        lia).
  all: apply round_tail_above; auto; try lia.
  all: try (intros <-; apply Z.le_trans with (Zpos s / 2 ^ (ev - ez));
            [apply Z.div_le_lower_bound; lia|lia]).
  all: intros LT;
    assert (F : e' = Zdigits2 (Zpos s) + ez - 24)
      by (unfold e', fexp32 in *; lia);
    assert (Q : 8388608 <= Zpos s / 2 ^ (Zdigits2 (Zpos s) - 24))
      by (apply div_pow_digits; lia);
    replace (e' - ez) with (Zdigits2 (Zpos s) - 24) in * by lia; lia.
Qed.

(** Rounding the magnitude of a difference that is below the magnitude of a
    canonical negative number gives a number that is not below it. *)
Lemma round_diff_below (mv : positive) (ev : Z) (p : positive) (ez : Z) :
  bounded F32.prec F32.emax mv ev = true ->
  ez <= ev ->
  Zpos p < Zpos mv * 2 ^ (ev - ez) ->
  SFleb (S754_finite true mv ev)
    (binary_round F32.prec F32.emax true p ez) = true.
Proof.
  intros B E S. destruct (bounded_spec mv ev B) as [Can EM].
  assert (EV : -149 <= ev) by (unfold fexp32 in Can; lia).
  assert (PK : 0 < 2 ^ (ev - ez)) by (apply Z.pow_pos_nonneg; lia).
  destruct (Zdigits2_bounds (Zpos mv) eq_refl) as [LV UV].
  pose proof (Zdigits2_pos (Zpos mv) eq_refl) as DV.
  pose proof (Zdigits2_pos (Zpos p) eq_refl) as DP.
  assert (DS : Zdigits2 (Zpos p) <= Zdigits2 (Zpos mv) + (ev - ez)).
  { apply Zdigits2_le; [lia|]. rewrite Z.pow_add_r by lia. nia. }
  set (e' := fexp32 (Zdigits2 (Zpos p) + ez)).
  assert (E' : e' <= ev).
  { subst e'. rewrite <- Can. apply fexp32_mono. lia. }
  assert (E'' : -149 <= e') by (unfold e', fexp32; lia).
  unfold binary_round. rewrite fexp_eq.
  change (Zpos (digits2_pos p)) with (Zdigits2 (Zpos p)). fold e'.
  destruct (Z_lt_le_dec e' ez) as [SH|NS].
  - (* the mantissa is shifted to the canonical exponent: exact *)
    destruct (shl_align_spec p ez e') as [A A']; [lia|].
    destruct (shl_align p ez e') as [mz ez']. cbn [fst snd] in A, A'.
    subst ez'.
    assert (PN : 0 < 2 ^ (ez - e')) by (apply Z.pow_pos_nonneg; lia).
    assert (DZ : Zdigits2 (Zpos mz) + e' = Zdigits2 (Zpos p) + ez).
    { rewrite A, Zdigits2_shift by lia. lia. }
    destruct (binary_round_aux_spec true (Zpos mz) e' loc_Exact)
      as (m2 & R & X & Q); [lia|]. cbv zeta in Q. rewrite Q. clear Q.
    rewrite DZ in *. fold e' in R, X |- *.
    replace (Z.max 0 (e' - e')) with 0 in * by lia.
    rewrite (X eq_refl eq_refl). rewrite Z.add_0_r, DZ. fold e'.
    replace (Z.max 0 (e' - e')) with 0 by lia.
    rewrite Z.div_1_r, Z.add_0_r. unfold pack.
    replace (e' <=? 104) with true by (symmetry; apply Z.leb_le; lia).
    unfold SFleb. cbn [SFcompare].
    destruct (Z.compare_spec ev e'); try lia; reflexivity.
  - unfold shl_align.
    destruct (e' - ez) as [|d|d] eqn:K; try lia.
    all: destruct (binary_round_aux_spec true (Zpos p) ez loc_Exact)
      as (m2 & R & X & Q); [lia|]; cbv zeta in Q; rewrite Q; clear Q.
    all: fold e' in R, X |- *.
    all: replace (Z.max 0 (e' - ez)) with (e' - ez) in * by lia.
    all: replace (ez + (e' - ez)) with e' by lia.
    all: assert (PK' : 0 < 2 ^ (e' - ez))
      by (apply Z.pow_pos_nonneg; lia).
    all: destruct (Zdigits2_bounds (Zpos p) eq_refl) as [LS US].
    all: assert (HL : 0 <= Zpos p / 2 ^ (e' - ez))
      by (apply Z.div_pos; lia).
    all: assert (HU : Zpos p / 2 ^ (e' - ez) < 16777216)
      by (apply Z.div_lt_upper_bound; [lia|];
          change 16777216 with (2 ^ 24); rewrite <- Z.pow_add_r by lia;
          assert (2 ^ Zdigits2 (Zpos p) <= 2 ^ (e' - ez + 24))
            by (apply Z.pow_le_mono_r; unfold e', fexp32; lia);
          lia).
    all: assert (M2 : e' = ev -> m2 <= Zpos mv)
      by (intros EQ; rewrite EQ in *;
          destruct (Z.eq_dec (ev - ez) 0) as [Z0|NZ];
          [rewrite (X eq_refl Z0); rewrite Z0 in S;
           change (2 ^ 0) with 1 in S; lia
          |assert (Zpos p / 2 ^ (ev - ez) < Zpos mv)
             by (apply Z.div_lt_upper_bound; lia); lia]).
    all: assert (MU : Zpos mv < 16777216)
      by (assert (2 ^ Zdigits2 (Zpos mv) <= 2 ^ 24)
            by (apply Z.pow_le_mono_r; unfold fexp32 in Can; lia);
          change (2 ^ 24) with 16777216 in *; lia).
    all: assert (MV : e' < ev -> 8388608 <= Zpos mv)
      by (intros LT;
          assert (DM : Zdigits2 (Zpos mv) = 24)
            by (unfold fexp32 in Can; lia);
          rewrite DM in LV; exact LV).
    all: unfold SFleb.
    all: destruct (Z.eq_dec m2 16777216) as [->|N];
      [change (Zdigits2 16777216) with 25;
       replace (Z.max 0 (fexp32 (25 + e') - e')) with 1
         by (unfold fexp32; lia);
       change (16777216 / 2 ^ 1) with (Zpos 8388608); unfold pack;
       assert (e' < ev)
         by (destruct (Z.eq_dec e' ev) as [EQ|]; [|lia];
             specialize (M2 EQ); lia);
       replace (e' + 1 <=? 104) with true
         by (symmetry; apply Z.leb_le; lia);
       cbn [SFcompare];
       destruct (Z.compare_spec ev (e' + 1)); try lia; try reflexivity;
       rewrite compare_cont_Z;
       destruct (Z.compare_spec (Zpos mv) 8388608); try reflexivity;
       specialize (MV ltac:(lia)); lia|].
    all: destruct (Z.eq_dec m2 0) as [->|NZ]; [reflexivity|].
    all: assert (P2 : 0 < m2) by lia.
    all: assert (D2 : Zdigits2 m2 <= 24)
      by (apply Zdigits2_le; [lia|change (2 ^ 24) with 16777216; lia]).
    all: replace (Z.max 0 (fexp32 (Zdigits2 m2 + e') - e')) with 0
      by (unfold fexp32; lia).
    all: rewrite Z.div_1_r, Z.add_0_r.
    all: destruct (to_pos m2 P2) as [q ->]; unfold pack.
    all: replace (e' <=? 104) with true by (symmetry; apply Z.leb_le; lia).
    all: cbn [SFcompare].
    all: destruct (Z.compare_spec ev e'); try lia; try reflexivity.
    all: rewrite compare_cont_Z.
    all: destruct (Z.compare_spec (Zpos mv) (Zpos q)); try reflexivity.
    all: specialize (M2 ltac:(lia)); lia.
Qed.

(** Adding a number that is zero or above to a well-formed number, neither
    NaN nor minus infinity, does not go below it. *)
Lemma add_nonneg_ge (v h : float) :
  F32.valid v = true ->
  F32.is_nan v = false ->
  v <> S754_infinity true ->
  nonneg h = true ->
  F32.leb v (F32.add v h) = true.
Proof.
  intros V NN NI N. unfold F32.leb, F32.add.
  destruct v as [sv|sv| |sv mv ev]; cbn [F32.is_nan] in NN;
    try discriminate.
  - (* zero *)
    destruct h as [s|s| |s mh eh]; cbn [nonneg] in N; try discriminate.
    + cbn [SFadd]. destruct sv, s; reflexivity.
    + apply negb_true_iff in N. subst s. reflexivity.
    + apply negb_true_iff in N. subst s. reflexivity.
  - (* plus infinity *)
    destruct sv; [congruence|].
    destruct h as [s|s| |s mh eh]; cbn [nonneg] in N; try discriminate;
      try reflexivity.
    apply negb_true_iff in N. now subst s.
  - (* finite *)
    unfold F32.valid in V. cbn [valid_binary] in V.
    destruct h as [s|s| |s mh eh]; cbn [nonneg] in N; try discriminate.
    + cbn [SFadd]. now apply leb_refl.
    + apply negb_true_iff in N. subst s. now destruct sv.
    + apply negb_true_iff in N. subst s. unfold SFadd.
      set (ez := Z.min ev eh).
      destruct (shl_align_spec mv ev ez) as [A _]; [lia|].
      destruct (shl_align_spec mh eh ez) as [A' _]; [lia|].
      assert (PA : 0 < 2 ^ (ev - ez)) by (apply Z.pow_pos_nonneg; lia).
      assert (PB : 0 < 2 ^ (eh - ez)) by (apply Z.pow_pos_nonneg; lia).
      rewrite A, A'. cbn [cond_Zopp].
      destruct sv; cbn [cond_Zopp].
      * destruct (- (Zpos mv * 2 ^ (ev - ez)) + Zpos mh * 2 ^ (eh - ez))
          as [|z|z] eqn:Z; cbn [binary_normalize].
        -- reflexivity.
        -- apply leb_negative_nonneg, binary_round_nonneg.
        -- apply round_diff_below; auto; lia.
      * destruct (Zpos mv * 2 ^ (ev - ez) + Zpos mh * 2 ^ (eh - ez))
          as [|z|z] eqn:Z; cbn [binary_normalize]; try lia.
        apply round_sum_above; auto; lia.
Qed.

(** Comparing two canonical numbers of the same sign compares their
    values. *)
Lemma canonical_lt (ma mb : positive) (ea eb ez : Z) :
  bounded F32.prec F32.emax ma ea = true ->
  bounded F32.prec F32.emax mb eb = true ->
  ez <= ea -> ez <= eb ->
  ea < eb \/ (ea = eb /\ Zpos ma < Zpos mb) ->
  Zpos ma * 2 ^ (ea - ez) < Zpos mb * 2 ^ (eb - ez).
Proof.
  intros BA BB LA LB [L|[-> L]].
  - destruct (bounded_spec ma ea BA) as [CA _].
    destruct (bounded_spec mb eb BB) as [CB _].
    destruct (Zdigits2_bounds (Zpos ma) eq_refl) as [_ UA].
    destruct (Zdigits2_bounds (Zpos mb) eq_refl) as [LB' _].
    assert (DB : Zdigits2 (Zpos mb) = 24) by (unfold fexp32 in *; lia).
    assert (DA : Zdigits2 (Zpos ma) <= 24) by (unfold fexp32 in *; lia).
    rewrite DB in LB'. change (2 ^ (24 - 1)) with 8388608 in LB'.
    assert (Zpos ma < 16777216).
    { assert (2 ^ Zdigits2 (Zpos ma) <= 2 ^ 24)
        by (apply Z.pow_le_mono_r; lia).
      change (2 ^ 24) with 16777216 in *. lia. }
    assert (PA : 0 < 2 ^ (ea - ez)) by (apply Z.pow_pos_nonneg; lia).
    replace (eb - ez) with ((eb - ea - 1) + 1 + (ea - ez)) by lia.
    rewrite !Z.pow_add_r by lia. change (2 ^ 1) with 2.
    assert (PY : 0 < 2 ^ (eb - ea - 1)) by (apply Z.pow_pos_nonneg; lia).
    generalize dependent (2 ^ (ea - ez)). intros X PX.
    generalize dependent (2 ^ (eb - ea - 1)). intros Y PY.
    apply Z.lt_le_trans with (16777216 * X); [nia|].
    apply Z.le_trans with (2 * Zpos mb * X); [nia|].
    assert (2 * Zpos mb * X * 1 <= 2 * Zpos mb * X * Y)
      by (apply Z.mul_le_mono_nonneg_l; nia).
    nia.
  - assert (PA : 0 < 2 ^ (eb - ez)) by (apply Z.pow_pos_nonneg; lia).
    nia.
Qed.

(** The difference of two well-formed numbers is zero or above when the
    second is below the first. *)
Lemma sub_nonneg (v b : float) :
  F32.valid v = true -> F32.valid b = true ->
  F32.ltb b v = true ->
  nonneg (F32.sub v b) = true
  /\ F32.is_nan v = false /\ v <> S754_infinity true.
Proof.
  unfold F32.valid, F32.ltb, SFltb, F32.sub.
  destruct v as [sv|sv| |sv mv ev], b as [sb|sb| |sb mb eb];
    cbn [valid_binary SFcompare SFsub nonneg F32.is_nan];
    intros V B L; try discriminate.
  all: try (lazymatch goal with
            | |- context [binary_normalize] => fail
            | _ => idtac
            end;
            repeat match goal with s : bool |- _ => destruct s end;
            try discriminate; repeat split; try reflexivity;
            congruence).
  split; [|split; congruence].
  apply binary_normalize_nonneg.
  set (ez := Z.min ev eb).
  destruct (shl_align_spec mv ev ez) as [A _]; [lia|].
  destruct (shl_align_spec mb eb ez) as [A' _]; [lia|].
  rewrite A, A'.
  assert (PA : 0 < 2 ^ (ev - ez)) by (apply Z.pow_pos_nonneg; lia).
  assert (PB : 0 < 2 ^ (eb - ez)) by (apply Z.pow_pos_nonneg; lia).
  destruct sb, sv; cbn [cond_Zopp]; try discriminate; try nia.
  + assert (Zpos mv * 2 ^ (ev - ez) < Zpos mb * 2 ^ (eb - ez)).
    { apply canonical_lt; auto; try lia.
      destruct (Z.compare_spec eb ev); try discriminate; [|lia].
      right. split; [lia|]. rewrite compare_cont_Z in L.
      destruct (Z.compare_spec (Zpos mb) (Zpos mv)); try discriminate.
      lia. }
    lia.
  + assert (Zpos mb * 2 ^ (eb - ez) < Zpos mv * 2 ^ (ev - ez)).
    { apply canonical_lt; auto; try lia.
      destruct (Z.compare_spec eb ev); try discriminate; [|lia].
      right. split; [lia|]. rewrite compare_cont_Z in L.
      destruct (Z.compare_spec (Zpos mb) (Zpos mv)); try discriminate.
      lia. }
    lia.
Qed.

Lemma mul_half_nonneg (d : float) :
  nonneg d = true -> nonneg (F32.mul F32.half d) = true.
Proof.
  destruct d as [s|s| |s m e]; cbn [nonneg]; try discriminate;
    intros N; try apply negb_true_iff in N; subst;
    try reflexivity.
  unfold F32.mul, F32.half, SFmul. cbn [xorb].
  now apply binary_round_aux_nonneg.
Qed.

(** ** The setpoint while hold-tilt is active *)

Lemma hold_tilt_behavior_setpoint bt imu :
  setpoint (hold_tilt_behavior bt imu)
  = if F32.ltb (balance_pitch imu) (hold_tilt_value bt) then
      F32.add (hold_tilt_value bt)
        (F32.mul F32.half
           (F32.sub (hold_tilt_value bt) (balance_pitch imu)))
    else hold_tilt_value bt.
Proof.
  unfold hold_tilt_behavior. destruct bt as [f t s a v c pt pa d]; cbn.
  destruct (F32.ltb _ v); cbn; destruct (_ <=? 0); reflexivity.
Qed.

Section HoldSetpoint.

Variable sign : float -> Z.
Variable rate_limitf : float -> float -> float -> float.

Local Abbreviation tick_update := (tick_update sign rate_limitf).

(** X14: a call that executes the hold-tilt behaviour leaves the setpoint
    at the hold-tilt value or above it, for a hold-tilt value and a balance
    pitch that are well-formed numbers, the former not a NaN; the setpoint
    is the hold-tilt value itself unless the balance pitch is below it. *)
Theorem hold_setpoint_not_below bt tk :
  holds sign bt tk = true ->
  let v := hold_tilt_value (tick_update bt tk) in
  sane v = true ->
  F32.valid (balance_pitch (tk_imu tk)) = true ->
  F32.leb v (setpoint (tick_update bt tk)) = true
  /\ (F32.ltb (balance_pitch (tk_imu tk)) v = false ->
      setpoint (tick_update bt tk) = v).
Proof.
  intros H v. subst v.
  destruct (tick_update_cases sign rate_limitf bt tk)
    as [[G _]|[[_ ->]|(_ & D & _)]].
  - apply andb_prop in H. destruct H as [H _]. congruence.
  - destruct (hold_tilt_behavior_hold (tick_detect sign bt tk) (tk_imu tk))
      as (_ & -> & _).
    rewrite hold_tilt_behavior_setpoint.
    generalize (hold_tilt_value (tick_detect sign bt tk)). intros v SV VB.
    unfold sane in SV. apply andb_prop in SV. destruct SV as [V NN].
    apply negb_true_iff in NN.
    destruct (F32.ltb (balance_pitch (tk_imu tk)) v) eqn:L.
    + split; [|discriminate].
      destruct (sub_nonneg v _ V VB L) as (N & _ & NI).
      apply add_nonneg_ge; auto. now apply mul_half_nonneg.
    + split; [now apply leb_refl|reflexivity].
  - apply andb_prop in H. destruct H as [_ H]. congruence.
Qed.

End HoldSetpoint.

(** ** Exact and well-formed roundings *)

Lemma shr_1_exact (m : Z) :
  0 <= m -> m mod 2 = 0 ->
  shr_1 (Build_shr_record m false false)
  = Build_shr_record (m / 2) false false.
Proof.
  intros P D. destruct m as [|[p|p|]|p]; cbn [shr_1 orb]; try lia.
  - reflexivity.
  - exfalso. change (Zpos p~1) with (2 * Zpos p + 1) in D.
    rewrite Z.add_comm, Z.mul_comm, Z.mod_add in D by lia. discriminate.
  - f_equal. change (Zpos p~0) with (2 * Zpos p).
    now rewrite Z.mul_comm, Z.div_mul by lia.
  - discriminate.
Qed.

Lemma iter_shr_1_exact (p : positive) : forall m,
  0 <= m -> m mod 2 ^ Zpos p = 0 ->
  iter_pos shr_1 p (Build_shr_record m false false)
  = Build_shr_record (m / 2 ^ Zpos p) false false.
Proof.
  assert (E : forall q : positive, 0 < 2 ^ Zpos q)
    by (intros; apply Z.pow_pos_nonneg; lia).
  induction p as [p IH|p IH|]; intros m P D; cbn [iter_pos].
  - apply Z.mod_divide in D; [|pose proof (E (p~1)%positive); lia].
    destruct D as [c ->].
    pose proof (E p) as EP.
    assert (C : 0 <= c) by (pose proof (E (p~1)%positive); nia).
    change (Zpos p~1) with (2 * Zpos p + 1).
    replace (2 * Zpos p + 1) with (Zpos p + Zpos p + 1) by lia.
    rewrite !Z.pow_add_r, Z.pow_1_r by lia.
    rewrite shr_1_exact.
    + replace (c * (2 ^ Zpos p * 2 ^ Zpos p * 2) / 2)
        with (c * 2 ^ Zpos p * 2 ^ Zpos p)
        by (replace (c * (2 ^ Zpos p * 2 ^ Zpos p * 2))
              with (c * 2 ^ Zpos p * 2 ^ Zpos p * 2) by ring;
            now rewrite Z.div_mul by lia).
      rewrite IH; [|nia|now rewrite Z.mod_mul by lia].
      rewrite Z.div_mul by lia.
      rewrite IH; [|nia|now rewrite Z.mod_mul by lia].
      rewrite Z.div_mul by lia.
      replace (c * (2 ^ Zpos p * 2 ^ Zpos p * 2))
        with (c * (2 ^ Zpos p * 2 ^ Zpos p * 2)) by ring.
      now rewrite Z.div_mul by nia.
    + nia.
    + replace (c * (2 ^ Zpos p * 2 ^ Zpos p * 2))
        with (c * 2 ^ Zpos p * 2 ^ Zpos p * 2) by ring.
      now rewrite Z.mod_mul by lia.
  - apply Z.mod_divide in D; [|pose proof (E (p~0)%positive); lia].
    destruct D as [c ->].
    pose proof (E p) as EP.
    assert (C : 0 <= c) by (pose proof (E (p~0)%positive); nia).
    change (Zpos p~0) with (2 * Zpos p).
    replace (2 * Zpos p) with (Zpos p + Zpos p) by lia.
    rewrite !Z.pow_add_r by lia.
    replace (c * (2 ^ Zpos p * 2 ^ Zpos p))
      with (c * 2 ^ Zpos p * 2 ^ Zpos p) by ring.
    rewrite IH; [|nia|now rewrite Z.mod_mul by lia].
    rewrite Z.div_mul by lia.
    rewrite IH; [|nia|now rewrite Z.mod_mul by lia].
    rewrite Z.div_mul by lia.
    replace (c * 2 ^ Zpos p * 2 ^ Zpos p)
      with (c * (2 ^ Zpos p * 2 ^ Zpos p)) by ring.
    now rewrite Z.div_mul by nia.
  - change (2 ^ 1) with 2 in *. now apply shr_1_exact.
Qed.

Lemma shr_exact (m e n : Z) :
  0 <= m -> m mod 2 ^ Z.max 0 n = 0 ->
  shr (Build_shr_record m false false) e n
  = (Build_shr_record (m / 2 ^ Z.max 0 n) false false, e + Z.max 0 n).
Proof.
  intros P D. destruct n as [|p|p]; cbn [shr].
  - rewrite Z.max_id. cbn. now rewrite Z.div_1_r, Z.add_0_r.
  - rewrite Z.max_r in * by lia. f_equal. now apply iter_shr_1_exact.
  - rewrite Z.max_l by lia. cbn. now rewrite Z.div_1_r, Z.add_0_r.
Qed.

(** An exact mantissa whose cut bits are zero is rounded to itself. *)
Lemma binary_round_aux_exact (sx : bool) (mx ex : Z) :
  0 <= mx ->
  let k1 := Z.max 0 (fexp32 (Zdigits2 mx + ex) - ex) in
  mx mod 2 ^ k1 = 0 ->
  let m2 := mx / 2 ^ k1 in
  let e1 := ex + k1 in
  let k2 := Z.max 0 (fexp32 (Zdigits2 m2 + e1) - e1) in
  binary_round_aux F32.prec F32.emax sx mx ex loc_Exact
  = pack sx (m2 / 2 ^ k2) (e1 + k2).
Proof.
  intros P k1 D m2 e1 k2.
  unfold binary_round_aux, shr_fexp. rewrite !fexp_eq.
  cbn [shr_record_of_loc]. rewrite (shr_exact mx ex _ P D).
  fold k1. cbn [shr_m loc_of_shr_record round_nearest_even].
  fold m2 e1.
  assert (P2 : 0 <= m2).
  { unfold m2. apply Z.div_pos; [assumption|].
    apply Z.pow_pos_nonneg; lia. }
  pose proof (shr_m_spec (Build_shr_record m2 false false) e1
                (fexp32 (Zdigits2 m2 + e1) - e1) P2) as S2.
  destruct (shr (Build_shr_record m2 false false) e1 _) as [mrs2 e2].
  cbn [fst snd shr_m] in S2. destruct S2 as [-> ->].
  reflexivity.
Qed.

(** The magnitude of a rounded number is the rounding of the magnitude. *)
Lemma abs_binary_round_aux (sx : bool) (mx ex : Z) (lx : location) :
  F32.abs (binary_round_aux F32.prec F32.emax sx mx ex lx)
  = binary_round_aux F32.prec F32.emax false mx ex lx.
Proof.
  unfold binary_round_aux.
  destruct (shr_fexp _ _ mx ex lx) as [mrs1 e1].
  destruct (shr_fexp _ _ _ e1 loc_Exact) as [mrs2 e2].
  destruct (shr_m mrs2); try reflexivity.
  now destruct (_ <=? _).
Qed.

(** The truncated mantissa of a mantissa at or below its canonical
    exponent has at most 24 bits. *)
Lemma truncated_lt (q e' : Z) :
  0 <= q -> e' <= fexp32 (Zdigits2 q + e') ->
  q / 2 ^ (fexp32 (Zdigits2 q + e') - e') < 16777216.
Proof.
  intros Q PA.
  assert (PK : 0 < 2 ^ (fexp32 (Zdigits2 q + e') - e'))
    by (apply Z.pow_pos_nonneg; lia).
  destruct (Z.eq_dec q 0) as [->|NZ]; [now rewrite Z.div_0_l by lia|].
  destruct (Zdigits2_bounds q ltac:(lia)) as [_ U].
  apply Z.div_lt_upper_bound; [lia|].
  change 16777216 with (2 ^ 24). rewrite <- Z.pow_add_r by lia.
  assert (2 ^ Zdigits2 q <= 2 ^ (fexp32 (Zdigits2 q + e') - e' + 24))
    by (apply Z.pow_le_mono_r; unfold fexp32; lia).
  lia.
Qed.

(** Rounding a magnitude that is below a canonical number, or equal to it
    and exact, gives a number that is not above it. *)
Lemma round_aux_le (mB : positive) (eB q e' : Z) (l : location) :
  bounded F32.prec F32.emax mB eB = true ->
  0 <= q -> e' <= fexp32 (Zdigits2 q + e') -> e' <= eB ->
  q < Zpos mB * 2 ^ (eB - e')
  \/ (q = Zpos mB * 2 ^ (eB - e') /\ l = loc_Exact) ->
  SFleb (binary_round_aux F32.prec F32.emax false q e' l)
    (S754_finite false mB eB) = true.
Proof.
  intros B Q PA EB H. destruct (bounded_spec mB eB B) as [Can EM].
  assert (EV : -149 <= eB) by (unfold fexp32 in Can; lia).
  assert (PK : 0 < 2 ^ (eB - e')) by (apply Z.pow_pos_nonneg; lia).
  destruct (Zdigits2_bounds (Zpos mB) eq_refl) as [LV UV].
  pose proof (Zdigits2_pos (Zpos mB) eq_refl) as DV.
  assert (MU : Zpos mB < 16777216).
  { assert (2 ^ Zdigits2 (Zpos mB) <= 2 ^ 24)
      by (apply Z.pow_le_mono_r; unfold fexp32 in Can; lia).
    change (2 ^ 24) with 16777216 in *. lia. }
  destruct H as [LT|[EQ ->]].
  - set (e1 := fexp32 (Zdigits2 q + e')) in *.
    assert (E1 : e1 <= eB).
    { subst e1. rewrite <- Can. apply fexp32_mono.
      destruct (Z.eq_dec q 0) as [->|NZ];
        [change (Zdigits2 0) with 0; lia|].
      assert (Zdigits2 q <= Zdigits2 (Zpos mB) + (eB - e')); [|lia].
      apply Zdigits2_le; [lia|]. rewrite Z.pow_add_r by lia. nia. }
    assert (E1' : -149 <= e1) by (unfold e1, fexp32; lia).
    pose proof (truncated_lt q e' Q PA) as HU. fold e1 in HU.
    destruct (binary_round_aux_spec false q e' l Q) as (m2 & R & _ & ->).
    fold e1 in R |- *.
    replace (Z.max 0 (e1 - e')) with (e1 - e') in * by lia.
    replace (e' + (e1 - e')) with e1 by lia.
    assert (PK' : 0 < 2 ^ (e1 - e')) by (apply Z.pow_pos_nonneg; lia).
    assert (HL : 0 <= q / 2 ^ (e1 - e')) by (apply Z.div_pos; lia).
    assert (M2 : e1 = eB -> m2 <= Zpos mB).
    { intros EQ. rewrite EQ in *.
      assert (q / 2 ^ (eB - e') < Zpos mB)
        by (apply Z.div_lt_upper_bound; lia). lia. }
    assert (MV : e1 < eB -> 8388608 <= Zpos mB).
    { intros L.
      assert (DM : Zdigits2 (Zpos mB) = 24) by (unfold fexp32 in Can; lia).
      rewrite DM in LV. exact LV. }
    unfold SFleb.
    destruct (Z.eq_dec m2 16777216) as [->|N].
    + change (Zdigits2 16777216) with 25.
      replace (Z.max 0 (fexp32 (25 + e1) - e1)) with 1
        by (unfold fexp32; lia).
      change (16777216 / 2 ^ 1) with (Zpos 8388608). unfold pack.
      assert (e1 < eB)
        by (destruct (Z.eq_dec e1 eB) as [EQ|]; [|lia];
            specialize (M2 EQ); lia).
      replace (e1 + 1 <=? 104) with true
        by (symmetry; apply Z.leb_le; lia).
      cbn [SFcompare].
      destruct (Z.compare_spec (e1 + 1) eB); try lia; try reflexivity.
      rewrite compare_cont_Z.
      destruct (Z.compare_spec 8388608 (Zpos mB)); try reflexivity.
      specialize (MV ltac:(lia)). lia.
    + destruct (Z.eq_dec m2 0) as [->|NZ]; [reflexivity|].
      assert (P2 : 0 < m2) by lia.
      assert (D2 : Zdigits2 m2 <= 24)
        by (apply Zdigits2_le; [lia|change (2 ^ 24) with 16777216; lia]).
      replace (Z.max 0 (fexp32 (Zdigits2 m2 + e1) - e1)) with 0
        by (unfold fexp32; lia).
      rewrite Z.div_1_r, Z.add_0_r.
      destruct (to_pos m2 P2) as [p ->]. unfold pack.
      replace (e1 <=? 104) with true by (symmetry; apply Z.leb_le; lia).
      cbn [SFcompare].
      destruct (Z.compare_spec e1 eB); try lia; try reflexivity.
      rewrite compare_cont_Z.
      destruct (Z.compare_spec (Zpos p) (Zpos mB)); try reflexivity.
      specialize (M2 ltac:(lia)). lia.
  - assert (DQ : Zdigits2 q + e' = Zdigits2 (Zpos mB) + eB).
    { rewrite EQ, Zdigits2_shift by lia. lia. }
    pose proof (binary_round_aux_exact false q e' Q) as X.
    cbv zeta in X. rewrite DQ, Can in X.
    replace (Z.max 0 (eB - e')) with (eB - e') in X by lia.
    rewrite X by (rewrite EQ; now rewrite Z.mod_mul by lia).
    rewrite EQ, Z.div_mul by lia.
    replace (e' + (eB - e')) with eB by lia. rewrite Can.
    replace (Z.max 0 (eB - eB)) with 0 by lia.
    rewrite Z.div_1_r, Z.add_0_r. unfold pack.
    replace (eB <=? 104) with true by (symmetry; apply Z.leb_le; lia).
    unfold SFleb. cbn [SFcompare].
    now rewrite Z.compare_refl, Pos.compare_cont_refl.
Qed.

(** A mantissa at or below its canonical exponent is rounded to a
    well-formed number. *)
Lemma binary_round_aux_valid (sx : bool) (mx ex : Z) (lx : location) :
  0 <= mx -> ex <= fexp32 (Zdigits2 mx + ex) ->
  F32.valid (binary_round_aux F32.prec F32.emax sx mx ex lx) = true.
Proof.
  intros P PA.
  pose proof (truncated_lt mx ex P PA) as HU.
  destruct (binary_round_aux_spec sx mx ex lx P) as (m2 & R & _ & ->).
  set (e1 := fexp32 (Zdigits2 mx + ex)) in *.
  replace (Z.max 0 (e1 - ex)) with (e1 - ex) in * by lia.
  replace (ex + (e1 - ex)) with e1 by lia.
  assert (E1 : -149 <= e1) by (unfold e1, fexp32; lia).
  assert (PK : 0 < 2 ^ (e1 - ex)) by (apply Z.pow_pos_nonneg; lia).
  assert (HL : 0 <= mx / 2 ^ (e1 - ex)) by (apply Z.div_pos; lia).
  unfold F32.valid.
  destruct (Z.eq_dec m2 16777216) as [->|N].
  - change (Zdigits2 16777216) with 25.
    replace (Z.max 0 (fexp32 (25 + e1) - e1)) with 1
      by (unfold fexp32; lia).
    change (16777216 / 2 ^ 1) with (Zpos 8388608). unfold pack.
    destruct (e1 + 1 <=? 104) eqn:L; [|reflexivity].
    apply Z.leb_le in L. cbn [valid_binary].
    apply bounded_intro; [|exact L].
    change (Zdigits2 8388608) with 24. unfold fexp32. lia.
  - destruct (Z.eq_dec m2 0) as [->|NZ].
    { rewrite Z.div_0_l by (apply Z.pow_nonzero; lia). reflexivity. }
    assert (P2 : 0 < m2) by lia.
    assert (D2 : Zdigits2 m2 <= 24)
      by (apply Zdigits2_le; [lia|change (2 ^ 24) with 16777216; lia]).
    replace (Z.max 0 (fexp32 (Zdigits2 m2 + e1) - e1)) with 0
      by (unfold fexp32; lia).
    rewrite Z.div_1_r, Z.add_0_r.
    destruct (to_pos m2 P2) as [p ->]. unfold pack.
    destruct (e1 <=? 104) eqn:L; [|reflexivity].
    apply Z.leb_le in L. cbn [valid_binary].
    apply bounded_intro; [|exact L].
    destruct (Z.eq_dec e1 (-149)) as [EQ|NE]; [unfold fexp32; lia|].
    assert (F : e1 = Zdigits2 mx + ex - 24) by (unfold e1, fexp32 in *; lia).
    assert (MX : 0 < mx).
    { destruct (Z.eq_dec mx 0) as [->|]; [|lia]. cbn in F. lia. }
    assert (Q : 8388608 <= mx / 2 ^ (Zdigits2 mx - 24))
      by (apply div_pow_digits; lia).
    replace (e1 - ex) with (Zdigits2 mx - 24) in * by lia.
    assert (23 < Zdigits2 (Zpos p))
      by (apply Zdigits2_gt; [lia|change (2 ^ 23) with 8388608; lia]).
    unfold fexp32. lia.
Qed.

(** ** Division *)

(** The integer division at the heart of [SFdiv]: the quotient [q] of the
    dividend shifted by [s] bits, at an exponent that is at or below its
    canonical one, exact when the remainder is zero. *)
Lemma div_core_spec (mx my : positive) (ex ey : Z) :
  exists q e' l s r,
    SFdiv_core_binary F32.prec F32.emax (Zpos mx) ex (Zpos my) ey
    = (q, e', l)
    /\ 0 <= s /\ e' = ex - ey - s
    /\ e' <= fexp32 (Zdigits2 (Zpos mx) + ex - (Zdigits2 (Zpos my) + ey))
    /\ Zpos mx * 2 ^ s = Zpos my * q + r /\ 0 <= r < Zpos my
    /\ 0 <= q
    /\ (r = 0 -> l = loc_Exact)
    /\ e' <= fexp32 (Zdigits2 q + e').
Proof.
  unfold SFdiv_core_binary. rewrite fexp_eq.
  set (D := Zdigits2 (Zpos mx) + ex - (Zdigits2 (Zpos my) + ey)).
  set (e' := Z.min (fexp32 D) (ex - ey)).
  set (s := ex - ey - e').
  assert (S0 : 0 <= s) by (unfold s, e'; lia).
  assert (E1 : e' <= fexp32 D) by (unfold e'; lia).
  set (m' := match s with
             | 0 => Zpos mx
             | Zpos _ => Z.shiftl (Zpos mx) s
             | Zneg _ => 0
             end).
  assert (M : m' = Zpos mx * 2 ^ s).
  { unfold m'. destruct s as [|p|p] eqn:ES; try lia.
    now rewrite Z.shiftl_mul_pow2 by lia. }
  clearbody m'.
  pose proof (Z_div_mod m' (Zpos my) eq_refl) as DM.
  destruct (Z.div_eucl m' (Zpos my)) as [q r]. destruct DM as [DM R].
  assert (PS : 0 < 2 ^ s) by (apply Z.pow_pos_nonneg; lia).
  assert (Q : 0 <= q) by nia.
  exists q, e', (new_location (Zpos my) r), s, r.
  split; [reflexivity|]. split; [exact S0|]. split; [unfold s; lia|].
  split; [exact E1|]. split; [lia|]. split; [exact R|]. split; [exact Q|].
  split.
  - intros ->. unfold new_location, new_location_even, new_location_odd.
    now destruct (Z.even _).
  - destruct (Zdigits2_bounds (Zpos mx) eq_refl) as [LX UX].
    destruct (Zdigits2_bounds (Zpos my) eq_refl) as [LY UY].
    pose proof (Zdigits2_pos (Zpos mx) eq_refl) as DX.
    pose proof (Zdigits2_pos (Zpos my) eq_refl) as DY.
    set (d1 := Zdigits2 (Zpos mx)) in *. set (d2 := Zdigits2 (Zpos my)) in *.
    destruct (Z.eq_dec q 0) as [->|NZ].
    + change (Zdigits2 0) with 0.
      assert (d1 - 1 + s < d2).
      { apply (Z.pow_lt_mono_r_iff 2); [lia|lia|].
        rewrite Z.pow_add_r by lia. nia. }
      unfold fexp32 in *. lia.
    + assert (d1 + s - d2 <= Zdigits2 q).
      { destruct (Z_lt_le_dec (d1 + s - d2 - 1) 0) as [N|N].
        - pose proof (Zdigits2_pos q ltac:(lia)). lia.
        - assert (d1 + s - d2 - 1 < Zdigits2 q); [|lia].
          apply Zdigits2_gt; [exact N|].
          assert (K : 2 ^ (d1 + s - d2 - 1) * 2 ^ d2 < (q + 1) * 2 ^ d2).
          { rewrite <- Z.pow_add_r by lia.
            replace (d1 + s - d2 - 1 + d2) with (d1 - 1 + s) by lia.
            rewrite Z.pow_add_r by lia. nia. }
          apply Z.mul_lt_mono_pos_r in K; [lia|].
          apply Z.pow_pos_nonneg; lia. }
      apply Z.le_trans with (fexp32 D); [exact E1|].
      apply fexp32_mono. unfold D, s in *. lia.
Qed.

(** The results of the operations on well-formed numbers are
    well-formed. *)
Lemma div_valid (x y : float) :
  F32.valid x = true -> F32.valid y = true -> F32.valid (F32.div x y) = true.
Proof.
  destruct x as [sx|sx| |sx mx ex], y as [sy|sy| |sy my ey];
    try reflexivity.
  intros _ _. unfold F32.div, SFdiv.
  destruct (div_core_spec mx my ex ey)
    as (q & e' & l & s & r & -> & _ & _ & _ & _ & _ & Q & _ & PA).
  now apply binary_round_aux_valid.
Qed.

Lemma binary_round_valid (sx : bool) (p : positive) (e : Z) :
  F32.valid (binary_round F32.prec F32.emax sx p e) = true.
Proof.
  unfold binary_round. rewrite fexp_eq.
  change (Zpos (digits2_pos p)) with (Zdigits2 (Zpos p)).
  set (e' := fexp32 (Zdigits2 (Zpos p) + e)).
  destruct (Z_lt_le_dec e' e) as [SH|NS].
  - destruct (shl_align_spec p e e') as [A A']; [lia|].
    destruct (shl_align p e e') as [mz ez]. cbn [fst snd] in A, A'.
    subst ez. apply binary_round_aux_valid; [lia|].
    rewrite A, Zdigits2_shift by lia.
    replace (Zdigits2 (Zpos p) + (e - e') + e')
      with (Zdigits2 (Zpos p) + e) by lia.
    fold e'. lia.
  - unfold shl_align. destruct (e' - e) as [|d|d] eqn:K; try lia.
    all: apply binary_round_aux_valid; [lia|fold e'; lia].
Qed.

Lemma binary_normalize_valid (z e : Z) (s : bool) :
  F32.valid (binary_normalize F32.prec F32.emax z e s) = true.
Proof.
  destruct z; cbn [binary_normalize]; [reflexivity| |];
    apply binary_round_valid.
Qed.

Lemma add_valid (x y : float) :
  F32.valid x = true -> F32.valid y = true -> F32.valid (F32.add x y) = true.
Proof.
  destruct x as [sx|sx| |sx mx ex], y as [sy|sy| |sy my ey];
    try reflexivity; intros VX VY; unfold F32.add; cbn [SFadd];
    try assumption; try (destruct sx, sy; reflexivity).
  apply binary_normalize_valid.
Qed.

Lemma sub_valid (x y : float) :
  F32.valid x = true -> F32.valid y = true -> F32.valid (F32.sub x y) = true.
Proof.
  destruct x as [sx|sx| |sx mx ex], y as [sy|sy| |sy my ey];
    try reflexivity; intros VX VY; unfold F32.sub; cbn [SFsub];
    try assumption; try (destruct sx, sy; reflexivity).
  apply binary_normalize_valid.
Qed.

Lemma opp_valid (x : float) :
  F32.valid x = true -> F32.valid (F32.opp x) = true.
Proof. now destruct x. Qed.

Lemma abs_valid (x : float) :
  F32.valid x = true -> F32.valid (F32.abs x) = true.
Proof. now destruct x. Qed.

(** Comparing the magnitudes of two canonical numbers compares their
    values. *)
Lemma leb_scaled (ma mb : positive) (ea eb : Z) :
  bounded F32.prec F32.emax ma ea = true ->
  bounded F32.prec F32.emax mb eb = true ->
  SFleb (S754_finite false ma ea) (S754_finite false mb eb) = true ->
  Zpos ma * 2 ^ (ea + 149) <= Zpos mb * 2 ^ (eb + 149).
Proof.
  intros BA BB. unfold SFleb. cbn [SFcompare].
  destruct (bounded_spec ma ea BA) as [CA _].
  destruct (bounded_spec mb eb BB) as [CB _].
  assert (-149 <= ea) by (unfold fexp32 in CA; lia).
  assert (-149 <= eb) by (unfold fexp32 in CB; lia).
  destruct (Z.compare_spec ea eb) as [E|L|G]; try discriminate.
  - subst eb. rewrite compare_cont_Z.
    assert (0 < 2 ^ (ea + 149)) by (apply Z.pow_pos_nonneg; lia).
    destruct (Z.compare_spec (Zpos ma) (Zpos mb)); try discriminate; nia.
  - intros _.
    pose proof (canonical_lt ma mb ea eb (-149) BA BB ltac:(lia) ltac:(lia)
                  (or_introl L)) as K.
    replace (ea - -149) with (ea + 149) in K by lia.
    replace (eb - -149) with (eb + 149) in K by lia. lia.
Qed.

(** Changing the unit on both sides of a comparison. *)
Lemma pow_scale_le (X Y a b a' b' : Z) :
  0 <= a -> 0 <= b -> 0 <= a' -> 0 <= b' -> a - a' = b - b' ->
  X * 2 ^ a <= Y * 2 ^ b -> X * 2 ^ a' <= Y * 2 ^ b'.
Proof.
  intros A B A' B' E H.
  destruct (Z_lt_le_dec (a - a') 0) as [N|N].
  - replace a' with (a + (a' - a)) by lia.
    replace b' with (b + (a' - a)) by lia.
    rewrite !Z.pow_add_r by lia.
    assert (0 < 2 ^ (a' - a)) by (apply Z.pow_pos_nonneg; lia). nia.
  - replace a with (a' + (a - a')) in H by lia.
    replace b with (b' + (a - a')) in H by lia.
    rewrite !Z.pow_add_r in H by lia.
    assert (0 < 2 ^ (a - a')) by (apply Z.pow_pos_nonneg; lia). nia.
Qed.

(** The magnitude of a quotient is at most a canonical number [B] when the
    dividend is at most [B] times the divisor. *)
Lemma div_abs_le (sx sy : bool) (mx my mB : positive) (ex ey eB : Z) :
  bounded F32.prec F32.emax mx ex = true ->
  bounded F32.prec F32.emax my ey = true ->
  bounded F32.prec F32.emax mB eB = true ->
  Zpos mx * 2 ^ (ex + 149) * 2 ^ 149
  <= Zpos mB * 2 ^ (eB + 149) * (Zpos my * 2 ^ (ey + 149)) ->
  SFleb (F32.abs (F32.div (S754_finite sx mx ex) (S754_finite sy my ey)))
    (S754_finite false mB eB) = true.
Proof.
  intros BX BY BB H.
  destruct (bounded_spec mx ex BX) as [CX _].
  destruct (bounded_spec my ey BY) as [CY _].
  destruct (bounded_spec mB eB BB) as [CB _].
  assert (EX : -149 <= ex) by (unfold fexp32 in CX; lia).
  assert (EY : -149 <= ey) by (unfold fexp32 in CY; lia).
  assert (EB : -149 <= eB) by (unfold fexp32 in CB; lia).
  unfold F32.div, SFdiv.
  destruct (div_core_spec mx my ex ey)
    as (q & e' & l & s & r & -> & S0 & E' & ED & DM & R & Q & X & PA).
  rewrite abs_binary_round_aux.
  destruct (Zdigits2_bounds (Zpos mx) eq_refl) as [LX UX].
  destruct (Zdigits2_bounds (Zpos my) eq_refl) as [LY UY].
  destruct (Zdigits2_bounds (Zpos mB) eq_refl) as [LB UB].
  pose proof (Zdigits2_pos (Zpos mx) eq_refl) as DX.
  pose proof (Zdigits2_pos (Zpos my) eq_refl) as DY.
  pose proof (Zdigits2_pos (Zpos mB) eq_refl) as DB.
  set (d1 := Zdigits2 (Zpos mx)) in *. set (d2 := Zdigits2 (Zpos my)) in *.
  set (dB := Zdigits2 (Zpos mB)) in *.
  assert (H' : Zpos mx * 2 ^ (ex + 298)
               <= Zpos mB * Zpos my * 2 ^ (eB + ey + 298)).
  { replace (ex + 298) with (ex + 149 + 149) by lia.
    replace (eB + ey + 298) with (eB + 149 + (ey + 149)) by lia.
    rewrite (Z.pow_add_r 2 (ex + 149) 149) by lia.
    rewrite (Z.pow_add_r 2 (eB + 149) (ey + 149)) by lia.
    replace (Zpos mx * (2 ^ (ex + 149) * 2 ^ 149))
      with (Zpos mx * 2 ^ (ex + 149) * 2 ^ 149) by ring.
    replace (Zpos mB * Zpos my * (2 ^ (eB + 149) * 2 ^ (ey + 149)))
      with (Zpos mB * 2 ^ (eB + 149) * (Zpos my * 2 ^ (ey + 149))) by ring.
    exact H. }
  assert (DD : d1 + ex - (d2 + ey) <= dB + eB).
  { assert (d1 - 1 + (ex + 298) < dB + d2 + (eB + ey + 298)); [|lia].
    apply (Z.pow_lt_mono_r_iff 2); [lia|lia|].
    rewrite (Z.pow_add_r 2 (d1 - 1) (ex + 298)) by lia.
    rewrite (Z.pow_add_r 2 (dB + d2) (eB + ey + 298)) by lia.
    rewrite (Z.pow_add_r 2 dB d2) by lia.
    assert (P1 : 0 < 2 ^ (ex + 298)) by (apply Z.pow_pos_nonneg; lia).
    assert (P2 : 0 < 2 ^ (eB + ey + 298))
      by (apply Z.pow_pos_nonneg; lia).
    assert (K : Zpos mB * Zpos my < 2 ^ dB * 2 ^ d2) by nia.
    apply Z.le_lt_trans with (Zpos mx * 2 ^ (ex + 298));
      [apply Z.mul_le_mono_nonneg_r; lia|].
    apply Z.le_lt_trans with (Zpos mB * Zpos my * 2 ^ (eB + ey + 298));
      [exact H'|].
    apply Z.mul_lt_mono_pos_r; [exact P2|exact K]. }
  assert (EB' : e' <= eB).
  { apply Z.le_trans with (fexp32 (d1 + ex - (d2 + ey))); [exact ED|].
    rewrite <- CB. now apply fexp32_mono. }
  apply round_aux_le; auto.
  assert (V : Zpos mx * 2 ^ s <= Zpos mB * Zpos my * 2 ^ (eB - e')).
  { apply (pow_scale_le (Zpos mx) (Zpos mB * Zpos my) (ex + 298)
             (eB + ey + 298) s (eB - e')); lia || exact H'. }
  assert (PB : 0 < 2 ^ (eB - e')) by (apply Z.pow_pos_nonneg; lia).
  destruct (Z_lt_le_dec q (Zpos mB * 2 ^ (eB - e'))) as [L|G];
    [now left|right].
  assert (q = Zpos mB * 2 ^ (eB - e')) by nia.
  split; [assumption|]. apply X. nia.
Qed.

(** ** The magnitude of the target *)

Lemma leb_nonneg_infinity (r : float) :
  nonneg r = true -> SFleb r (S754_infinity false) = true.
Proof. destruct r as [s|[|]| |[|] m e]; cbn; congruence. Qed.

Lemma abs_div_nonneg (x y : float) :
  F32.is_nan (F32.div x y) = false ->
  nonneg (F32.abs (F32.div x y)) = true.
Proof. apply abs_nonneg. Qed.

(** A quotient of finite numbers by a number other than zero is not a
    NaN. *)
Lemma div_not_nan (x y : float) :
  is_finite x = true -> F32.is_nan y = false -> F32.eqb y F32.zero = false ->
  F32.is_nan (F32.div x y) = false.
Proof.
  destruct x as [sx|sx| |sx mx ex], y as [sy|sy| |sy my ey];
    try discriminate; try reflexivity.
  intros _ _ _. unfold F32.div, SFdiv.
  destruct (div_core_spec mx my ex ey)
    as (q & e' & l & s & r & -> & _ & _ & _ & _ & _ & Q & _ & _).
  destruct (binary_round_aux_spec (xorb sx sy) q e' l Q)
    as (m2 & R & _ & ->).
  assert (0 <= q / 2 ^ Z.max 0 (fexp32 (Zdigits2 q + e') - e'))
    by (apply Z.div_pos; [assumption|apply Z.pow_pos_nonneg; lia]).
  set (k2 := Z.max 0 _).
  assert (P : 0 <= m2 / 2 ^ k2)
    by (apply Z.div_pos; [lia|apply Z.pow_pos_nonneg; lia]).
  unfold pack. destruct (m2 / 2 ^ k2); try lia; [reflexivity|].
  now destruct (_ <=? 104).
Qed.

(** A number that is at least 1. *)
Lemma leb_one_scaled (y : float) :
  F32.valid y = true -> F32.leb F32.one y = true -> is_finite y = true ->
  exists my ey,
    y = S754_finite false my ey
    /\ bounded F32.prec F32.emax my ey = true
    /\ 2 ^ 149 <= Zpos my * 2 ^ (ey + 149).
Proof.
  fold_constants. intros V L F.
  destruct y as [sy|sy| |sy my ey]; try discriminate.
  destruct sy; [discriminate|].
  exists my, ey. split; [reflexivity|]. split; [exact V|].
  apply (leb_scaled 8388608 my (-23) ey) in L; [|reflexivity|exact V].
  exact L.
Qed.

(** Dividing by a finite number that is at least 1 does not increase the
    magnitude. *)
Lemma div_by_ge_one (x y : float) :
  F32.valid x = true -> F32.valid y = true ->
  F32.is_nan x = false ->
  F32.leb F32.one y = true -> is_finite y = true ->
  F32.leb (F32.abs (F32.div x y)) (F32.abs x) = true.
Proof.
  intros VX VY NX L F.
  destruct (leb_one_scaled y VY L F) as (my & ey & -> & BY & SY).
  destruct x as [sx|sx| |sx mx ex]; try discriminate; try reflexivity.
  apply div_abs_le; auto.
  assert (0 < 2 ^ (ex + 149)).
  { apply Z.pow_pos_nonneg; [lia|].
    destruct (bounded_spec mx ex VX) as [C _]. unfold fexp32 in C. lia. }
  nia.
Qed.

(** Twice the magnitude of a well-formed finite number: infinite, or the
    canonical number of twice the value. *)
Lemma mul_two_spec (mx : positive) (ex : Z) :
  bounded F32.prec F32.emax mx ex = true ->
  F32.mul F32.two (S754_finite false mx ex) = S754_infinity false
  \/ exists mB eB,
       F32.mul F32.two (S754_finite false mx ex) = S754_finite false mB eB
       /\ bounded F32.prec F32.emax mB eB = true
       /\ Zpos mB * 2 ^ (eB + 149) = 2 * (Zpos mx * 2 ^ (ex + 149)).
Proof.
  intros B. destruct (bounded_spec mx ex B) as [Can EM].
  assert (EV : -149 <= ex) by (unfold fexp32 in Can; lia).
  pose proof (Zdigits2_pos (Zpos mx) eq_refl) as DX.
  fold_constants. unfold F32.mul, SFmul. cbn [xorb].
  change (Zpos (8388608 * mx)) with (8388608 * Zpos mx).
  replace (8388608 * Zpos mx) with (Zpos mx * 2 ^ 23)
    by (change (2 ^ 23) with 8388608; lia).
  pose proof (binary_round_aux_exact false (Zpos mx * 2 ^ 23) (-22 + ex)
                ltac:(lia)) as X.
  cbv zeta in X. rewrite Zdigits2_shift in X by lia.
  destruct (Z.eq_dec (Zdigits2 (Zpos mx)) 24) as [N|S].
  - (* a normal number *)
    rewrite N in *.
    replace (Z.max 0 (fexp32 (24 + 23 + (-22 + ex)) - (-22 + ex))) with 23
      in X by (unfold fexp32; lia).
    rewrite X by (now rewrite Z.mod_mul by lia). clear X.
    rewrite Z.div_mul by lia. rewrite N.
    replace (Z.max 0 (fexp32 (24 + (-22 + ex + 23)) - (-22 + ex + 23)))
      with 0 by (unfold fexp32; lia).
    rewrite Z.div_1_r, Z.add_0_r. unfold pack.
    destruct (-22 + ex + 23 <=? 104) eqn:L; [right|now left].
    apply Z.leb_le in L. exists mx, (-22 + ex + 23).
    split; [reflexivity|]. split.
    + apply bounded_intro; [|exact L]. rewrite N. unfold fexp32. lia.
    + replace (-22 + ex + 23 + 149) with (1 + (ex + 149)) by lia.
      rewrite Z.pow_add_r by lia. change (2 ^ 1) with 2. lia.
  - (* a subnormal number *)
    assert (D : Zdigits2 (Zpos mx) < 24) by (unfold fexp32 in Can; lia).
    assert (ex = -149) by (unfold fexp32 in Can; lia). subst ex.
    replace (Z.max 0 (fexp32 (Zdigits2 (Zpos mx) + 23 + (-22 + -149))
                      - (-22 + -149))) with 22
      in X by (unfold fexp32; lia).
    assert (M : Zpos mx * 2 ^ 23 = Zpos (mx~0) * 2 ^ 22).
    { change (Zpos mx~0) with (2 * Zpos mx).
      change (2 ^ 23) with (2 * 2 ^ 22). lia. }
    rewrite M in *.
    rewrite X by (now rewrite Z.mod_mul by lia). clear X.
    rewrite Z.div_mul by lia.
    assert (D2 : Zdigits2 (Zpos mx~0) = Zdigits2 (Zpos mx) + 1).
    { change (Zpos mx~0) with (2 * Zpos mx).
      replace (2 * Zpos mx) with (Zpos mx * 2 ^ 1)
        by (change (2 ^ 1) with 2; lia).
      now rewrite Zdigits2_shift by lia. }
    rewrite D2.
    replace (Z.max 0 (fexp32 (Zdigits2 (Zpos mx) + 1 + (-22 + -149 + 22))
                      - (-22 + -149 + 22))) with 0
      by (unfold fexp32; lia).
    rewrite Z.div_1_r, Z.add_0_r. unfold pack.
    change (-22 + -149 + 22 <=? 104) with true. cbv iota.
    right. exists (mx~0)%positive, (-22 + -149 + 22).
    split; [reflexivity|]. split.
    + apply bounded_intro; [|lia]. rewrite D2. unfold fexp32. lia.
    + change (2 ^ (-22 + -149 + 22 + 149)) with 1.
      change (2 ^ (-149 + 149)) with 1.
      change (Zpos mx~0) with (2 * Zpos mx). lia.
Qed.

(** A number that is at most -0.5. *)
Lemma leb_neg_half_scaled (f : float) :
  F32.valid f = true -> F32.leb f (F32.opp F32.half) = true ->
  f = S754_infinity true
  \/ exists mf ef,
       f = S754_finite true mf ef
       /\ bounded F32.prec F32.emax mf ef = true
       /\ 2 ^ 148 <= Zpos mf * 2 ^ (ef + 149).
Proof.
  intros V L. apply leb_opp in L.
  change (F32.opp (F32.opp F32.half)) with F32.half in L.
  destruct f as [sf|sf| |sf mf ef]; try discriminate.
  - destruct sf; [now left|discriminate].
  - destruct sf; [|discriminate]. right.
    exists mf, ef. split; [reflexivity|]. split; [exact V|].
    cbn [F32.opp SFopp negb] in L. unfold F32.leb, F32.half in L.
    apply (leb_scaled 8388608 mf (-24) ef) in L; [|reflexivity|exact V].
    exact L.
Qed.

Lemma mul_two_nonneg (d : float) :
  nonneg d = true -> nonneg (F32.mul F32.two d) = true.
Proof.
  fold_constants.
  destruct d as [s|s| |s m e]; cbn [nonneg]; try discriminate;
    intros N; try apply negb_true_iff in N; subst;
    try reflexivity.
  unfold F32.mul, SFmul. cbn [xorb].
  now apply binary_round_aux_nonneg.
Qed.

Lemma div_finite_not_nan (x : float) (sy : bool) (my : positive) (ey : Z) :
  F32.is_nan x = false ->
  F32.is_nan (F32.div x (S754_finite sy my ey)) = false.
Proof.
  destruct x as [sx|sx| |sx mx ex]; try discriminate; try reflexivity.
  intros _. apply div_not_nan; try reflexivity. now destruct sy.
Qed.

(** The downhill damper is a well-formed number; when it does not exceed 2
    it is finite. *)
Lemma downhill_damper_valid (motor : MotorData) (atr : ATR) :
  F32.valid (accel_diff atr) = true ->
  F32.valid (fst (downhill_damper motor atr)) = true.
Proof.
  intros V. unfold downhill_damper.
  destruct (downhill motor atr); [|reflexivity].
  cbn [fdiv bind ret fst]. apply add_valid; [reflexivity|].
  apply div_valid; [now apply abs_valid|reflexivity].
Qed.

Lemma damper_finite (d : float) :
  F32.leb F32.one d = true -> F32.gtb d F32.two = false ->
  is_finite d = true.
Proof.
  fold_constants.
  destruct d as [s|[|]| |s m e]; try reflexivity; discriminate.
Qed.

(** ** The gain for strengths up to 20 *)

(** X15: for a well-formed strength the factor stored by
    [brake_tilt_configure] is a well-formed number; when the strength is at
    most 20 and does not compare equal to 0, the factor is at most -0.5. *)
Theorem configure_factor_below_half (bt : BrakeTilt) (config : RefloatConfig) :
  F32.valid (braketilt_strength config) = true ->
  F32.valid (factor (brake_tilt_configure bt config)) = true
  /\ (F32.leb (braketilt_strength config) F32.twenty = true ->
      F32.eqb (braketilt_strength config) F32.zero = false ->
      F32.leb (factor (brake_tilt_configure bt config)) (F32.opp F32.half)
      = true).
Proof.
  intros V. unfold brake_tilt_configure. split.
  - destruct (F32.eqb _ F32.zero); cbn [set_factor factor];
      [reflexivity|].
    apply opp_valid, add_valid; [reflexivity|].
    apply div_valid; [|reflexivity]. now apply sub_valid.
  - intros L Z. rewrite Z.
    cbn [set_factor factor]. apply leb_opp.
    apply (add_pow2_le (-24)); [lia|].
    pose proof (sub_twenty_nonneg _ V L) as N. revert N.
    generalize (F32.sub F32.twenty (braketilt_strength config)).
    intros d N. fold_constants. now apply div_nonneg.
Qed.

Section Magnitude.

Variable sign : float -> Z.
Variable rate_limitf : float -> float -> float -> float.

Local Abbreviation tick_update := (tick_update sign rate_limitf).

(** The target of a tick whose balance offset has not the direction sign
    of the motor: zero, or the balance offset divided by the factor and by
    a damper from 1 to 2. *)
Lemma tick_target_cases bt tk :
  sign (tk_balance_offset tk) <> erpm_sign (tk_motor tk) ->
  let d := fst (downhill_damper (tk_motor tk) (tk_atr tk)) in
  tick_target sign bt tk = F32.zero
  \/ (F32.gtb d F32.two = false
      /\ tick_target sign bt tk
         = F32.div (F32.div (tk_balance_offset tk) (factor bt)) d).
Proof.
  intros NS d. unfold tick_target, brake_tilt_target.
  destruct (braking_condition bt (tk_motor tk)); [|now left].
  apply Z.eqb_neq in NS. rewrite NS. cbn [negb].
  rewrite !bind_fst. cbn [fdiv fst]. fold d.
  destruct (F32.gtb d F32.two); cbn [ret fst set_target target];
    [now left|right; auto].
Qed.

(** X16: the downhill damper only reduces the target.  For well-formed
    inputs, when the sign of the balance offset differs from the direction
    sign of the motor and the balance offset divided by the factor is not a
    NaN, the magnitude of the target after the call is at most the
    magnitude of that quotient. *)
Theorem damper_reduces_target bt tk :
  sign (tk_balance_offset tk) <> erpm_sign (tk_motor tk) ->
  F32.valid (tk_balance_offset tk) = true ->
  F32.valid (factor bt) = true ->
  F32.valid (accel_diff (tk_atr tk)) = true ->
  let q := F32.div (tk_balance_offset tk) (factor bt) in
  F32.is_nan q = false ->
  F32.leb (F32.abs (target (tick_update bt tk))) (F32.abs q) = true.
Proof.
  intros NS VB VF VA q NQ.
  assert (Z : F32.leb (F32.abs F32.zero) (F32.abs q) = true).
  { apply (leb_zero_nonneg false). now apply abs_nonneg. }
  rewrite tick_update_target_any.
  destruct (passes_gate tk); [|exact Z].
  destruct (tick_target_cases bt tk NS) as [->|[G ->]]; [exact Z|].
  fold q. apply div_by_ge_one; auto.
  - now apply div_valid.
  - now apply downhill_damper_valid.
  - apply downhill_damper_ge_one.
  - apply damper_finite; [apply downhill_damper_ge_one|exact G].
Qed.

(** X17: with a factor of at most -0.5 the magnitude of the target is at
    most twice the magnitude of the balance offset, in binary32
    arithmetic: for well-formed inputs and a finite balance offset whose
    sign differs from the direction sign of the motor. *)
Theorem target_within_twice_offset bt tk :
  sign (tk_balance_offset tk) <> erpm_sign (tk_motor tk) ->
  F32.valid (tk_balance_offset tk) = true ->
  is_finite (tk_balance_offset tk) = true ->
  F32.valid (factor bt) = true ->
  F32.leb (factor bt) (F32.opp F32.half) = true ->
  F32.valid (accel_diff (tk_atr tk)) = true ->
  F32.leb (F32.abs (target (tick_update bt tk)))
    (F32.mul F32.two (F32.abs (tk_balance_offset tk))) = true.
Proof.
  intros NS VB FB VF LF VA.
  set (R := F32.mul F32.two (F32.abs (tk_balance_offset tk))).
  assert (NB : F32.is_nan (tk_balance_offset tk) = false)
    by (destruct (tk_balance_offset tk); try reflexivity; discriminate).
  assert (NR : nonneg R = true)
    by (apply mul_two_nonneg; now apply abs_nonneg).
  assert (Z : F32.leb (F32.abs F32.zero) R = true)
    by (now apply (leb_zero_nonneg false)).
  rewrite tick_update_target_any.
  destruct (passes_gate tk); [|exact Z].
  destruct (tick_target_cases bt tk NS) as [->|[G ->]]; [exact Z|].
  pose proof (downhill_damper_ge_one (tk_motor tk) (tk_atr tk)) as L1.
  pose proof (downhill_damper_valid (tk_motor tk) (tk_atr tk) VA) as VD.
  pose proof (damper_finite _ L1 G) as FD.
  destruct (leb_one_scaled _ VD L1 FD) as (md & ed & -> & BD & SD).
  assert (ZQ : forall s,
             F32.leb (F32.abs (F32.div (S754_zero s)
                                 (S754_finite false md ed))) R = true).
  { intros s. cbn [F32.div SFdiv F32.abs SFabs].
    now apply (leb_zero_nonneg false). }
  subst R.
  destruct (leb_neg_half_scaled _ VF LF) as [->|(mf & ef & -> & BF & SF)].
  - (* the factor is minus infinity: the quotient is zero *)
    destruct (tk_balance_offset tk) as [sb|sb| |sb mb eb];
      try discriminate; apply ZQ.
  - destruct (tk_balance_offset tk) as [sb|sb| |sb mb eb];
      try discriminate; [apply ZQ|].
    cbn [F32.abs SFabs] in *.
    destruct (bounded_spec mb eb VB) as [CB _].
    assert (EB : -149 <= eb) by (unfold fexp32 in CB; lia).
    assert (PB : 0 < 2 ^ (eb + 149)) by (apply Z.pow_pos_nonneg; lia).
    destruct (mul_two_spec mb eb VB) as [->|(mR & eR & -> & BR & SR)].
    + apply leb_nonneg_infinity, abs_nonneg, div_finite_not_nan.
      now apply div_finite_not_nan.
    + assert (Q : SFleb
                    (F32.abs (F32.div (S754_finite sb mb eb)
                                (S754_finite true mf ef)))
                    (S754_finite false mR eR) = true).
      { apply div_abs_le; auto. rewrite SR. nia. }
      pose proof (div_valid (S754_finite sb mb eb) (S754_finite true mf ef)
                    VB BF) as VQ.
      destruct (F32.div (S754_finite sb mb eb) (S754_finite true mf ef))
        as [sq|sq| |sq mq eq]; try discriminate.
      * cbn [F32.div SFdiv F32.abs SFabs]. reflexivity.
      * cbn [F32.abs SFabs] in Q.
        apply leb_scaled in Q; [|exact VQ|exact BR].
        apply div_abs_le; auto.
        assert (0 < Zpos mq * 2 ^ (eq + 149)).
        { destruct (bounded_spec mq eq VQ) as [CQ _].
          assert (0 < 2 ^ (eq + 149))
            by (apply Z.pow_pos_nonneg; unfold fexp32 in CQ; lia).
          nia. }
        nia.
Qed.

End Magnitude.

(** * The theorems at concrete inputs *)

(** Closed facts are evaluated conjunct by conjunct. *)
Ltac by_computation :=
  repeat (match goal with |- _ /\ _ => apply conj end);
  vm_compute; try reflexivity; try discriminate.

(** The gate closes on wheelslip. *)
Lemma update_disable_gate_witness :
  (true = true
   \/ F32.gtb (F32.abs (accel_diff (ex_atr F32.zero)))
        (incline_threshold_default ex_config15) = true)
  /\ target
       (brake_tilt_update sign_ref rate_limitf_ref ex_bt ex_motor
          (ex_atr F32.zero) ex_config15 (F32.of_Z (-5))
          (mkIMU F32.zero F32.zero) ex_quarter true) = F32.zero.
Proof.
  split; [left; reflexivity|].
  exact (proj1 (update_disable_gate sign_ref rate_limitf_ref ex_bt ex_motor
                  (ex_atr F32.zero) ex_config15 (F32.of_Z (-5))
                  (mkIMU F32.zero F32.zero) ex_quarter true
                  (or_introl eq_refl))).
Defined.

(** With an incline signal of -3 the damper is 2.5 and the target is 0. *)
Lemma steep_downhill_zero_target_witness :
  braking_condition ex_bt ex_motor = true
  /\ sign_ref (F32.of_Z (-5)) <> erpm_sign ex_motor
  /\ F32.gtb (fst (downhill_damper ex_motor (ex_atr (F32.of_Z (-3)))))
       F32.two = true
  /\ target
       (brake_tilt_update sign_ref rate_limitf_ref ex_bt ex_motor
          (ex_atr (F32.of_Z (-3))) ex_config15 (F32.of_Z (-5))
          (mkIMU F32.zero F32.zero) ex_quarter false) = F32.zero.
Proof.
  assert (B : braking_condition ex_bt ex_motor = true)
    by (vm_compute; reflexivity).
  assert (S : sign_ref (F32.of_Z (-5)) <> erpm_sign ex_motor)
    by (vm_compute; discriminate).
  assert (D : F32.gtb (fst (downhill_damper ex_motor
                              (ex_atr (F32.of_Z (-3))))) F32.two = true)
    by (vm_compute; reflexivity).
  refine (conj B (conj S (conj D _))).
  exact (proj1 (steep_downhill_zero_target sign_ref rate_limitf_ref ex_bt
                  ex_motor (ex_atr (F32.of_Z (-3))) ex_config15
                  (F32.of_Z (-5)) (mkIMU F32.zero F32.zero) ex_quarter false
                  B S) D).
Defined.

(** With an incline signal of -2 the damper is exactly 2, which is "greater
    than or equal to 2", and the target is 5/1.5/2, not 0. *)
Lemma steep_downhill_counterexample :
  braking_condition ex_bt ex_motor = true
  /\ sign_ref (F32.of_Z (-5)) <> erpm_sign ex_motor
  /\ fst (downhill_damper ex_motor (ex_atr (F32.of_Z (-2)))) = F32.two
  /\ F32.leb F32.two
       (fst (downhill_damper ex_motor (ex_atr (F32.of_Z (-2))))) = true
  /\ target
       (brake_tilt_update sign_ref rate_limitf_ref ex_bt ex_motor
          (ex_atr (F32.of_Z (-2))) ex_config15 (F32.of_Z (-5))
          (mkIMU F32.zero F32.zero) ex_quarter false)
     = S754_finite false 13981013 (-23)
  /\ F32.eqb
       (target
          (brake_tilt_update sign_ref rate_limitf_ref ex_bt ex_motor
             (ex_atr (F32.of_Z (-2))) ex_config15 (F32.of_Z (-5))
             (mkIMU F32.zero F32.zero) ex_quarter false))
       F32.zero = false.
Proof. by_computation. Qed.

(** A strength of 15 gives a negative factor. *)
Lemma configure_factor_sign_witness :
  F32.valid (braketilt_strength ex_config15) = true
  /\ F32.ltb (braketilt_strength ex_config15) strength_bound = true
  /\ F32.eqb (braketilt_strength ex_config15) F32.zero = false
  /\ F32.ltb (factor (brake_tilt_configure ex_raw ex_config15)) F32.zero
     = true.
Proof.
  assert (V : F32.valid (braketilt_strength ex_config15) = true)
    by (vm_compute; reflexivity).
  assert (L : F32.ltb (braketilt_strength ex_config15) strength_bound = true)
    by (vm_compute; reflexivity).
  assert (Z : F32.eqb (braketilt_strength ex_config15) F32.zero = false)
    by (vm_compute; reflexivity).
  refine (conj V (conj L (conj Z _))).
  exact (proj2 (proj2 (proj2 (proj2
           (configure_factor_sign ex_raw ex_config15 V L)))) Z).
Defined.

(** A strength of 25 gives the factor 0.5, which is positive; a strength of
    22.5, which is not 0, gives a factor that compares equal to 0. *)
Lemma configure_factor_counterexample :
  factor (brake_tilt_configure ex_raw (ex_config (F32.of_Z 25) F32.one))
  = F32.half
  /\ F32.gtb
       (factor (brake_tilt_configure ex_raw
                  (ex_config (F32.of_Z 25) F32.one)))
       F32.zero = true
  /\ F32.eqb strength_bound F32.zero = false
  /\ F32.eqb
       (factor (brake_tilt_configure ex_raw
                  (ex_config strength_bound F32.one)))
       F32.zero = true.
Proof. by_computation. Qed.

(** At 600 ERPM the step is the "on" step. *)
Lemma slow_step_size_witness :
  reaches_step sign_ref ex_bt ex_tick_slow = true
  /\ F32.ltb (abs_erpm (tk_motor ex_tick_slow)) F32.c800 = true
  /\ F32.ltb (abs_erpm (tk_motor ex_tick_slow)) F32.c500 = false
  /\ fst (braketilt_step_size (tick_detect sign_ref ex_bt ex_tick_slow)
            (tk_motor ex_tick_slow) (tk_atr ex_tick_slow)
            (tk_config ex_tick_slow))
     = on_step_size (tk_atr ex_tick_slow).
Proof.
  assert (R : reaches_step sign_ref ex_bt ex_tick_slow = true)
    by (vm_compute; reflexivity).
  assert (L : F32.ltb (abs_erpm (tk_motor ex_tick_slow)) F32.c800 = true)
    by (vm_compute; reflexivity).
  assert (L5 : F32.ltb (abs_erpm (tk_motor ex_tick_slow)) F32.c500 = false)
    by (vm_compute; reflexivity).
  refine (conj R (conj L (conj L5 _))).
  exact (proj2 (proj2 (proj1 (proj2
           (slow_step_size sign_ref rate_limitf_ref ex_bt ex_tick_slow R))
           L)) L5).
Defined.

(** The window opens at pitch 10, stays open at pitch 9.5 and hold-tilt is
    activated at pitch 8, a quarter of a second after the opening. *)
Lemma pitch_drop_activates_hold_witness :
  watching sign_ref ex_bt ex_tick_open = true
  /\ window_open ex_bt = false
  /\ quiet sign_ref rate_limitf_ref
       (tick_update sign_ref rate_limitf_ref ex_bt ex_tick_open)
       [ex_tick_wait] = true
  /\ hold_counter
       (tick_detect sign_ref
          (run sign_ref rate_limitf_ref ex_bt [ex_tick_open; ex_tick_wait])
          ex_tick_drop) = 5.
Proof.
  assert (W0 : watching sign_ref ex_bt ex_tick_open = true)
    by (vm_compute; reflexivity).
  assert (O0 : window_open ex_bt = false) by (vm_compute; reflexivity).
  assert (Q : quiet sign_ref rate_limitf_ref
                (tick_update sign_ref rate_limitf_ref ex_bt ex_tick_open)
                [ex_tick_wait] = true) by (vm_compute; reflexivity).
  refine (conj W0 (conj O0 (conj Q _))).
  refine (proj1 (proj2 (proj2 (proj2
            (pitch_drop_activates_hold sign_ref rate_limitf_ref ex_bt
               ex_tick_open [ex_tick_wait] ex_tick_drop W0 O0 Q _ _ _)))));
    vm_compute; reflexivity.
Defined.

(** With a timeout of 5 the tick at pitch 8 activates hold-tilt and returns
    with the counter at 4, not 5; with a timeout of 1 the activating tick
    returns with hold-tilt inactive and the counter at 0.  On an incline
    signal above the threshold the tick at pitch 8 does not activate
    hold-tilt, although hold-tilt is inactive, the target exceeds the
    minimum, there is no wheelslip, the window is open and the pitch has
    dropped by 2. *)
Lemma pitch_drop_activates_hold_counterexample :
  (activates sign_ref ex_monitoring ex_tick_drop = true
   /\ hold_tilt_timeout (tk_config ex_tick_drop) = 5
   /\ hold_counter
        (tick_update sign_ref rate_limitf_ref ex_monitoring ex_tick_drop)
      = 4)
  /\ (activates sign_ref
        (tick_update sign_ref rate_limitf_ref ex_bt
           (ex_tick_short (F32.of_Z 10)))
        (ex_tick_short (F32.of_Z 8)) = true
      /\ hold_tilt_timeout (tk_config (ex_tick_short (F32.of_Z 8))) = 1
      /\ hold_tilt_active
           (run sign_ref rate_limitf_ref ex_bt
              [ex_tick_short (F32.of_Z 10); ex_tick_short (F32.of_Z 8)])
         = false
      /\ hold_counter
           (run sign_ref rate_limitf_ref ex_bt
              [ex_tick_short (F32.of_Z 10); ex_tick_short (F32.of_Z 8)])
         = 0)
  /\ (hold_tilt_active ex_monitoring = false
      /\ F32.gtb (F32.abs (target ex_monitoring))
           (hold_tilt_min_target (tk_config ex_tick_incline)) = true
      /\ tk_wheelslip ex_tick_incline = false
      /\ window_open ex_monitoring = true
      /\ pitch_dropped ex_monitoring ex_tick_incline = true
      /\ passes_gate ex_tick_incline = false
      /\ hold_tilt_active
           (tick_update sign_ref rate_limitf_ref ex_monitoring
              ex_tick_incline) = false).
Proof. by_computation. Qed.

(** With a timeout of 5, hold-tilt activated by the tick at pitch 8 is
    ended by a wheelslip on the next tick: after two ticks, not five, it is
    inactive with the counter at 0. *)
Lemma hold_tilt_lasts_timeout_counterexample :
  hold_tilt_timeout (tk_config ex_tick_drop) = 5
  /\ activates sign_ref ex_monitoring ex_tick_drop = true
  /\ hold_tilt_active
       (tick_update sign_ref rate_limitf_ref ex_monitoring ex_tick_drop)
     = true
  /\ tk_wheelslip ex_tick_slip = true
  /\ hold_tilt_active
       (run sign_ref rate_limitf_ref ex_monitoring
          [ex_tick_drop; ex_tick_slip]) = false
  /\ hold_counter
       (run sign_ref rate_limitf_ref ex_monitoring
          [ex_tick_drop; ex_tick_slip]) = 0.
Proof. by_computation. Qed.

(** With a timeout of 5, the activation tick and two more ticks leave the
    counter at 2. *)
Lemma hold_tilt_lasts_timeout_witness :
  1 <= 5 <= INT_MAX
  /\ activates sign_ref
       (run sign_ref rate_limitf_ref ex_bt [ex_tick_open; ex_tick_wait])
       ex_tick_drop = true
  /\ hold_counter
       (run sign_ref rate_limitf_ref
          (run sign_ref rate_limitf_ref ex_bt [ex_tick_open; ex_tick_wait])
          [ex_tick_drop; ex_tick_drop; ex_tick_drop]) = 2.
Proof.
  assert (R : 1 <= 5 <= INT_MAX) by (unfold INT_MAX; lia).
  assert (A : activates sign_ref
                (run sign_ref rate_limitf_ref ex_bt
                   [ex_tick_open; ex_tick_wait]) ex_tick_drop = true)
    by (vm_compute; reflexivity).
  refine (conj R (conj A _)).
  refine (proj1 (proj2
            (proj1 (hold_tilt_lasts_timeout sign_ref rate_limitf_ref)
               (run sign_ref rate_limitf_ref ex_bt
                  [ex_tick_open; ex_tick_wait])
               ex_tick_drop [ex_tick_drop; ex_tick_drop] 5 R eq_refl A
               _ _))).
  - repeat constructor.
  - cbn. lia.
Defined.

(** Three calls from 1: the magnitudes go down. *)
Lemma winddown_decay_witness :
  sane (setpoint ex_unit) = true
  /\ sane (target ex_unit) = true
  /\ F32.leb (F32.abs (setpoint (winddown_n 3 ex_unit)))
       (F32.abs (setpoint (winddown_n 2 ex_unit))) = true
  /\ F32.leb (F32.abs (target (winddown_n 3 ex_unit)))
       (F32.abs (target (winddown_n 2 ex_unit))) = true.
Proof.
  assert (S1 : sane (setpoint ex_unit) = true) by (vm_compute; reflexivity).
  assert (S2 : sane (target ex_unit) = true) by (vm_compute; reflexivity).
  refine (conj S1 (conj S2 _)).
  exact (conj
           (proj1 (proj1 (proj2 (proj2 winddown_decay)) ex_unit 2%nat S1))
           (proj1 (proj1 (proj2 (proj2 (proj2 winddown_decay))) ex_unit
                     2%nat S2))).
Defined.

(** From 1, after 21000 calls the setpoint is 100 and the target 50 times
    the smallest positive number; a further call rounds the products back to
    these values, so they are not multiplied by 0.995 and 0.99 and they stay
    away from zero.  A NaN target stays NaN and is not at most itself. *)
Lemma winddown_stalls_counterexample :
  winddown_n (Z.to_nat 21000) ex_unit = ex_stalled
  /\ brake_tilt_winddown ex_stalled = ex_stalled
  /\ F32.eqb (setpoint ex_stalled) F32.zero = false
  /\ F32.eqb (target ex_stalled) F32.zero = false
  /\ F32.is_nan (target (brake_tilt_winddown ex_nan_target)) = true
  /\ F32.leb (F32.abs (target (brake_tilt_winddown ex_nan_target)))
       (F32.abs (target ex_nan_target)) = false.
Proof. by_computation. Qed.

(** The division by the factor evaluated on a braking tick. *)
Lemma update_divisors_witness :
  In (DivFactor, factor ex_bt)
    (brake_tilt_update_divisions sign_ref rate_limitf_ref ex_bt ex_motor
       (ex_atr F32.zero) ex_config15 (F32.of_Z (-5))
       (mkIMU F32.zero F32.zero) ex_quarter false)
  /\ F32.ltb (factor ex_bt) F32.zero = true.
Proof.
  assert (I : In (DivFactor, factor ex_bt)
                (brake_tilt_update_divisions sign_ref rate_limitf_ref ex_bt
                   ex_motor (ex_atr F32.zero) ex_config15 (F32.of_Z (-5))
                   (mkIMU F32.zero F32.zero) ex_quarter false))
    by (vm_compute; left; reflexivity).
  split; [exact I|].
  exact (proj2 (proj1 (update_divisors sign_ref rate_limitf_ref ex_bt
                         ex_motor (ex_atr F32.zero) ex_config15
                         (F32.of_Z (-5)) (mkIMU F32.zero F32.zero)
                         ex_quarter false DivFactor (factor ex_bt) I))).
Defined.

(** With a lingering divisor of 0 the call divides by zero. *)
Lemma lingering_zero_counterexample :
  In (DivLingering, F32.zero)
    (brake_tilt_update_divisions sign_ref rate_limitf_ref ex_bt
       (tk_motor ex_tick_lingering0) (tk_atr ex_tick_lingering0)
       (tk_config ex_tick_lingering0) (tk_balance_offset ex_tick_lingering0)
       (tk_imu ex_tick_lingering0) (tk_dt ex_tick_lingering0)
       (tk_wheelslip ex_tick_lingering0))
  /\ F32.eqb F32.zero F32.zero = true.
Proof.
  split; [|reflexivity]. vm_compute. right; right; left. reflexivity.
Qed.

(** The latch is clear after a tick from the initial state. *)
Lemma pitch_drop_latch_never_persists_witness :
  reachable sign_ref rate_limitf_ref (brake_tilt_init ex_raw)
  /\ hold_tilt_pitch_drop_detected
       (tick_update sign_ref rate_limitf_ref (brake_tilt_init ex_raw)
          ex_tick_open) = 0.
Proof.
  assert (R : reachable sign_ref rate_limitf_ref (brake_tilt_init ex_raw))
    by constructor.
  split; [exact R|].
  exact (proj1 (pitch_drop_latch_never_persists sign_ref rate_limitf_ref)
           (brake_tilt_init ex_raw) ex_tick_open R).
Defined.

(** The invariant is kept by a tick from the configured state. *)
Lemma hold_inactive_zero_counter_witness :
  hold_inv ex_bt
  /\ hold_inv (tick_update sign_ref rate_limitf_ref ex_bt ex_tick_open).
Proof.
  assert (I : hold_inv ex_bt) by (intros _; vm_compute; reflexivity).
  split; [exact I|].
  exact (proj1 (proj2 (proj2 (hold_inactive_zero_counter sign_ref
                                rate_limitf_ref)))
           ex_bt ex_tick_open I).
Defined.

(** ** Further properties at concrete inputs *)

(** The factor after an update, a configuration with strength 15, an
    update, a wind-down and a reset is the one of that configuration. *)
Lemma factor_of_last_configure_witness :
  forallb keeps_config [OpUpdate ex_tick_open; OpWinddown; OpReset] = true
  /\ factor
       (apply_ops sign_ref rate_limitf_ref ex_raw
          ([OpUpdate ex_tick_open]
           ++ OpConfigure ex_config15
              :: [OpUpdate ex_tick_open; OpWinddown; OpReset]))
     = factor (brake_tilt_configure ex_raw ex_config15).
Proof.
  assert (K : forallb keeps_config
                [OpUpdate ex_tick_open; OpWinddown; OpReset] = true)
    by reflexivity.
  refine (conj K _).
  exact (factor_of_last_configure sign_ref rate_limitf_ref ex_raw ex_raw
           [OpUpdate ex_tick_open] ex_config15
           [OpUpdate ex_tick_open; OpWinddown; OpReset] K).
Defined.

(** Configured with strength 0, a braking tick leaves the target at 0. *)
Lemma factor_not_negative_disables_witness :
  F32.ltb
    (factor (brake_tilt_configure ex_bt (ex_config F32.zero F32.one)))
    F32.zero = false
  /\ forallb keeps_config [OpUpdate ex_tick_open; OpWinddown] = true
  /\ target
       (tick_update sign_ref rate_limitf_ref
          (apply_ops sign_ref rate_limitf_ref
             (brake_tilt_configure ex_bt (ex_config F32.zero F32.one))
             [OpUpdate ex_tick_open; OpWinddown])
          ex_tick_open) = F32.zero.
Proof.
  assert (Z : F32.ltb
                (factor
                   (brake_tilt_configure ex_bt (ex_config F32.zero F32.one)))
                F32.zero = false) by (vm_compute; reflexivity).
  assert (K : forallb keeps_config [OpUpdate ex_tick_open; OpWinddown]
              = true) by reflexivity.
  refine (conj Z (conj K _)).
  exact (proj1 (proj1 (factor_not_negative_disables sign_ref rate_limitf_ref)
                  (brake_tilt_configure ex_bt (ex_config F32.zero F32.one))
                  [OpUpdate ex_tick_open; OpWinddown] ex_tick_open Z K)).
Defined.

(** After a braking tick with a balance offset of -5 the target is 5/1.5; a
    braking tick with a balance offset of 5 keeps it. *)
Lemma same_sign_keeps_target_witness :
  passes_gate ex_tick_forward = true
  /\ braking_condition
       (tick_update sign_ref rate_limitf_ref ex_bt ex_tick_open)
       (tk_motor ex_tick_forward) = true
  /\ sign_ref (tk_balance_offset ex_tick_forward)
     = erpm_sign (tk_motor ex_tick_forward)
  /\ target
       (tick_update sign_ref rate_limitf_ref
          (tick_update sign_ref rate_limitf_ref ex_bt ex_tick_open)
          ex_tick_forward)
     = target (tick_update sign_ref rate_limitf_ref ex_bt ex_tick_open).
Proof.
  assert (G : passes_gate ex_tick_forward = true)
    by (vm_compute; reflexivity).
  assert (B : braking_condition
                (tick_update sign_ref rate_limitf_ref ex_bt ex_tick_open)
                (tk_motor ex_tick_forward) = true)
    by (vm_compute; reflexivity).
  assert (S : sign_ref (tk_balance_offset ex_tick_forward)
              = erpm_sign (tk_motor ex_tick_forward))
    by (vm_compute; reflexivity).
  refine (conj G (conj B (conj S _))).
  exact (same_sign_keeps_target sign_ref rate_limitf_ref
           (tick_update sign_ref rate_limitf_ref ex_bt ex_tick_open)
           ex_tick_forward G B S).
Defined.

(** The tick at pitch 8 activates hold-tilt: it finds the window open and
    the pitch 2 below the recorded one. *)
Lemma activation_needs_pitch_drop_witness :
  hold_tilt_pitch_drop_detected ex_monitoring = 0
  /\ activates sign_ref ex_monitoring ex_tick_drop = true
  /\ watching sign_ref ex_monitoring ex_tick_drop = true
  /\ window_open ex_monitoring = true
  /\ pitch_dropped ex_monitoring ex_tick_drop = true.
Proof.
  assert (L : hold_tilt_pitch_drop_detected ex_monitoring = 0)
    by (vm_compute; reflexivity).
  assert (A : activates sign_ref ex_monitoring ex_tick_drop = true)
    by (vm_compute; reflexivity).
  refine (conj L (conj A _)).
  exact (proj1 (activation_needs_pitch_drop sign_ref rate_limitf_ref)
           ex_monitoring ex_tick_drop L A).
Defined.

(** After the activating tick hold-tilt is active and the counter is
    positive. *)
Lemma active_iff_counting_witness :
  reachable sign_ref rate_limitf_ref
    (tick_update sign_ref rate_limitf_ref ex_monitoring ex_tick_drop)
  /\ hold_tilt_active
       (tick_update sign_ref rate_limitf_ref ex_monitoring ex_tick_drop)
     = (0 <? hold_counter
               (tick_update sign_ref rate_limitf_ref ex_monitoring
                  ex_tick_drop)).
Proof.
  assert (R : reachable sign_ref rate_limitf_ref
                (tick_update sign_ref rate_limitf_ref ex_monitoring
                   ex_tick_drop)).
  { apply reach_update.
    change ex_monitoring
      with (tick_update sign_ref rate_limitf_ref
              (tick_update sign_ref rate_limitf_ref ex_bt ex_tick_open)
              ex_tick_wait).
    do 2 apply reach_update. apply reach_configure. apply reach_init. }
  refine (conj R _).
  exact (proj1 (active_iff_counting sign_ref rate_limitf_ref _ R)).
Defined.

(** With a timeout of one tick the tick at pitch 8 activates hold-tilt and
    releases it. *)
Lemma short_timeout_never_active_witness :
  Forall (fun tk => INT_MIN < hold_tilt_timeout (tk_config tk) <= 1)
    [ex_tick_short (F32.of_Z 10); ex_tick_short (F32.of_Z 8)]
  /\ hold_tilt_active ex_bt = false
  /\ activates sign_ref
       (tick_update sign_ref rate_limitf_ref ex_bt
          (ex_tick_short (F32.of_Z 10)))
       (ex_tick_short (F32.of_Z 8)) = true
  /\ hold_tilt_active
       (run sign_ref rate_limitf_ref ex_bt
          [ex_tick_short (F32.of_Z 10); ex_tick_short (F32.of_Z 8)])
     = false.
Proof.
  assert (F : Forall
                (fun tk => INT_MIN < hold_tilt_timeout (tk_config tk) <= 1)
                [ex_tick_short (F32.of_Z 10); ex_tick_short (F32.of_Z 8)])
    by (repeat (apply Forall_cons; [unfold INT_MIN; cbn; lia|]);
        apply Forall_nil).
  assert (A : hold_tilt_active ex_bt = false) by (vm_compute; reflexivity).
  assert (T : activates sign_ref
                (tick_update sign_ref rate_limitf_ref ex_bt
                   (ex_tick_short (F32.of_Z 10)))
                (ex_tick_short (F32.of_Z 8)) = true)
    by (vm_compute; reflexivity).
  refine (conj F (conj A (conj T _))).
  exact (short_timeout_never_active sign_ref rate_limitf_ref
           [ex_tick_short (F32.of_Z 10); ex_tick_short (F32.of_Z 8)]
           ex_bt F A).
Defined.

(** A NaN incline signal passes the gate when there is no wheelslip. *)
Lemma nan_incline_witness :
  F32.is_nan (accel_diff (ex_atr S754_nan)) = true
  /\ disable_gate (ex_atr S754_nan) ex_config15 false = false.
Proof.
  assert (N : F32.is_nan (accel_diff (ex_atr S754_nan)) = true)
    by reflexivity.
  refine (conj N _).
  exact (proj1 (nan_incline (ex_atr S754_nan) ex_config15 false ex_motor)
           (or_introl N)).
Defined.

(** The legacy call on the braking motor reads the null IMU: the target,
    5/1.5, exceeds the minimal target of 1. *)
Lemma legacy_null_dereference_witness :
  disable_gate (ex_atr F32.zero) ex_config15 false = false
  /\ F32.gtb
       (F32.abs
          (target
             (fst (brake_tilt_target sign_ref ex_bt ex_motor
                     (ex_atr F32.zero) (F32.of_Z (-5))))))
       (hold_tilt_min_target ex_config15) = true
  /\ brake_tilt_update_legacy sign_ref rate_limitf_ref ex_bt ex_motor
       (ex_atr F32.zero) ex_config15 (F32.of_Z (-5)) = None.
Proof.
  assert (G : disable_gate (ex_atr F32.zero) ex_config15 false = false)
    by (vm_compute; reflexivity).
  assert (M : F32.gtb
                (F32.abs
                   (target
                      (fst (brake_tilt_target sign_ref ex_bt ex_motor
                              (ex_atr F32.zero) (F32.of_Z (-5))))))
                (hold_tilt_min_target ex_config15) = true)
    by (vm_compute; reflexivity).
  refine (conj G (conj M _)).
  exact (proj2 (legacy_null_dereference sign_ref rate_limitf_ref ex_bt
                  ex_motor (ex_atr F32.zero) ex_config15 (F32.of_Z (-5)))
           (conj G (or_intror M))).
Defined.

(** The legacy call at 600 ERPM without braking does not read the IMU and
    leaves hold-tilt inactive. *)
Lemma legacy_defined_witness :
  brake_tilt_update_legacy sign_ref rate_limitf_ref ex_bt ex_motor_slow
    (ex_atr F32.zero) ex_config15 (F32.of_Z (-5))
  = Some (brake_tilt_update sign_ref rate_limitf_ref ex_bt ex_motor_slow
            (ex_atr F32.zero) ex_config15 (F32.of_Z (-5))
            (mkIMU F32.zero F32.zero) F32.zero false)
  /\ hold_tilt_active
       (brake_tilt_update sign_ref rate_limitf_ref ex_bt ex_motor_slow
          (ex_atr F32.zero) ex_config15 (F32.of_Z (-5))
          (mkIMU F32.zero F32.zero) F32.zero false) = false.
Proof.
  assert (L : brake_tilt_update_legacy sign_ref rate_limitf_ref ex_bt
                ex_motor_slow (ex_atr F32.zero) ex_config15 (F32.of_Z (-5))
              = Some (brake_tilt_update sign_ref rate_limitf_ref ex_bt
                        ex_motor_slow (ex_atr F32.zero) ex_config15
                        (F32.of_Z (-5)) (mkIMU F32.zero F32.zero) F32.zero
                        false))
    by (vm_compute; reflexivity).
  refine (conj L _).
  exact (proj1 (proj2 (legacy_defined sign_ref rate_limitf_ref ex_bt
                         ex_motor_slow (ex_atr F32.zero) ex_config15
                         (F32.of_Z (-5)) _ L))).
Defined.

(** With a balance offset of -5 the target, 5/1.5, is above zero. *)
Lemma target_opposes_offset_witness :
  sign_ref (tk_balance_offset ex_tick_open) <> erpm_sign (tk_motor ex_tick_open)
  /\ F32.ltb F32.zero
       (target (tick_update sign_ref rate_limitf_ref ex_bt ex_tick_open))
     = true
  /\ F32.ltb (tk_balance_offset ex_tick_open) F32.zero = true.
Proof.
  assert (S : sign_ref (tk_balance_offset ex_tick_open)
              <> erpm_sign (tk_motor ex_tick_open))
    by (vm_compute; discriminate).
  assert (P : F32.ltb F32.zero
                (target (tick_update sign_ref rate_limitf_ref ex_bt
                           ex_tick_open)) = true)
    by (vm_compute; reflexivity).
  refine (conj S (conj P _)).
  exact (proj1 (target_opposes_offset sign_ref rate_limitf_ref ex_bt
                  ex_tick_open S) P).
Defined.

(** A strength of 15 gives the factor -1.5, which is at most -0.5. *)
Lemma configure_factor_below_half_witness :
  F32.valid (braketilt_strength ex_config15) = true
  /\ F32.leb (braketilt_strength ex_config15) F32.twenty = true
  /\ F32.eqb (braketilt_strength ex_config15) F32.zero = false
  /\ F32.leb (factor (brake_tilt_configure ex_raw ex_config15))
       (F32.opp F32.half) = true.
Proof.
  assert (V : F32.valid (braketilt_strength ex_config15) = true)
    by (vm_compute; reflexivity).
  assert (L : F32.leb (braketilt_strength ex_config15) F32.twenty = true)
    by (vm_compute; reflexivity).
  assert (Z : F32.eqb (braketilt_strength ex_config15) F32.zero = false)
    by (vm_compute; reflexivity).
  refine (conj V (conj L (conj Z _))).
  exact (proj2 (configure_factor_below_half ex_raw ex_config15 V) L Z).
Defined.

(** Three calls from 1 keep setpoint and target above zero. *)
Lemma winddown_keeps_sign_witness :
  F32.valid (setpoint ex_unit) = true
  /\ F32.valid (target ex_unit) = true
  /\ sign_bit (setpoint (winddown_n 3 ex_unit))
     = sign_bit (setpoint ex_unit)
  /\ sign_bit (target (winddown_n 3 ex_unit)) = sign_bit (target ex_unit).
Proof.
  assert (V1 : F32.valid (setpoint ex_unit) = true)
    by (vm_compute; reflexivity).
  assert (V2 : F32.valid (target ex_unit) = true)
    by (vm_compute; reflexivity).
  refine (conj V1 (conj V2 _)).
  exact (conj (proj1 (proj1 (winddown_keeps_sign ex_unit 3 V1 V2)))
           (proj1 (proj2 (winddown_keeps_sign ex_unit 3 V1 V2)))).
Defined.

(** The activating tick holds the setpoint at 3 for a hold angle of 2 and a
    balance pitch of 0. *)
Lemma hold_setpoint_not_below_witness :
  holds sign_ref ex_monitoring ex_tick_drop = true
  /\ sane
       (hold_tilt_value
          (tick_update sign_ref rate_limitf_ref ex_monitoring ex_tick_drop))
     = true
  /\ F32.valid (balance_pitch (tk_imu ex_tick_drop)) = true
  /\ F32.leb
       (hold_tilt_value
          (tick_update sign_ref rate_limitf_ref ex_monitoring ex_tick_drop))
       (setpoint
          (tick_update sign_ref rate_limitf_ref ex_monitoring ex_tick_drop))
     = true.
Proof.
  assert (H : holds sign_ref ex_monitoring ex_tick_drop = true)
    by (vm_compute; reflexivity).
  assert (V : sane
                (hold_tilt_value
                   (tick_update sign_ref rate_limitf_ref ex_monitoring
                      ex_tick_drop)) = true)
    by (vm_compute; reflexivity).
  assert (B : F32.valid (balance_pitch (tk_imu ex_tick_drop)) = true)
    by (vm_compute; reflexivity).
  refine (conj H (conj V (conj B _))).
  exact (proj1 (hold_setpoint_not_below sign_ref rate_limitf_ref
                  ex_monitoring ex_tick_drop H V B)).
Defined.

(** A wind-down ends the hold-tilt of the activating tick; a further tick
    at pitch 8 does not activate it again. *)
Lemma no_immediate_reactivation_witness :
  reachable sign_ref rate_limitf_ref
    (tick_update sign_ref rate_limitf_ref ex_monitoring ex_tick_drop)
  /\ hold_tilt_active
       (tick_update sign_ref rate_limitf_ref ex_monitoring ex_tick_drop)
     = true
  /\ hold_tilt_active
       (apply_op sign_ref rate_limitf_ref
          (tick_update sign_ref rate_limitf_ref ex_monitoring ex_tick_drop)
          OpWinddown) = false
  /\ hold_tilt_active
       (tick_update sign_ref rate_limitf_ref
          (apply_op sign_ref rate_limitf_ref
             (tick_update sign_ref rate_limitf_ref ex_monitoring
                ex_tick_drop)
             OpWinddown)
          ex_tick_drop) = false.
Proof.
  assert (R : reachable sign_ref rate_limitf_ref
                (tick_update sign_ref rate_limitf_ref ex_monitoring
                   ex_tick_drop)).
  { apply reach_update.
    change ex_monitoring
      with (tick_update sign_ref rate_limitf_ref
              (tick_update sign_ref rate_limitf_ref ex_bt ex_tick_open)
              ex_tick_wait).
    do 2 apply reach_update. apply reach_configure. apply reach_init. }
  assert (A : hold_tilt_active
                (tick_update sign_ref rate_limitf_ref ex_monitoring
                   ex_tick_drop) = true) by (vm_compute; reflexivity).
  assert (E : hold_tilt_active
                (apply_op sign_ref rate_limitf_ref
                   (tick_update sign_ref rate_limitf_ref ex_monitoring
                      ex_tick_drop)
                   OpWinddown) = false) by (vm_compute; reflexivity).
  refine (conj R (conj A (conj E _))).
  exact (no_immediate_reactivation sign_ref rate_limitf_ref _ OpWinddown
           ex_tick_drop R A E).
Defined.

(** With an incline signal of -1.5 the damper is 1.75: the target is below
    the balance offset divided by the factor. *)
Lemma damper_reduces_target_witness :
  sign_ref (tk_balance_offset ex_tick_downhill)
  <> erpm_sign (tk_motor ex_tick_downhill)
  /\ F32.valid (tk_balance_offset ex_tick_downhill) = true
  /\ F32.valid (factor ex_bt) = true
  /\ F32.valid (accel_diff (tk_atr ex_tick_downhill)) = true
  /\ F32.is_nan (F32.div (tk_balance_offset ex_tick_downhill) (factor ex_bt))
     = false
  /\ F32.leb
       (F32.abs
          (target
             (tick_update sign_ref rate_limitf_ref ex_bt ex_tick_downhill)))
       (F32.abs (F32.div (tk_balance_offset ex_tick_downhill) (factor ex_bt)))
     = true.
Proof.
  assert (S : sign_ref (tk_balance_offset ex_tick_downhill)
              <> erpm_sign (tk_motor ex_tick_downhill))
    by (vm_compute; discriminate).
  assert (VB : F32.valid (tk_balance_offset ex_tick_downhill) = true)
    by (vm_compute; reflexivity).
  assert (VF : F32.valid (factor ex_bt) = true)
    by (vm_compute; reflexivity).
  assert (VA : F32.valid (accel_diff (tk_atr ex_tick_downhill)) = true)
    by (vm_compute; reflexivity).
  assert (NQ : F32.is_nan
                 (F32.div (tk_balance_offset ex_tick_downhill)
                    (factor ex_bt)) = false)
    by (vm_compute; reflexivity).
  refine (conj S (conj VB (conj VF (conj VA (conj NQ _))))).
  exact (damper_reduces_target sign_ref rate_limitf_ref ex_bt
           ex_tick_downhill S VB VF VA NQ).
Defined.

(** With the factor -1.5 and a balance offset of -5 the target stays
    within 10. *)
Lemma target_within_twice_offset_witness :
  sign_ref (tk_balance_offset ex_tick_open)
  <> erpm_sign (tk_motor ex_tick_open)
  /\ F32.valid (tk_balance_offset ex_tick_open) = true
  /\ is_finite (tk_balance_offset ex_tick_open) = true
  /\ F32.valid (factor ex_bt) = true
  /\ F32.leb (factor ex_bt) (F32.opp F32.half) = true
  /\ F32.valid (accel_diff (tk_atr ex_tick_open)) = true
  /\ F32.leb
       (F32.abs
          (target (tick_update sign_ref rate_limitf_ref ex_bt ex_tick_open)))
       (F32.mul F32.two (F32.abs (tk_balance_offset ex_tick_open))) = true.
Proof.
  assert (S : sign_ref (tk_balance_offset ex_tick_open)
              <> erpm_sign (tk_motor ex_tick_open))
    by (vm_compute; discriminate).
  assert (VB : F32.valid (tk_balance_offset ex_tick_open) = true)
    by (vm_compute; reflexivity).
  assert (FB : is_finite (tk_balance_offset ex_tick_open) = true)
    by (vm_compute; reflexivity).
  assert (VF : F32.valid (factor ex_bt) = true)
    by (vm_compute; reflexivity).
  assert (LF : F32.leb (factor ex_bt) (F32.opp F32.half) = true)
    by (vm_compute; reflexivity).
  assert (VA : F32.valid (accel_diff (tk_atr ex_tick_open)) = true)
    by (vm_compute; reflexivity).
  refine (conj S (conj VB (conj FB (conj VF (conj LF (conj VA _)))))).
  exact (target_within_twice_offset sign_ref rate_limitf_ref ex_bt
           ex_tick_open S VB FB VF LF VA).
Defined.
